(** * Update orchestration of the Pokemon GO registry

    A shallow embedding of [src/data/DataUpdateManager.js]: the source
    registry, the change detector, the priority queue of update tasks, the
    sequential processor with its audit rows, the listener table and the
    self re-arming timers; with it the store it is given,
    [src/data/LocalDatabase.js] over the tables of [database/schema.sql].

    Conventions of the embedding.
    - The class keeps its state in fields of [this]; here they are the
      fields of [Manager], passed explicitly.  What a call throws is part of
      its [Completion]: an [Error] with its message, or a bare string, which
      is what sql.js throws when it cannot bind a value.
    - An [async] method runs without interruption up to the promise it
      awaits.  A method that awaits the network is cut at that point into
      the part that runs at the call and the part that runs when the
      promise settles; what the network answered is the [World] handed to
      the second part.
    - The store is [LocalDatabase], initialized.  [run] binds its
      parameters, and fails when a value cannot be bound or when a CHECK of
      the schema rejects the row; [all] and [get] never hand their
      parameters to the statement, which then reads each of them as NULL.  Foreign keys are declared and
      not enforced (no pragma turns them on).  The identifiers that
      [generateUpdateId] hands out were never used, so no insertion meets a
      row with its key.
    - [new Date()] reads a logical clock that advances with every reading. *)

From Stdlib Require Import ZArith QArith Lia Permutation.
From stdpp Require Import base option list strings gmap sorting.

(** ** JavaScript objects used as tables *)

(** Members every object literal inherits from [Object.prototype]. *)
Definition Object_prototype : list string :=
  ["constructor"; "hasOwnProperty"; "isPrototypeOf"; "propertyIsEnumerable";
   "toLocaleString"; "toString"; "valueOf"; "__proto__";
   "__defineGetter__"; "__defineSetter__"; "__lookupGetter__"; "__lookupSetter__"].

(** The outcome of reading [o[key]] on an object literal [o]. *)
Inductive Property (V : Type) : Type :=
| Own (v : V)
| Inherited (key : string)
| Undefined.
Arguments Own {V} v.
Arguments Inherited {V} key.
Arguments Undefined {V}.

Definition Get {V : Type} (o : gmap string V) (key : string) : Property V :=
  match o !! key with
  | Some v => Own v
  | None =>
      if bool_decide (key ∈ Object_prototype) then Inherited key else Undefined
  end.

(** A value that may end up in [updateTask.priority]: a number, or a member
    of [Object.prototype] (a function or an object, both truthy). *)
Inductive JsValue : Type :=
| JsNumber (n : Z)
| JsObject (key : string).

(** What a [catch] receives: an [Error] object, or a string that was thrown
    as it is. *)
Inductive Exception : Type :=
| JsError (message : string)
| JsString (text : string).

(** [error.message]; a string has no such member. *)
Definition message_of (error : Exception) : option string :=
  match error with
  | JsError text => Some text
  | JsString _ => None
  end.

(** Abrupt and normal completion of a call: [Throw message] is
    [throw new Error(message)], [ThrowString text] is [throw text]. *)
Inductive Completion (A : Type) : Type :=
| Normal (a : A)
| Throw (message : string)
| ThrowString (text : string).
Arguments Normal {A} a.
Arguments Throw {A} message.
Arguments ThrowString {A} text.

Definition throw {A : Type} (error : Exception) : Completion A :=
  match error with
  | JsError text => Throw text
  | JsString text => ThrowString text
  end.

(** A completion as a [try] sees it. *)
Definition attempt {A : Type} (c : Completion A) : A + Exception :=
  match c with
  | Normal a => inl a
  | Throw text => inr (JsError text)
  | ThrowString text => inr (JsString text)
  end.

(** The messages of the engine's TypeErrors, as V8 words them; no statement
    below depends on the wording. *)
Definition TypeError_push : string :=
  "this.callbacks[event].push is not a function".
Definition TypeError_forEach : string :=
  "this.callbacks[event].forEach is not a function".
Definition TypeError_isNew : string :=
  "Cannot read properties of undefined (reading 'isNew')".
Definition TypeError_of_null (name : string) : string :=
  "Cannot read properties of null (reading '" +:+ name +:+ "')".
Definition TypeError_iterable (expression : string) : string :=
  expression +:+ " is not iterable".

(** ** getUpdatePriority *)

Definition priorities : gmap string Z :=
  {[ "gamemaster" := 10%Z; "rankings" := 8%Z; "tiers" := 6%Z; "moves" := 4%Z ]}.

(** [priorities[sourceType] || 1] *)
Definition getUpdatePriority (sourceType : string) : JsValue :=
  match Get priorities sourceType with
  | Own n => if bool_decide (n = 0%Z) then JsNumber 1 else JsNumber n
  | Inherited key => JsObject key
  | Undefined => JsNumber 1
  end.

(** ** JSON documents *)

(** What [response.json()] resolves to.  A string is the sequence of its
    characters; the members of an object are listed in the order of the
    document. *)
#[local] Unset Elimination Schemes.
Inductive Json : Type :=
| JsonNull
| JsonBoolean (b : bool)
| JsonNumber (q : Q)
| JsonString (s : string)
| JsonArray (items : list Json)
| JsonObject (members : list (string * Json)).
#[local] Set Elimination Schemes.

(** [if (value)] *)
Definition truthy (value : Json) : bool :=
  match value with
  | JsonNull => false
  | JsonBoolean b => b
  | JsonNumber q => negb (Qeq_bool q 0)
  | JsonString s => negb (String.eqb s "")
  | JsonArray _ | JsonObject _ => true
  end.

(** Of the members of an object that have one name, [JSON.parse] keeps the
    last. *)
Fixpoint lookup_member (name : string) (members : list (string * Json))
  : option Json :=
  match members with
  | [] => None
  | (key, value) :: rest =>
      match lookup_member name rest with
      | Some later => Some later
      | None => if String.eqb key name then Some value else None
      end
  end.

(** [value.name] on a value that is not [null], for the names read here
    ([pokemon], [moves], [sha]), which neither a string, nor an array, nor
    [Object.prototype] carries: [None] is [undefined]. *)
Definition member (name : string) (value : Json) : option Json :=
  match value with
  | JsonObject members => lookup_member name members
  | _ => None
  end.

Fixpoint characters (s : string) : list string :=
  match s with
  | EmptyString => []
  | String c rest => String c EmptyString :: characters rest
  end.

(** [for (const entry of value)]: what the loop runs over, [None] when the
    value is not iterable.  Arrays and strings are; [undefined], numbers,
    booleans, [null] and plain objects are not. *)
Definition iterate (value : option Json) : option (list Json) :=
  match value with
  | Some (JsonArray items) => Some items
  | Some (JsonString s) => Some (JsonString <$> characters s)
  | _ => None
  end.

(** [a === b], for a value [a] out of a document just fetched and a value
    [b] out of the store: an array or an object is equal to itself only. *)
Definition strictly_equal (a b : option Json) : bool :=
  match a, b with
  | None, None => true
  | Some JsonNull, Some JsonNull => true
  | Some (JsonBoolean x), Some (JsonBoolean y) => Bool.eqb x y
  | Some (JsonNumber x), Some (JsonNumber y) => Qeq_bool x y
  | Some (JsonString x), Some (JsonString y) => String.eqb x y
  | _, _ => false
  end.

(** ** Data model *)

Module Source.
Record t : Type := mk {
  id : string;
  name : string;
  type : string;
  repositoryUrl : string;
  filePath : string;
  checkInterval : Z;
  lastCheckTime : option nat;
  lastUpdateTime : option nat;
  isActive : bool }.

Definition with_lastCheckTime (now : nat) (s : t) : t :=
  mk (id s) (name s) (type s) (repositoryUrl s) (filePath s)
     (checkInterval s) (Some now) (lastUpdateTime s) (isActive s).
End Source.

Inductive Status : Type := pending | in_progress | completed | failed.

Global Instance Status_eq_dec : EqDecision Status.
Proof. solve_decision. Defined.

Definition terminal (s : Status) : bool :=
  match s with completed | failed => true | _ => false end.

(** A field that was never assigned is [None]: [undefined]. *)
Module Task.
Record t : Type := mk {
  id : nat;
  sourceId : string;
  source : Source.t;
  status : Status;
  queuedAt : nat;
  priority : JsValue;
  startTime : option nat;
  endTime : option nat;
  databaseId : option nat;
  result : option (nat * nat);
  error : option string }.

Definition start (now : nat) (u : t) : t :=
  mk (id u) (sourceId u) (source u) in_progress (queuedAt u) (priority u)
     (Some now) (endTime u) (databaseId u) (result u) (error u).
Definition with_databaseId (k : nat) (u : t) : t :=
  mk (id u) (sourceId u) (source u) (status u) (queuedAt u) (priority u)
     (startTime u) (endTime u) (Some k) (result u) (error u).
Definition complete (r : nat * nat) (now : nat) (u : t) : t :=
  mk (id u) (sourceId u) (source u) completed (queuedAt u) (priority u)
     (startTime u) (Some now) (databaseId u) (Some r) (error u).
(** [status = 'failed'; error = error.message] *)
Definition fail (text : option string) (u : t) : t :=
  mk (id u) (sourceId u) (source u) failed (queuedAt u) (priority u)
     (startTime u) (endTime u) (databaseId u) (result u) text.
Definition with_endTime (now : nat) (u : t) : t :=
  mk (id u) (sourceId u) (source u) (status u) (queuedAt u) (priority u)
     (startTime u) (Some now) (databaseId u) (result u) (error u).
End Task.

(** A row of [fact_data_updates], the audit trail.  [fk_date_id] keeps the
    reading of the clock whose date the statement stores;
    [git_commit_hash] keeps the value that was bound, [JsonNull] for NULL
    (what the column makes of a value that is not a text is not
    represented: no statement of the program gets to read it). *)
Module Row.
Record t : Type := mk {
  pk_update_id : nat;
  fk_source_id : string;
  fk_date_id : nat;
  update_type : string;
  update_status : Status;
  records_added : nat;
  records_modified : nat;
  error_message : option string;
  processing_duration : option Q;
  git_commit_hash : Json }.
End Row.

(** A row of [dim_data_sources]; [update_frequency] is in hours. *)
Module SourceRow.
Record t : Type := mk {
  source_name : string;
  source_type : string;
  repository_url : string;
  update_frequency : Q;
  is_active : bool;
  last_check_timestamp : option nat;
  last_update_timestamp : option nat }.

Definition checked (now : option nat) (r : t) : t :=
  mk (source_name r) (source_type r) (repository_url r) (update_frequency r)
     (is_active r) now (last_update_timestamp r).
Definition updated (now : option nat) (r : t) : t :=
  mk (source_name r) (source_type r) (repository_url r) (update_frequency r)
     (is_active r) (last_check_timestamp r) now.
End SourceRow.

(** The tables the manager touches: the audit trail with the newest
    insertion first, the sources by their key, and of [fact_pokemon] and
    [dim_moves] the columns its statements name ([pokemon_number] and
    [form]; [move_name]). *)
Record Store : Type := mkStore {
  fact_data_updates : list Row.t;
  dim_data_sources : gmap string SourceRow.t;
  fact_pokemon : list (Z * string);
  dim_moves : list string }.

(** ** LocalDatabase *)

(** A [?] of a statement, as the statement sees it. *)
Inductive Placeholder (A : Type) : Type :=
| Bound (a : A)
| Unbound.
Arguments Bound {A} a.
Arguments Unbound {A}.

(** [column = ?]: a parameter that was not bound is NULL, and nothing is
    equal to NULL. *)
Definition sql_equal {A B : Type} (same : A -> B -> bool) (column : A)
  (parameter : Placeholder B) : bool :=
  match parameter with
  | Bound value => same column value
  | Unbound => false
  end.

Module LocalDatabase.
(** [all(sql, params)] prepares the statement and steps through it; [params]
    is named in the message of the [catch] and nowhere else.  [select] is
    the statement, with its result set in the order the statement asks
    for. *)
Definition all {A R : Type} (select : Placeholder A -> list R) (params : A)
  : list R :=
  select Unbound.

(** [results.length > 0 ? results[0] : null] *)
Definition get {A R : Type} (select : Placeholder A -> list R) (params : A)
  : option R :=
  head (all select params).

(** [run(sql, params)] hands [params] to [Statement.run], which binds them
    one by one with [bindValue] of sql.js before it steps: strings, numbers,
    booleans and [null] are bound, and so is an object that has a [length];
    anything else, so [undefined] and a plain object, is refused with a
    string thrown.  [None] stands for the refusal. *)
Definition bindValue (value : option Json) : option Json :=
  match value with
  | None => None
  | Some (JsonObject members) =>
      match lookup_member "length" members with
      | Some JsonNull | None => None
      | Some _ => Some (JsonObject members)
      end
  | Some bound => Some bound
  end.

(** The wording is sql.js's, cut before the value it names. *)
Definition Wrong_API_use : string :=
  "Wrong API use : tried to bind a value of an unknown type".
End LocalDatabase.

(** [CHECK (update_type IN (...))] of [fact_data_updates] and
    [CHECK (source_type IN (...))] of [dim_data_sources]. *)
Definition update_type_CHECK (update_type : string) : bool :=
  bool_decide (update_type ∈ ["pokemon"; "moves"; "rankings"; "tiers"; "gamemaster"]).
Definition source_type_CHECK (source_type : string) : bool :=
  bool_decide (source_type ∈ ["rankings"; "gamemaster"; "tiers"; "moves"]).

(** The message of SQLite for a row that a CHECK rejects: these words and,
    depending on its version, the name of the table or the text of the
    constraint; the name stands here for either. *)
Definition CHECK_failed (table : string) : string :=
  "CHECK constraint failed: " +:+ table.

(** ** getRepoPath *)

(** [s] with the literal [p] taken off its front. *)
Fixpoint strip_prefix (p s : string) : option string :=
  match p, s with
  | EmptyString, _ => Some s
  | String a p', String b s' => if Ascii.eqb a b then strip_prefix p' s' else None
  | String _ _, EmptyString => None
  end.

Definition slash : Ascii.ascii := Ascii.ascii_of_nat 47.

(** [[^\/]+] is greedy: the longest run of characters other than the slash,
    and what follows it. *)
Fixpoint segment (s : string) : string * string :=
  match s with
  | EmptyString => (EmptyString, EmptyString)
  | String c s' =>
      if Ascii.eqb c slash then (EmptyString, s)
      else let '(run, rest) := segment s' in (String c run, rest)
  end.

(** [/github\.com\/([^\/]+)\/([^\/]+)/] tried at the front of [s].  The
    first group must be followed by a slash; a shorter run would be followed
    by a character of the run, so there is nothing to backtrack to. *)
Definition match_here (s : string) : option (string * string) :=
  match strip_prefix "github.com/" s with
  | None => None
  | Some s1 =>
      let '(owner, s2) := segment s1 in
      match owner, s2 with
      | String _ _, String _ s3 =>
          let '(repo, _) := segment s3 in
          match repo with
          | String _ _ => Some (owner, repo)
          | EmptyString => None
          end
      | _, _ => None
      end
  end.

(** [String.prototype.match] with a regular expression that is not global:
    the match that starts leftmost. *)
Fixpoint regexp_match (s : string) : option (string * string) :=
  match match_here s with
  | Some groups => Some groups
  | None =>
      match s with
      | EmptyString => None
      | String _ s' => regexp_match s'
      end
  end.

(** [s.replace(pattern, '')] with a string pattern: the first occurrence
    goes, the rest stays. *)
Fixpoint replace_first (pattern s : string) : string :=
  match strip_prefix pattern s with
  | Some rest => rest
  | None =>
      match s with
      | EmptyString => EmptyString
      | String c s' => String c (replace_first pattern s')
      end
  end.

Definition getRepoPath (repositoryUrl : string) : option string :=
  match regexp_match repositoryUrl with
  | Some (owner, repo) => Some (owner +:+ "/" +:+ replace_first ".git" repo)
  | None => None
  end.

(** ** The outside world *)

Inductive Fetched (A : Type) : Type :=
| FetchError
| FetchOk (a : A).
Arguments FetchError {A}.
Arguments FetchOk {A} a.

(** What [fetch] resolves to: [response.ok], and what [response.json()]
    settles with, [FetchError] when the body is not JSON. *)
Record Response : Type := mkResponse { ok : bool; json : Fetched Json }.

(** What the network answers while one awaited operation is pending:
    [FetchError] when [fetch] rejects. *)
Record World : Type := mkWorld { fetch : string -> Fetched Response }.

(** A registered callback; [raises] tells whether calling it throws. *)
Record Listener : Type := mkListener { label : nat; raises : bool }.

Record Notification : Type := mkNotification {
  event_name : string;
  listener : nat;
  about : nat }.

(** ** The manager *)

Record Manager : Type := mkManager {
  db : Store;
  updateSources : list Source.t;
  updateQueue : list Task.t;
  isProcessing : bool;
  callbacks : gmap string (list Listener);
  (** suspended invocations of [processUpdateQueue], each with the task
      whose [processUpdate] it awaits *)
  drains : list Task.t;
  (** history: tasks in the order [shift] returned them, tasks whose loop
      iteration has ended with the loop going on, tasks in whose iteration
      the loop was rejected, and the listener calls made *)
  shifted : list Task.t;
  settled : list Task.t;
  stranded : list Task.t;
  notified : list Notification;
  clock : nat;
  entropy : nat }.

Definition with_db (d : Store) (m : Manager) : Manager :=
  mkManager d (updateSources m) (updateQueue m) (isProcessing m) (callbacks m)
            (drains m) (shifted m) (settled m) (stranded m) (notified m)
            (clock m) (entropy m).
Definition with_updateSources (l : list Source.t) (m : Manager) : Manager :=
  mkManager (db m) l (updateQueue m) (isProcessing m) (callbacks m)
            (drains m) (shifted m) (settled m) (stranded m) (notified m)
            (clock m) (entropy m).
Definition with_updateQueue (q : list Task.t) (m : Manager) : Manager :=
  mkManager (db m) (updateSources m) q (isProcessing m) (callbacks m)
            (drains m) (shifted m) (settled m) (stranded m) (notified m)
            (clock m) (entropy m).
Definition with_isProcessing (b : bool) (m : Manager) : Manager :=
  mkManager (db m) (updateSources m) (updateQueue m) b (callbacks m)
            (drains m) (shifted m) (settled m) (stranded m) (notified m)
            (clock m) (entropy m).
Definition with_callbacks (c : gmap string (list Listener)) (m : Manager) : Manager :=
  mkManager (db m) (updateSources m) (updateQueue m) (isProcessing m) c
            (drains m) (shifted m) (settled m) (stranded m) (notified m)
            (clock m) (entropy m).
Definition with_drains (l : list Task.t) (m : Manager) : Manager :=
  mkManager (db m) (updateSources m) (updateQueue m) (isProcessing m) (callbacks m)
            l (shifted m) (settled m) (stranded m) (notified m)
            (clock m) (entropy m).
Definition with_shifted (l : list Task.t) (m : Manager) : Manager :=
  mkManager (db m) (updateSources m) (updateQueue m) (isProcessing m) (callbacks m)
            (drains m) l (settled m) (stranded m) (notified m)
            (clock m) (entropy m).
Definition with_settled (l : list Task.t) (m : Manager) : Manager :=
  mkManager (db m) (updateSources m) (updateQueue m) (isProcessing m) (callbacks m)
            (drains m) (shifted m) l (stranded m) (notified m)
            (clock m) (entropy m).
Definition with_stranded (l : list Task.t) (m : Manager) : Manager :=
  mkManager (db m) (updateSources m) (updateQueue m) (isProcessing m) (callbacks m)
            (drains m) (shifted m) (settled m) l (notified m)
            (clock m) (entropy m).
Definition with_notified (l : list Notification) (m : Manager) : Manager :=
  mkManager (db m) (updateSources m) (updateQueue m) (isProcessing m) (callbacks m)
            (drains m) (shifted m) (settled m) (stranded m) l
            (clock m) (entropy m).
Definition with_entropy (n : nat) (m : Manager) : Manager :=
  mkManager (db m) (updateSources m) (updateQueue m) (isProcessing m) (callbacks m)
            (drains m) (shifted m) (settled m) (stranded m) (notified m)
            (clock m) n.
Definition new_Date (m : Manager) : nat * Manager :=
  (clock m,
   mkManager (db m) (updateSources m) (updateQueue m) (isProcessing m) (callbacks m)
             (drains m) (shifted m) (settled m) (stranded m) (notified m)
             (S (clock m)) (entropy m)).

Definition generateUpdateId (m : Manager) : nat * Manager :=
  (entropy m, with_entropy (S (entropy m)) m).

Definition with_rows (rows : list Row.t) (d : Store) : Store :=
  mkStore rows (dim_data_sources d) (fact_pokemon d) (dim_moves d).
Definition with_sources (t : gmap string SourceRow.t) (d : Store) : Store :=
  mkStore (fact_data_updates d) t (fact_pokemon d) (dim_moves d).

(** An identifier no task and no row carries yet. *)
Definition fresh_for (d : Store) : nat :=
  S (foldr Nat.max 0 (Row.pk_update_id <$> fact_data_updates d)).

Definition defaultSources : list Source.t :=
  [ Source.mk "pvpoke-gamemaster" "PvPoke GameMaster" "gamemaster"
      "https://github.com/pvpoke/pvpoke.git" "src/data/gamemaster.json"
      (6 * 60 * 60 * 1000) None None true;
    Source.mk "pvpoke-rankings" "PvPoke Rankings" "rankings"
      "https://github.com/pvpoke/pvpoke.git" "src/data/rankings/"
      (12 * 60 * 60 * 1000) None None true;
    Source.mk "pokemon-resources" "Pokemon Resources" "tiers"
      "https://github.com/mgrann03/pokemon-resources.git" "pogo_pkm_tiers.json"
      (24 * 60 * 60 * 1000) None None true;
    Source.mk "dialgadex-data" "Dialgadex Data" "tiers"
      "https://github.com/mgrann03/dialgadex.git" "scripts/"
      (24 * 60 * 60 * 1000) None None true ].

Definition constructor (database : Store) : Manager :=
  {| db := database;
     updateSources := defaultSources;
     updateQueue := [];
     isProcessing := false;
     callbacks := {[ "onUpdateStart" := []; "onUpdateComplete" := [];
                     "onUpdateError" := []; "onDataChange" := [] ]};
     drains := [];
     shifted := [];
     settled := [];
     stranded := [];
     notified := [];
     clock := 0;
     entropy := fresh_for database |}.

(** ** Listener table: [on] and [triggerCallbacks] *)

(** [if (this.callbacks[event]) this.callbacks[event].push(callback)]: an
    array is truthy even when empty; an inherited member is truthy too but
    has no [push]. *)
Definition on (event : string) (callback : Listener) (m : Manager)
  : Completion Manager :=
  match Get (callbacks m) event with
  | Own l => Normal (with_callbacks (<[event := l ++ [callback]]> (callbacks m)) m)
  | Inherited _ => Throw TypeError_push
  | Undefined => Normal m
  end.

(** The [forEach] body wraps each call in its own [try]/[catch], so every
    listener of the array is called whether or not an earlier one raised.
    Listeners do not call back into the manager. *)
Definition call_all (event : string) (data : Task.t) (l : list Listener)
  : list Notification :=
  (λ cb, mkNotification event (label cb) (Task.id data)) <$> l.

Definition triggerCallbacks (event : string) (data : Task.t) (m : Manager)
  : Completion Manager :=
  match Get (callbacks m) event with
  | Own l => Normal (with_notified (notified m ++ call_all event data l) m)
  | Inherited _ => Throw TypeError_forEach
  | Undefined => Normal m
  end.

(** ** The queue: [push] then [sort] *)

Definition ToNumber (v : JsValue) : option Z :=
  match v with
  | JsNumber n => Some n
  | JsObject _ => None
  end.

(** [(a, b) => b.priority - a.priority]; [None] stands for NaN. *)
Definition compareFn (a b : Task.t) : option Z :=
  match ToNumber (Task.priority b), ToNumber (Task.priority a) with
  | Some y, Some x => Some (y - x)%Z
  | _, _ => None
  end.

(** The sort reads a NaN from the comparator as +0. *)
Definition SortCompare (a b : Task.t) : Z := default 0%Z (compareFn a b).

(** [Array.prototype.sort] is a stable sort: elements the comparator calls
    equal keep their relative order.  Insertion from the right end is one
    such sort; on a comparator that is a consistent order every stable sort
    returns the same array. *)
Fixpoint sort_insert (x : Task.t) (l : list Task.t) : list Task.t :=
  match l with
  | [] => [x]
  | y :: l' =>
      if (SortCompare x y <=? 0)%Z then x :: y :: l' else y :: sort_insert x l'
  end.

Fixpoint Array_sort (l : list Task.t) : list Task.t :=
  match l with
  | [] => []
  | x :: l' => sort_insert x (Array_sort l')
  end.

(** ** Audit rows *)

(** [UPDATE fact_data_updates SET ... WHERE pk_update_id = ?], the
    parameter bound by [run]. *)
Definition update_where (databaseId : option nat) (f : Row.t -> Row.t)
  (rows : list Row.t) : list Row.t :=
  (λ r, if bool_decide (Some (Row.pk_update_id r) = databaseId) then f r else r)
    <$> rows.

(** [(updateTask.endTime - updateTask.startTime) / 1000]; [None] is the NaN
    that a time never assigned gives. *)
Definition duration (u : Task.t) : option Q :=
  match Task.endTime u, Task.startTime u with
  | Some e, Some s => Some ((Z.of_nat e - Z.of_nat s) # 1000)
  | _, _ => None
  end.

(** [INSERT INTO fact_data_updates (...) VALUES (?, ?, ?, ?, 'in_progress')],
    which the CHECK on [update_type] rejects for a kind outside its list;
    the other columns get their defaults. *)
Definition logUpdateStart (u : Task.t) (m : Manager) : Completion nat * Manager :=
  let '(updateId, m) := generateUpdateId m in
  let '(dateId, m) := new_Date m in
  let row := Row.mk updateId (Task.sourceId u) dateId
               (Source.type (Task.source u)) in_progress 0 0 None None JsonNull in
  if update_type_CHECK (Source.type (Task.source u))
  then (Normal updateId, with_db (with_rows (row :: fact_data_updates (db m)) (db m)) m)
  else (Throw (CHECK_failed "fact_data_updates"), m).

(** The address of the commits of the main branch; a template literal
    writes [null] as the word. *)
Definition commits_main (repositoryUrl : string) : string :=
  "https://api.github.com/repos/"
  +:+ default "null" (getRepoPath repositoryUrl) +:+ "/commits/main".

(** [data.sha] of what the address answers, whatever [response.ok] is;
    [None] is [undefined].  A request that is rejected, a body that is not
    JSON and the TypeError of reading a member of [null] are caught and
    become [null]. *)
Definition getCurrentGitHash (w : World) (s : Source.t) : option Json :=
  match fetch w (commits_main (Source.repositoryUrl s)) with
  | FetchOk response =>
      match json response with
      | FetchOk JsonNull => Some JsonNull
      | FetchOk data => member "sha" data
      | FetchError => Some JsonNull
      end
  | FetchError => Some JsonNull
  end.

Definition row_completed (u : Task.t) (currentHash : Json) (r : Row.t)
  : Row.t :=
  Row.mk (Row.pk_update_id r) (Row.fk_source_id r) (Row.fk_date_id r)
         (Row.update_type r) completed
         (default 0 (fst <$> Task.result u)) (default 0 (snd <$> Task.result u))
         (Row.error_message r) (duration u) currentHash.

(** [updateTask.endTime ? (...) / 1000 : 0] for the duration. *)
Definition row_failed (u : Task.t) (text : string) (r : Row.t) : Row.t :=
  Row.mk (Row.pk_update_id r) (Row.fk_source_id r) (Row.fk_date_id r)
         (Row.update_type r) failed (Row.records_added r) (Row.records_modified r)
         (Some text)
         (match Task.endTime u with Some _ => duration u | None => Some 0%Q end)
         (Row.git_commit_hash r).

(** The first statement binds the hash and the key of the row, the second
    the end time and the key of the source.  When a value is refused the
    statement does not run, and the call ends there. *)
Definition logUpdateComplete (w : World) (u : Task.t) (m : Manager)
  : Completion Manager :=
  let currentHash := getCurrentGitHash w (Task.source u) in
  match LocalDatabase.bindValue currentHash, Task.databaseId u with
  | Some hash, Some _ =>
      let rows := update_where (Task.databaseId u) (row_completed u hash)
                    (fact_data_updates (db m)) in
      let sources := alter (SourceRow.updated (Task.endTime u)) (Task.sourceId u)
                       (dim_data_sources (db m)) in
      Normal (with_db (with_sources sources (with_rows rows (db m))) m)
  | _, _ => ThrowString LocalDatabase.Wrong_API_use
  end.

(** The statement binds [error.message] and the key of the row. *)
Definition logUpdateError (u : Task.t) (error : Exception) (m : Manager)
  : Completion Manager :=
  match message_of error, Task.databaseId u with
  | Some text, Some _ =>
      let rows := update_where (Task.databaseId u) (row_failed u text)
                    (fact_data_updates (db m)) in
      Normal (with_db (with_rows rows (db m)) m)
  | _, _ => ThrowString LocalDatabase.Wrong_API_use
  end.

(** [SELECT git_commit_hash FROM fact_data_updates WHERE fk_source_id = ? AND
    update_status = 'completed' ORDER BY created_at DESC LIMIT 1].  The rows
    are kept with the newest insertion first; [created_at] counts whole
    seconds, so this is the order of the statement only up to rows inserted
    within one second. *)
Definition select_git_commit_hash (d : Store) (sourceId : Placeholder string)
  : list Row.t :=
  filter (λ r, sql_equal String.eqb (Row.fk_source_id r) sourceId = true
               ∧ Row.update_status r = completed)
         (fact_data_updates d).

(** [value || null] *)
Definition or_null (value : Json) : Json :=
  if truthy value then value else JsonNull.

(** [result?.git_commit_hash || null] *)
Definition getLastKnownHash (d : Store) (s : Source.t) : Json :=
  match LocalDatabase.get (select_git_commit_hash d) (Source.id s) with
  | Some r => or_null (Row.git_commit_hash r)
  | None => JsonNull
  end.

(** ** The update routines *)

(** [fetch], the test of [response.ok] and [response.json()], all inside one
    [try]: whatever fails there gives [null]. *)
Definition loadJsonFile (w : World) (filePath : string) : Json :=
  match fetch w filePath with
  | FetchOk response =>
      if ok response then
        match json response with
        | FetchOk document => document
        | FetchError => JsonNull
        end
      else JsonNull
  | FetchError => JsonNull
  end.

(** The record writers have empty bodies: they resolve to [undefined] and
    leave the store as it is. *)
Definition updateRankingRecord (ranking : Json) (league scenario : string)
  : option bool := None.
Definition updateTierRecord (tier : Json) : option bool := None.

(** [column = ?] for a number and for a text. *)
Definition same_number (column : Z) (value : option Json) : bool :=
  match value with
  | Some (JsonNumber q) => Qeq_bool q (inject_Z column)
  | _ => false
  end.
Definition same_text (column : string) (value : option Json) : bool :=
  match value with
  | Some (JsonString s) => String.eqb column s
  | _ => false
  end.

(** [SELECT pk_pokemon_id FROM fact_pokemon WHERE pokemon_number = ? AND
    form = ?] and [SELECT pk_move_id FROM dim_moves WHERE move_name = ?]. *)
Definition select_pokemon (d : Store)
  (key : Placeholder (option Json * option Json)) : list (Z * string) :=
  filter (λ row,
            sql_equal (λ column value,
                         same_number column.1 value.1 && same_text column.2 value.2)
                      row key = true)
         (fact_pokemon d).
Definition select_move (d : Store) (key : Placeholder (option Json))
  : list string :=
  filter (λ row, sql_equal same_text row key = true) (dim_moves d).

(** [existingPokemon] and [existingMove], as conditions. *)
Definition existingPokemon (d : Store) (pokemon : Json) : bool :=
  bool_decide (is_Some (LocalDatabase.get (select_pokemon d)
                          (member "dex" pokemon, member "speciesId" pokemon))).
Definition existingMove (d : Store) (move : Json) : bool :=
  bool_decide (is_Some (LocalDatabase.get (select_move d) (member "name" move))).

(** A loop of [updateGameMaster]: [recordsModified++] for an entry the
    lookup finds, [recordsAdded++] otherwise; reading the key of an entry
    that is [null] is a TypeError. *)
Fixpoint upsert (existing : Json -> bool) (key : string) (entries : list Json)
  (counts : nat * nat) : Completion (nat * nat) :=
  match entries with
  | [] => Normal counts
  | JsonNull :: _ => Throw (TypeError_of_null key)
  | entry :: rest =>
      upsert existing key rest
        (if existing entry then (counts.1, S counts.2) else (S counts.1, counts.2))
  end.

(** Counting loop of [updateRankings] and [updateTiers]: reads [result.isNew]
    on what the record writer returned. *)
Fixpoint tally (results : list (option bool)) (counts : nat * nat)
  : Completion (nat * nat) :=
  match results with
  | [] => Normal counts
  | None :: _ => Throw TypeError_isNew
  | Some isNew :: rest =>
      tally rest (if isNew then (S counts.1, counts.2) else (counts.1, S counts.2))
  end.

Definition updateGameMaster (w : World) (d : Store) : Completion (nat * nat) :=
  let gameMasterData := loadJsonFile w "pvpoke/src/data/gamemaster.json" in
  if truthy gameMasterData then
    match iterate (member "pokemon" gameMasterData) with
    | None => Throw (TypeError_iterable "gameMasterData.pokemon")
    | Some pokemon =>
        match upsert (existingPokemon d) "dex" pokemon (0, 0) with
        | Normal counts =>
            match iterate (member "moves" gameMasterData) with
            | None => Throw (TypeError_iterable "gameMasterData.moves")
            | Some moves => upsert (existingMove d) "name" moves counts
            end
        | thrown => thrown
        end
    end
  else Throw "Failed to load GameMaster data".

Definition leagues : list string := ["1500"; "2500"; "10000"].
Definition scenarios : list string :=
  ["leads"; "closers"; "switches"; "chargers"; "attackers"; "overall"].

Definition rankingsPath (league : string) : string :=
  "pvpoke/src/data/rankings/all/overall/rankings-" +:+ league +:+ ".json".

Fixpoint rankings_loop (w : World) (todo : list (string * string))
  (counts : nat * nat) : Completion (nat * nat) :=
  match todo with
  | [] => Normal counts
  | (league, scenario) :: rest =>
      let rankingsData := loadJsonFile w (rankingsPath league) in
      if truthy rankingsData then
        match iterate (Some rankingsData) with
        | None => Throw (TypeError_iterable "rankingsData")
        | Some entries =>
            match tally ((λ r, updateRankingRecord r league scenario) <$> entries)
                    counts with
            | Normal counts' => rankings_loop w rest counts'
            | thrown => thrown
            end
        end
      else rankings_loop w rest counts
  end.

Definition updateRankings (w : World) : Completion (nat * nat) :=
  rankings_loop w (league ← leagues; scenario ← scenarios; [(league, scenario)]) (0, 0).

Definition updateTiers (w : World) : Completion (nat * nat) :=
  let tierData := loadJsonFile w "pokemon-resources/pogo_pkm_tiers.json" in
  if truthy tierData then
    match iterate (Some tierData) with
    | None => Throw (TypeError_iterable "tierData")
    | Some entries => tally (updateTierRecord <$> entries) (0, 0)
    end
  else Normal (0, 0).

(** The [switch] of [processUpdate]. *)
Definition routine (w : World) (d : Store) (u : Task.t) : Completion (nat * nat) :=
  let type := Source.type (Task.source u) in
  if (type =? "gamemaster")%string then updateGameMaster w d
  else if (type =? "rankings")%string then updateRankings w
  else if (type =? "tiers")%string then updateTiers w
  else Throw ("Unknown source type: " +:+ type).

(** ** The processor *)

(** [processUpdate] up to its first suspension on the network: the task is
    marked, the start listeners are called and the audit row is inserted.
    The insertion stands before the [try] of [processUpdate]: when it
    throws, [processUpdate] is rejected with the task as it is then.  The
    returned task is the object as the caller sees it afterwards. *)
Definition processUpdate_enter (updateTask : Task.t) (m : Manager)
  : Completion unit * Task.t * Manager :=
  let '(now, m) := new_Date m in
  let u := Task.start now updateTask in
  match attempt (triggerCallbacks "onUpdateStart" u m) with
  | inr error => (throw error, u, m)
  | inl m1 =>
      let '(inserted, m2) := logUpdateStart u m1 in
      match attempt inserted with
      | inl updateId => (Normal (), Task.with_databaseId updateId u, m2)
      | inr error => (throw error, u, m2)
      end
  end.

(** The [catch] block of [processUpdate].  It ends by rethrowing what it
    caught, unless one of its own statements throws first. *)
Definition processUpdate_catch (error : Exception) (u : Task.t) (m : Manager)
  : Completion unit * Task.t * Manager :=
  let '(now, m) := new_Date m in
  let u := Task.with_endTime now (Task.fail (message_of error) u) in
  match attempt (logUpdateError u error m) with
  | inr thrown => (throw thrown, u, m)
  | inl m1 =>
      match attempt (triggerCallbacks "onUpdateError" u m1) with
      | inl m2 => (throw error, u, m2)
      | inr thrown => (throw thrown, u, m1)
      end
  end.

(** [processUpdate] from the moment the awaited routine settles. *)
Definition processUpdate_resume (w : World) (u : Task.t) (m : Manager)
  : Completion unit * Task.t * Manager :=
  match attempt (routine w (db m) u) with
  | inl r =>
      let '(now, m) := new_Date m in
      let u := Task.complete r now u in
      match attempt (logUpdateComplete w u m) with
      | inl m1 =>
          match attempt (triggerCallbacks "onUpdateComplete" u m1) with
          | inl m2 => (Normal (), u, m2)
          | inr error => processUpdate_catch error u m1
          end
      | inr error => processUpdate_catch error u m
      end
  | inr error => processUpdate_catch error u m
  end.

(** The [catch] block inside the loop of [processUpdateQueue]; nothing
    catches what its own statement throws. *)
Definition loop_catch (error : Exception) (u : Task.t) (m : Manager)
  : Completion Manager * Task.t :=
  let u := Task.fail (message_of error) u in
  (logUpdateError u error m, u).

(** What the loop does once [await this.processUpdate(updateTask)] is over:
    nothing on a normal return, the [catch] block on a throw. *)
Definition loop_after (c : Completion unit) (u : Task.t) (m : Manager)
  : Completion Manager * Task.t :=
  match attempt c with
  | inl _ => (Normal m, u)
  | inr error => loop_catch error u m
  end.

(** The iteration of a task has ended and the loop goes on. *)
Definition settle (u : Task.t) (m : Manager) : Manager :=
  with_settled (settled m ++ [u]) m.

(** The [catch] block of the loop has thrown: [processUpdateQueue] is
    rejected, and [isProcessing] stays as it is. *)
Definition strand (u : Task.t) (m : Manager) : Manager :=
  with_stranded (stranded m ++ [u]) m.

(** [while (this.updateQueue.length > 0)], entered at the test.  The loop
    leaves this function when an iteration suspends on its task, when the
    queue is empty and [isProcessing] is cleared, or when it is rejected. *)
Fixpoint while_queue (queue : list Task.t) (m : Manager) : Manager :=
  match queue with
  | [] => with_isProcessing false m
  | updateTask :: rest =>
      let m := with_updateQueue rest m in
      let '(c, u, m1) := processUpdate_enter updateTask m in
      let m1 := with_shifted (shifted m1 ++ [u]) m1 in
      match attempt c with
      | inl _ => with_drains (drains m1 ++ [u]) m1
      | inr error =>
          match loop_catch error u m1 with
          | (Normal m2, u') => while_queue rest (settle u' m2)
          | (_, u') => strand u' m1
          end
      end
  end.

Definition processUpdateQueue (m : Manager) : Manager :=
  if isProcessing m || bool_decide (updateQueue m = []) then m
  else while_queue (updateQueue m) (with_isProcessing true m).

(** The promise of [processUpdateQueue] is dropped: a rejection of the loop
    reaches no handler. *)
Definition queueUpdate (source : Source.t) (m : Manager) : Manager :=
  let '(taskId, m) := generateUpdateId m in
  let '(now, m) := new_Date m in
  let updateTask :=
    Task.mk taskId (Source.id source) source pending now
            (getUpdatePriority (Source.type source)) None None None None None in
  let m := with_updateQueue (Array_sort (updateQueue m ++ [updateTask])) m in
  if isProcessing m then m else processUpdateQueue m.

(** The loop numbered [i] gets its task's outcome and goes on, or is
    rejected. *)
Definition resume (i : nat) (w : World) (m : Manager) : Manager :=
  match drains m !! i with
  | None => m
  | Some u =>
      let m := with_drains (delete i (drains m)) m in
      let '(c, u1, m1) := processUpdate_resume w u m in
      match loop_after c u1 m1 with
      | (Normal m2, u2) => let m3 := settle u2 m2 in while_queue (updateQueue m3) m3
      | (_, u2) => strand u2 m1
      end
  end.

(** ** Change detection *)

(** [currentHash !== lastHash].  Both helpers catch their own failures, so
    the handler of [detectChanges] has nothing left to catch. *)
Definition detectChanges (w : World) (m : Manager) (source : Source.t) : bool :=
  let currentHash := getCurrentGitHash w source in
  let lastHash := getLastKnownHash (db m) source in
  negb (strictly_equal currentHash (Some lastHash)).

(** ** Events that reach the manager *)

Definition completed_state {A : Type} (c : Completion A) (otherwise : A) : A :=
  match c with
  | Normal a => a
  | _ => otherwise
  end.

Inductive Event : Type :=
| CallQueueUpdate (source : Source.t)
| CallProcessUpdateQueue
| CallOn (event : string) (callback : Listener)
| Settle (i : nat) (w : World).

Definition step (e : Event) (m : Manager) : Manager :=
  match e with
  | CallQueueUpdate source => queueUpdate source m
  | CallProcessUpdateQueue => processUpdateQueue m
  | CallOn event callback => completed_state (on event callback m) m
  | Settle i w => resume i w m
  end.

Definition run (events : list Event) (m : Manager) : Manager :=
  foldl (λ m e, step e m) m events.

(** ** Checking a source *)

(** The timer callback and the check hold the source object itself; here
    they name it by its position in [updateSources].  A task keeps its
    source by value: through it only [name], [type] and [repositoryUrl] are
    read, which no code assigns.

    [checkSourceForUpdates] up to its first suspension stamps the source. *)
Definition checkSourceForUpdates_enter (i : nat) (m : Manager) : Manager :=
  match updateSources m !! i with
  | None => m
  | Some source =>
      let '(now, m) := new_Date m in
      with_updateSources
        (<[i := Source.with_lastCheckTime now source]> (updateSources m)) m
  end.

(** The rest of [checkSourceForUpdates], once the network has answered:
    detection, the enqueue, and
    [UPDATE dim_data_sources SET last_check_timestamp = ? WHERE pk_source_id = ?].
    Its own handler catches whatever these raise, so it completes normally;
    what could raise is [toISOString] of a time that was never set. *)
Definition checkSourceForUpdates_resume (w : World) (i : nat) (m : Manager)
  : Completion unit * Manager :=
  match updateSources m !! i with
  | None => (Normal (), m)
  | Some source =>
      let hasUpdates := detectChanges w m source in
      let m := if hasUpdates then queueUpdate source m else m in
      match Source.lastCheckTime source with
      | Some _ =>
          let sources :=
            alter (SourceRow.checked (Source.lastCheckTime source)) (Source.id source)
              (dim_data_sources (db m)) in
          (Normal (), with_db (with_sources sources (db m)) m)
      | None => (Normal (), m)
      end
  end.

(** ** Timers *)

Record Timer : Type := mkTimer { due : Z; target : nat }.

Record Runtime : Type := mkRuntime {
  manager : Manager;
  now : Z;
  timers : list Timer;
  (** sources whose [checkSource] callback is suspended on its check *)
  checking : list nat }.

Definition with_manager (m : Manager) (r : Runtime) : Runtime :=
  mkRuntime m (now r) (timers r) (checking r).

(** [setTimeout(checkSource, delay)], [checkSource] being the callback of the
    source at [target]. *)
Definition setTimeout (target : nat) (delay : Z) (r : Runtime) : Runtime :=
  mkRuntime (manager r) (now r) (timers r ++ [mkTimer (now r + delay) target])
            (checking r).

Definition scheduleSourceCheck (i : nat) (r : Runtime) : Runtime :=
  setTimeout i 60000 r.

Definition startMonitoring (r : Runtime) : Runtime :=
  foldl (λ r s, if Source.isActive s.2 then scheduleSourceCheck s.1 r else r)
        r (imap pair (updateSources (manager r))).

(** The timer of [checkSource] has fired: the callback runs up to the
    suspension of its check. *)
Definition checkSource_enter (i : nat) (r : Runtime) : Runtime :=
  mkRuntime (checkSourceForUpdates_enter i (manager r)) (now r) (timers r)
            (checking r ++ [i]).

(** The awaited check is over.  Whatever its completion, the [finally]
    block re-arms the timer with the interval the source carries. *)
Definition checkSource_settle (w : World) (i : nat) (r : Runtime) : Runtime :=
  let '(c, m) := checkSourceForUpdates_resume w i (manager r) in
  let r := with_manager m r in
  let r := match c with
           | Normal _ => r
           | _ => r
           end in
  match updateSources m !! i with
  | Some source => setTimeout i (Source.checkInterval source) r
  | None => r
  end.

Inductive TimerEvent : Type :=
| Elapse (dt : Z)
| Fire (k : nat)
| CheckSettles (j : nat) (w : World)
| ManagerEvent (e : Event).

(** One step of the event loop; [None] when the event cannot happen in this
    state: time does not run backwards, and a timer fires no sooner than it
    is due. *)
Definition timer_step (e : TimerEvent) (r : Runtime) : option Runtime :=
  match e with
  | Elapse dt =>
      if bool_decide (0 ≤ dt)%Z
      then Some (mkRuntime (manager r) (now r + dt) (timers r) (checking r))
      else None
  | Fire k =>
      match timers r !! k with
      | Some tm =>
          if bool_decide (due tm ≤ now r)%Z
          then Some (checkSource_enter (target tm)
                       (mkRuntime (manager r) (now r) (delete k (timers r))
                                  (checking r)))
          else None
      | None => None
      end
  | CheckSettles j w =>
      match checking r !! j with
      | Some i =>
          Some (checkSource_settle w i
                  (mkRuntime (manager r) (now r) (timers r)
                             (delete j (checking r))))
      | None => None
      end
  | ManagerEvent e => Some (with_manager (step e (manager r)) r)
  end.

Fixpoint timer_run (events : list TimerEvent) (r : Runtime) : option Runtime :=
  match events with
  | [] => Some r
  | e :: rest =>
      match timer_step e r with
      | Some r' => timer_run rest r'
      | None => None
      end
  end.

(** ** Start-up *)

(** [INSERT OR REPLACE INTO dim_data_sources (...)], once per source, the
    frequency in hours.  The row replaces the one under its key whole, so
    the columns the statement does not name are NULL again.  The CHECK on
    [source_type] is no conflict that REPLACE resolves: the statement throws
    and the loop ends there. *)
Fixpoint initializeDataSources_from (sources : list Source.t) (m : Manager)
  : Completion unit * Manager :=
  match sources with
  | [] => (Normal (), m)
  | source :: rest =>
      if source_type_CHECK (Source.type source) then
        let row := SourceRow.mk (Source.name source) (Source.type source)
                     (Source.repositoryUrl source)
                     (Source.checkInterval source # 3600000)
                     (Source.isActive source) None None in
        initializeDataSources_from rest
          (with_db (with_sources (<[Source.id source := row]> (dim_data_sources (db m)))
                                 (db m)) m)
      else (Throw (CHECK_failed "dim_data_sources"), m)
  end.

Definition initializeDataSources (m : Manager) : Completion unit * Manager :=
  initializeDataSources_from (updateSources m) m.

(** [SELECT COUNT( * ) as count FROM fact_pokemon], a statement without
    parameters, then the enqueue of every active source and the call of
    [processUpdateQueue]. *)
Definition performInitialDataLoad (m : Manager) : Manager :=
  if bool_decide (length (fact_pokemon (db m)) = 0) then
    let m := foldl (λ m source, if Source.isActive source then queueUpdate source m else m)
                   m (updateSources m) in
    processUpdateQueue m
  else m.

(** The state in which the promise of [initialize] settles: rejected as
    soon as [initializeDataSources] throws, resolved after the three
    steps otherwise. *)
Definition initialize (r : Runtime) : Runtime :=
  match initializeDataSources (manager r) with
  | (Normal _, m) =>
      let r := with_manager m r in
      let r := startMonitoring r in
      with_manager (performInitialDataLoad (manager r)) r
  | (_, m) => with_manager m r
  end.

Definition boot (database : Store) : Runtime :=
  mkRuntime (constructor database) 0 [] [].

(** * More of the code *)

(** ** PokemonGoApp.forceDataUpdate *)

Definition forceDataUpdate (isInitialized : bool) (m : Manager)
  : Completion Manager :=
  if isInitialized then
    Normal (foldl (λ m source,
                     if Source.isActive source then queueUpdate source m else m)
                  m (updateSources m))
  else Throw "App not initialized".

(** ** PokeGenieManager.parseCSVLine *)

(** A JavaScript string as the sequence of its UTF-16 code units. *)
Definition CodeUnits : Type := list N.

(** What [trim] removes: white space and line terminators. *)
Definition WhiteSpace : list N :=
  [9; 10; 11; 12; 13; 32; 160; 5760; 8192; 8193; 8194; 8195; 8196; 8197; 8198;
   8199; 8200; 8201; 8202; 8232; 8233; 8239; 8287; 12288; 65279]%N.

Definition is_space (c : N) : bool := bool_decide (c ∈ WhiteSpace).

Fixpoint trimStart (s : CodeUnits) : CodeUnits :=
  match s with
  | [] => []
  | c :: s' => if is_space c then trimStart s' else s
  end.

Definition trim (s : CodeUnits) : CodeUnits :=
  reverse (trimStart (reverse (trimStart s))).

Definition quote : N := 34%N.
Definition comma : N := 44%N.

(** The [for] loop over the code units of the line, and the [push] after
    it. *)
Fixpoint parseCSVLine_from (line : CodeUnits) (values : list CodeUnits)
  (current : CodeUnits) (inQuotes : bool) : list CodeUnits :=
  match line with
  | [] => values ++ [trim current]
  | char :: rest =>
      if bool_decide (char = quote) then
        parseCSVLine_from rest values current (negb inQuotes)
      else if bool_decide (char = comma) && negb inQuotes then
        parseCSVLine_from rest (values ++ [trim current]) [] inQuotes
      else parseCSVLine_from rest values (current ++ [char]) inQuotes
  end.

Definition parseCSVLine (line : CodeUnits) : list CodeUnits :=
  parseCSVLine_from line [] [] false.

(** ** Closed forms used in the proofs *)

(** The notifications on record once the listeners of [event] were called. *)
Definition heard (event : string) (u : Task.t) (m : Manager) : list Notification :=
  match callbacks m !! event with
  | Some l => notified m ++ call_all event u l
  | None => notified m
  end.

Definition announce (event : string) (u : Task.t) (m : Manager) : Manager :=
  with_notified (heard event u m) m.

(** The task and the manager as [processUpdate] leaves them at its first
    suspension, when the audit row could be inserted. *)
Definition entered (u : Task.t) (m : Manager) : Task.t :=
  Task.with_databaseId (entropy m) (Task.start (clock m) u).

Definition after_enter (u : Task.t) (m : Manager) : Manager :=
  (logUpdateStart (Task.start (clock m) u)
     (announce "onUpdateStart" (Task.start (clock m) u) (new_Date m).2)).2.

(** The store after the statements of [logUpdateComplete] and of
    [logUpdateError], when they run. *)
Definition recorded_complete (hash : Json) (u : Task.t) (m : Manager) : Manager :=
  with_db
    (with_sources
       (alter (SourceRow.updated (Task.endTime u)) (Task.sourceId u)
              (dim_data_sources (db m)))
       (with_rows (update_where (Task.databaseId u) (row_completed u hash)
                                (fact_data_updates (db m))) (db m))) m.

Definition recorded_failed (text : string) (u : Task.t) (m : Manager) : Manager :=
  with_db (with_rows (update_where (Task.databaseId u) (row_failed u text)
                                   (fact_data_updates (db m))) (db m)) m.

(** Whether the loop gets through the iteration of [u]: the outcome of the
    task can be written to its audit row. *)
Definition survives (w : World) (d : Store) (u : Task.t) : bool :=
  match routine w d u, Task.databaseId u with
  | Normal _, Some _ =>
      bool_decide (is_Some (LocalDatabase.bindValue
                              (getCurrentGitHash w (Task.source u))))
  | Throw _, Some _ => true
  | _, _ => false
  end.

(** The task and the manager at the end of a loop iteration: before the
    loop tests the queue again, or as the rejected loop leaves them. *)
Definition finished (w : World) (u : Task.t) (m : Manager) : Task.t * Manager :=
  let m0 := (new_Date m).2 in
  match routine w (db m) u with
  | Normal r =>
      let u1 := Task.complete r (clock m) u in
      match LocalDatabase.bindValue (getCurrentGitHash w (Task.source u)),
            Task.databaseId u with
      | Some hash, Some _ =>
          (u1, announce "onUpdateComplete" u1 (recorded_complete hash u1 m0))
      | _, _ =>
          (Task.fail None (Task.with_endTime (S (clock m)) (Task.fail None u1)),
           (new_Date m0).2)
      end
  | Throw e =>
      let u1 := Task.with_endTime (clock m) (Task.fail (Some e) u) in
      match Task.databaseId u with
      | Some _ =>
          (Task.fail (Some e) u1,
           recorded_failed e (Task.fail (Some e) u1)
             (announce "onUpdateError" u1 (recorded_failed e u1 m0)))
      | None => (Task.fail None u1, m0)
      end
  | ThrowString _ =>
      (Task.fail None (Task.with_endTime (clock m) (Task.fail None u)), m0)
  end.

(** The task as the rejected loop leaves it when the audit row could not be
    inserted. *)
Definition refused (u : Task.t) (m : Manager) : Task.t :=
  Task.fail (Some (CHECK_failed "fact_data_updates")) (Task.start (clock m) u).

(** The numeric priority of a task. *)
Definition prio (u : Task.t) : Z := default 0%Z (ToNumber (Task.priority u)).


(** The order the queue is kept in: higher priority first, and among equal
    priorities the task enqueued first. *)
Definition before (a b : Task.t) : Prop :=
  (prio b < prio a)%Z ∨ (prio a = prio b ∧ Task.queuedAt a < Task.queuedAt b).


Definition predefined_events : list string :=
  ["onUpdateStart"; "onUpdateComplete"; "onUpdateError"; "onDataChange"].


(** The part of [queueUpdate] before the test of [isProcessing]. *)
Definition pushed (source : Source.t) (m : Manager) : Manager :=
  let m1 := (new_Date (generateUpdateId m).2).2 in
  with_updateQueue
    (Array_sort
       (updateQueue m1
        ++ [Task.mk (entropy m) (Source.id source) source pending (clock m)
              (getUpdatePriority (Source.type source)) None None None None None]))
    m1.


(** How the audit row of a task is rewritten when its iteration ends: once
    by [logUpdateComplete], or by [logUpdateError] in [processUpdate] and
    again in the loop; not at all when the hash is refused. *)
Definition outcome_row (w : World) (u : Task.t) (m : Manager) (r : Row.t) : Row.t :=
  match routine w (db m) u with
  | Normal c =>
      match LocalDatabase.bindValue (getCurrentGitHash w (Task.source u)) with
      | Some hash => row_completed (Task.complete c (clock m) u) hash r
      | None => r
      end
  | Throw e =>
      let u1 := Task.with_endTime (clock m) (Task.fail (Some e) u) in
      row_failed (Task.fail (Some e) u1) e (row_failed u1 e r)
  | ThrowString _ => r
  end.

(** [r] is the audit row of the task [u], and the only row with its key. *)
Definition audit_row (m : Manager) (u : Task.t) (r : Row.t) : Prop :=
  filter (λ x, Row.pk_update_id x = Row.pk_update_id r) (fact_data_updates (db m))
  = [r]
  ∧ Task.databaseId u = Some (Row.pk_update_id r)
  ∧ Row.update_status r = Task.status u
  ∧ Row.fk_source_id r = Task.sourceId u.

Record Core (m : Manager) : Prop := mkCore {
  core_pending : Forall (λ u, Task.status u = pending) (updateQueue m);
  core_unwritten : Forall (λ u, Task.databaseId u = None) (updateQueue m);
  core_source :
    Forall (λ u, Task.sourceId u = Source.id (Task.source u))
           (updateQueue m ++ drains m);
  core_fresh :
    Forall (λ r, Row.pk_update_id r < entropy m) (fact_data_updates (db m));
  core_rows : Forall (λ u, ∃ r, audit_row m u r) (settled m ++ drains m);
  core_terminal : Forall (λ u, terminal (Task.status u) = true) (settled m);
  core_inflight : Forall (λ u, Task.status u = in_progress) (drains m);
  core_dbids : NoDup (Task.databaseId <$> (settled m ++ drains m));
  core_shifted :
    Task.id <$> shifted m = Task.id <$> (settled m ++ drains m ++ stranded m) }.

(** No loop is active. *)
Definition Idle (m : Manager) : Prop :=
  isProcessing m = false ∧ updateQueue m = [] ∧ drains m = [] ∧ stranded m = [].

(** One loop is active; it awaits the task whose audit row is the newest. *)
Definition Busy (m : Manager) : Prop :=
  isProcessing m = true ∧ stranded m = []
  ∧ ∃ u r rest, drains m = [u] ∧ fact_data_updates (db m) = r :: rest
                ∧ Task.databaseId u = Some (Row.pk_update_id r).

(** The loop was rejected in the iteration of a task, and [isProcessing] is
    left set with no loop to clear it. *)
Definition Stuck (m : Manager) : Prop :=
  isProcessing m = true ∧ drains m = [] ∧ ∃ u, stranded m = [u].

Definition Consistent (m : Manager) : Prop := Core m ∧ (Idle m ∨ Busy m ∨ Stuck m).

(** The message [updateGameMaster] throws when its payload is missing. *)
Definition GameMaster_failure : string := "Failed to load GameMaster data".

(** The sources of the tasks that wait for the loop or are held by it. *)
Definition waiting (m : Manager) : list Source.t :=
  Task.source <$> (drains m ++ updateQueue m).

(** The part of the registry that the scheduler reads: which sources are
    active, and their intervals. *)
Definition config (m : Manager) : list (bool * Z) :=
  (λ s, (Source.isActive s, Source.checkInterval s)) <$> updateSources m.

(** How often the source at [i] is scheduled: pending timers of its
    callback plus callbacks suspended on its check. *)
Definition armed (r : Runtime) (i : nat) : nat :=
  length (filter (λ tm, target tm = i) (timers r))
  + length (filter (λ j, j = i) (checking r)).

(** What holds of the timers at every moment after [startMonitoring] ran at
    time [t0] on the registry [c]. *)
Record Scheduled (c : list (bool * Z)) (t0 : Z) (r : Runtime) : Prop := mkScheduled {
  sch_config : config (manager r) = c;
  sch_armed :
    ∀ i, armed r i = match c !! i with Some (true, _) => 1 | _ => 0 end;
  sch_grace :
    Forall (λ tm, due tm = (t0 + 60000)%Z ∨ (t0 + 60000 ≤ now r)%Z) (timers r);
  sch_checking : checking r ≠ [] → (t0 + 60000 ≤ now r)%Z }.


(** The marker on record for a source: the commit hash in the most recently
    inserted completed row of the audit trail that carries the key of the
    source, NULL when there is none.  These are the rows that the statement
    of [getLastKnownHash] names; the statement itself orders them by
    [created_at], which tells rows of one second apart no further, and
    [LocalDatabase.get] runs it without its parameter. *)
Definition last_completed_marker (d : Store) (sourceId : string) : Json :=
  match select_git_commit_hash d (Bound sourceId) with
  | r :: _ => Row.git_commit_hash r
  | [] => JsonNull
  end.

(** The files the routine of a kind asks for. *)
Definition payloads (type : string) : list string :=
  if (type =? "gamemaster")%string then ["pvpoke/src/data/gamemaster.json"]
  else if (type =? "rankings")%string then rankingsPath <$> leagues
  else if (type =? "tiers")%string then ["pokemon-resources/pogo_pkm_tiers.json"]
  else [].

(** ** Concrete data used by the examples below *)

Definition empty_store : Store := mkStore [] ∅ [] [].

Definition gamemaster_source : Source.t :=
  Source.mk "pvpoke-gamemaster" "PvPoke GameMaster" "gamemaster"
    "https://github.com/pvpoke/pvpoke.git" "src/data/gamemaster.json"
    (6 * 60 * 60 * 1000) None None true.

Definition tiers_source : Source.t :=
  Source.mk "pokemon-resources" "Pokemon Resources" "tiers"
    "https://github.com/mgrann03/pokemon-resources.git" "pogo_pkm_tiers.json"
    (24 * 60 * 60 * 1000) None None true.

(** A source of a kind that the CHECK of the audit trail does not list. *)
Definition events_source : Source.t :=
  Source.mk "pogo-events" "Events" "events"
    "https://github.com/pvpoke/pvpoke.git" "events.json"
    (24 * 60 * 60 * 1000) None None true.

Definition answers (status_ok : bool) (document : Json) : Fetched Response :=
  FetchOk (mkResponse status_ok (FetchOk document)).

Definition to_github_api (url : string) : bool :=
  bool_decide (is_Some (strip_prefix "https://api.github.com/" url)).

Definition commit_abc : Json := JsonObject [("sha", JsonString "abc")].

Definition empty_gamemaster : Json :=
  JsonObject [("pokemon", JsonArray []); ("moves", JsonArray [])].

(** No request is answered. *)
Definition offline : World := mkWorld (λ _, FetchError).

(** Payload files cannot be fetched, the commits endpoint answers. *)
Definition payload_down : World :=
  mkWorld (λ url, if to_github_api url then answers true commit_abc else FetchError).

(** Every request is answered: a commit, an empty game master, empty
    lists. *)
Definition online : World :=
  mkWorld (λ url, if to_github_api url then answers true commit_abc
                  else if (url =? "pvpoke/src/data/gamemaster.json")%string
                       then answers true empty_gamemaster
                       else answers true (JsonArray [])).

(** As [online], but the commits endpoint is out of reach. *)
Definition commits_down : World :=
  mkWorld (λ url, if to_github_api url then FetchError else fetch online url).

(** As [online], but the commits endpoint answers with an error document,
    as it does for a branch that does not exist or a client over its rate
    limit. *)
Definition commits_refused : World :=
  mkWorld (λ url, if to_github_api url
                  then answers false (JsonObject [("message", JsonString "Not Found")])
                  else fetch online url).

(** A store whose audit trail holds one completed update of the game master
    source, at commit [abc]. *)
Definition store_with_marker : Store :=
  mkStore [Row.mk 1 "pvpoke-gamemaster" 0 "gamemaster" completed 0 0 None (Some 1%Q)
             (JsonString "abc")] ∅ [] [].

Definition a_listener : Listener := mkListener 7 false.

(** The statement of [checkSourceForUpdates] that follows the detection:
    the time of the check is written to the row of the source. *)
Definition stamped (source : Source.t) (m : Manager) : Manager :=
  match Source.lastCheckTime source with
  | Some _ =>
      with_db (with_sources
                 (alter (SourceRow.checked (Source.lastCheckTime source))
                        (Source.id source) (dim_data_sources (db m)))
                 (db m)) m
  | None => m
  end.

(** ** Notions used by the further properties *)

(** The callbacks registered under [event]; none when the table has no such
    key. *)
Definition listeners (event : string) (m : Manager) : list Listener :=
  default [] (callbacks m !! event).

(** Everything of a source but [lastCheckTime]. *)
Definition fixed_part (s : Source.t)
  : string * string * string * string * string * Z * option nat * bool :=
  (Source.id s, Source.name s, Source.type s, Source.repositoryUrl s,
   Source.filePath s, Source.checkInterval s, Source.lastUpdateTime s,
   Source.isActive s).

(** The row [initializeDataSources] writes for a source. *)
Definition registry_row (s : Source.t) : SourceRow.t :=
  SourceRow.mk (Source.name s) (Source.type s) (Source.repositoryUrl s)
               (Source.checkInterval s # 3600000) (Source.isActive s) None None.

(** [pattern] occurs in [s]. *)
Fixpoint occurs (pattern s : string) : bool :=
  match strip_prefix pattern s with
  | Some _ => true
  | None =>
      match s with
      | EmptyString => false
      | String _ s' => occurs pattern s'
      end
  end.

(** No slash in [s]. *)
Fixpoint slash_free (s : string) : bool :=
  match s with
  | EmptyString => true
  | String c s' => negb (Ascii.eqb c slash) && slash_free s'
  end.

(** A field as a line of the file can carry it: bare, or between quotes. *)
Definition written (field : bool * CodeUnits) : CodeUnits :=
  if field.1 then [quote] ++ field.2 ++ [quote] else field.2.

(** Fields joined by commas. *)
Fixpoint joined (fields : list CodeUnits) : CodeUnits :=
  match fields with
  | [] => []
  | [f] => f
  | f :: rest => f ++ [comma] ++ joined rest
  end.

(** A field that survives the trip: no quote in it, and no comma unless it
    is written between quotes. *)
Definition writable (field : bool * CodeUnits) : Prop :=
  (quote ∉ field.2) ∧ (field.1 = false → comma ∉ field.2).

(** A payload the loops of [updateRankings] and [updateTiers] get past:
    nothing that [loadJsonFile] returns counts as data, or it is an array
    or a string with nothing in it to iterate over. *)
Definition nothing_to_read (w : World) (path : string) : Prop :=
  truthy (loadJsonFile w path) = false
  ∨ iterate (Some (loadJsonFile w path)) = Some [].

(** The tasks dequeued so far and the ones in the queue are all different,
    their identifiers have been handed out, and a task of the queue has no
    audit row yet. *)
Record Distinct (m : Manager) : Prop := mkDistinct {
  dis_unwritten : Forall (λ u, Task.databaseId u = None) (updateQueue m);
  dis_nodup : NoDup (Task.id <$> (shifted m ++ updateQueue m));
  dis_issued : Forall (λ u, Task.id u < entropy m) (shifted m ++ updateQueue m) }.

(** The row of [dim_data_sources] that describes the source [s], its
    frequency in hours, with no check and no update on record. *)
Definition registered (s : Source.t) (row : SourceRow.t) : Prop :=
  SourceRow.source_name row = Source.name s
  ∧ SourceRow.source_type row = Source.type s
  ∧ SourceRow.repository_url row = Source.repositoryUrl s
  ∧ SourceRow.update_frequency row = (Source.checkInterval s # 3600000)
  ∧ SourceRow.is_active row = Source.isActive s
  ∧ SourceRow.last_check_timestamp row = None
  ∧ SourceRow.last_update_timestamp row = None.

(** The table of the sources after the INSERT OR REPLACE of each of the
    sources in turn. *)
Definition replaced (sources : list Source.t) (table : gmap string SourceRow.t)
  : gmap string SourceRow.t :=
  foldl (λ t source, <[Source.id source := registry_row source]> t) table sources.

(** * Properties *)

(** Closed decidable facts are settled by evaluation. *)
Ltac by_evaluation := apply (bool_decide_unpack _); vm_compute; exact I.

(** ** The priority table *)

Lemma Get_not_inherited {V : Type} (o : gmap string V) (key : string) :
  key ∉ Object_prototype →
  Get o key = match o !! key with Some v => Own v | None => Undefined end.
Proof.
  intros Hk. unfold Get. destruct (o !! key); [done|].
  by rewrite bool_decide_eq_false_2.
Qed.

(** C8, as the code has it: the table has a fourth entry, [moves], and the
    default applies to every kind that is neither in the table nor the name
    of a member inherited from [Object.prototype]. *)
Theorem getUpdatePriority_table (kind : string) :
  kind ∉ Object_prototype →
  getUpdatePriority kind =
    JsNumber (if decide (kind = "gamemaster") then 10
              else if decide (kind = "rankings") then 8
              else if decide (kind = "tiers") then 6
              else if decide (kind = "moves") then 4
              else 1).
Proof.
  intros Hk. unfold getUpdatePriority. rewrite Get_not_inherited by done.
  unfold priorities.
  repeat (case_decide; [subst kind; by vm_compute|]).
  by rewrite !lookup_insert_ne, lookup_singleton_ne.
Qed.

Lemma getUpdatePriority_table_witness :
  getUpdatePriority "gamemaster" = JsNumber 10
  ∧ getUpdatePriority "rankings" = JsNumber 8
  ∧ getUpdatePriority "tiers" = JsNumber 6
  ∧ getUpdatePriority "moves" = JsNumber 4
  ∧ getUpdatePriority "pokemon" = JsNumber 1.
Proof.
  refine (conj _ (conj _ (conj _ (conj _ _)))).
  - apply (getUpdatePriority_table "gamemaster"). by_evaluation.
  - apply (getUpdatePriority_table "rankings"). by_evaluation.
  - apply (getUpdatePriority_table "tiers"). by_evaluation.
  - apply (getUpdatePriority_table "moves"). by_evaluation.
  - apply (getUpdatePriority_table "pokemon"). by_evaluation.
Defined.

(** C8 as stated fails: [moves] is none of the three named kinds and does
    not get the default. *)
Lemma getUpdatePriority_moves_not_default :
  ("moves" ∉ ["gamemaster"; "rankings"; "tiers"])
  ∧ getUpdatePriority "moves" = JsNumber 4
  ∧ getUpdatePriority "moves" ≠ JsNumber 1.
Proof.
  split; [by_evaluation|]. split; [by vm_compute|].
  by vm_compute.
Qed.

(** ** The listener table *)

Lemma triggerCallbacks_lifecycle (event : string) (u : Task.t) (m : Manager) :
  event ∉ Object_prototype →
  triggerCallbacks event u m = Normal (announce event u m).
Proof.
  intros Hev. unfold triggerCallbacks, announce, heard.
  rewrite Get_not_inherited by done.
  destruct (callbacks m !! event); [done|]. by destruct m.
Qed.

(** C10 at the event name [constructor], which is outside the predefined
    set: registering a listener raises, and so does triggering. *)
Theorem on_inherited_name_raises (database : Store) (u : Task.t) :
  ("constructor" ∉ predefined_events)
  ∧ on "constructor" a_listener (constructor database) = Throw TypeError_push
  ∧ triggerCallbacks "constructor" u (constructor database)
    = Throw TypeError_forEach.
Proof. split; [by_evaluation|]. split; by vm_compute. Qed.

(** For every other unknown name the two calls do nothing, as C10 says. *)
Lemma on_unknown_event (event : string) (callback : Listener) (u : Task.t)
  (m : Manager) :
  callbacks m !! event = None → event ∉ Object_prototype →
  on event callback m = Normal m ∧ triggerCallbacks event u m = Normal m.
Proof.
  intros Hnone Hev. unfold on, triggerCallbacks.
  rewrite Get_not_inherited by done. by rewrite Hnone.
Qed.

(** ** Change detection *)

(** [LocalDatabase.get] runs the statement without its parameter, so the
    comparison with the key of the source holds of no row. *)
Lemma getLastKnownHash_null (d : Store) (s : Source.t) :
  getLastKnownHash d s = JsonNull.
Proof.
  unfold getLastKnownHash, LocalDatabase.get, LocalDatabase.all,
    select_git_commit_hash.
  assert (filter (λ r, sql_equal String.eqb (Row.fk_source_id r) Unbound = true
                       ∧ Row.update_status r = completed) (fact_data_updates d)
          = []) as ->; [|done].
  induction (fact_data_updates d) as [|r rows IH]; [done|].
  rewrite filter_cons_False; [done|]. by intros [? _].
Qed.




(** ** Closed forms of the processor's steps *)

Lemma lifecycle_events_not_inherited :
  ("onUpdateStart" ∉ Object_prototype)
  ∧ ("onUpdateComplete" ∉ Object_prototype)
  ∧ ("onUpdateError" ∉ Object_prototype).
Proof. repeat split; by_evaluation. Qed.

Lemma processUpdate_enter_eq (u : Task.t) (m : Manager) :
  processUpdate_enter u m
  = if update_type_CHECK (Source.type (Task.source u))
    then (Normal (), entered u m, after_enter u m)
    else (Throw (CHECK_failed "fact_data_updates"), Task.start (clock m) u,
          after_enter u m).
Proof.
  unfold processUpdate_enter, after_enter, entered. cbn [new_Date fst snd].
  rewrite triggerCallbacks_lifecycle by apply lifecycle_events_not_inherited.
  cbn [attempt]. unfold logUpdateStart.
  cbn [generateUpdateId new_Date fst snd Task.source Task.start].
  by destruct (update_type_CHECK _).
Qed.

(** An iteration of the loop, for a task that carries no key of an audit
    row yet: the loop suspends on the task, or it is rejected. *)
Lemma while_queue_cons (u : Task.t) (rest : list Task.t) (m : Manager) :
  Task.databaseId u = None →
  while_queue (u :: rest) m
  = let m1 := after_enter u (with_updateQueue rest m) in
    if update_type_CHECK (Source.type (Task.source u))
    then with_drains (drains m1 ++ [entered u m])
           (with_shifted (shifted m1 ++ [entered u m]) m1)
    else strand (refused u m)
           (with_shifted (shifted m1 ++ [Task.start (clock m) u]) m1).
Proof.
  intros Hdb. cbn [while_queue]. rewrite processUpdate_enter_eq.
  destruct (update_type_CHECK _); [done|].
  cbn [attempt]. unfold loop_catch, logUpdateError.
  cbn [message_of Task.databaseId Task.fail Task.start]. by rewrite Hdb.
Qed.

Lemma routine_no_string (w : World) (d : Store) (u : Task.t) (text : string) :
  routine w d u ≠ ThrowString text.
Proof.
  assert (∀ existing key entries counts,
            upsert existing key entries counts ≠ ThrowString text) as Hupsert.
  { intros existing key entries. induction entries as [|e entries IH]; intros counts;
      [done|]. cbn [upsert]. destruct e; try apply IH. done. }
  assert (∀ results counts, tally results counts ≠ ThrowString text) as Htally.
  { intros results. induction results as [|[b|] results IH]; intros counts;
      cbn [tally]; [done|apply IH|done]. }
  assert (∀ todo counts, rankings_loop w todo counts ≠ ThrowString text) as Hloop.
  { intros todo. induction todo as [|[league scenario] todo IH]; intros counts;
      cbn [rankings_loop]; [done|].
    destruct (truthy _); [|apply IH].
    destruct (iterate _) as [entries|]; [|done].
    destruct (tally _ counts) eqn:Ht; [apply IH|done|].
    intros [= <-]. by apply Htally in Ht. }
  unfold routine. repeat case_match; try done.
  - unfold updateGameMaster. destruct (truthy _); [|done].
    destruct (iterate _) as [pokemon|]; [|done].
    destruct (upsert _ "dex" pokemon (0, 0)) eqn:Hp.
    + destruct (iterate _) as [moves|]; [apply Hupsert|done].
    + done.
    + intros [= <-]. by apply Hupsert in Hp.
  - apply Hloop.
  - unfold updateTiers. destruct (truthy _); [|done].
    destruct (iterate _); [apply Htally|done].
Qed.

Lemma processUpdate_resume_eq (w : World) (u : Task.t) (m : Manager) :
  (let '(c, u1, m1) := processUpdate_resume w u m in
   match loop_after c u1 m1 with
   | (Normal m2, u2) => (true, (u2, m2))
   | (_, u2) => (false, (u2, m1))
   end)
  = (survives w (db m) u, finished w u m).
Proof.
  unfold processUpdate_resume, finished, survives.
  destruct (routine w (db m) u) as [r|e|text] eqn:Hroutine; cbn [attempt].
  - cbn [new_Date fst snd]. unfold logUpdateComplete.
    cbn [Task.source Task.complete Task.databaseId].
    destruct (LocalDatabase.bindValue _) as [hash|];
      destruct (Task.databaseId u) as [k|] eqn:Hdb; cbn [attempt];
      try (rewrite bool_decide_eq_true_2 by done);
      try (rewrite bool_decide_eq_false_2 by (by intros [? ?]));
      try (unfold processUpdate_catch, loop_after, loop_catch, logUpdateError;
           cbn [new_Date fst snd message_of attempt throw]; by rewrite ?Hdb).
    rewrite triggerCallbacks_lifecycle by apply lifecycle_events_not_inherited.
    cbn [attempt loop_after]. unfold recorded_complete.
    cbn [Task.databaseId Task.complete Task.endTime Task.sourceId]. by rewrite Hdb.
  - unfold processUpdate_catch, logUpdateError. cbn [new_Date fst snd message_of].
    cbn [Task.databaseId Task.fail Task.with_endTime].
    destruct (Task.databaseId u) as [k|] eqn:Hdb; cbn [attempt throw].
    + rewrite triggerCallbacks_lifecycle by apply lifecycle_events_not_inherited.
      cbn [attempt throw loop_after loop_catch message_of]. unfold logUpdateError.
      cbn [message_of Task.databaseId Task.fail Task.with_endTime]. rewrite Hdb.
      unfold recorded_failed. cbn [Task.databaseId Task.fail Task.with_endTime].
      by rewrite Hdb.
    + unfold loop_after, loop_catch, logUpdateError. by cbn.
  - unfold processUpdate_catch, logUpdateError. cbn [new_Date fst snd message_of].
    by cbn.
Qed.

Lemma resume_eq (i : nat) (w : World) (m : Manager) (u : Task.t) :
  drains m !! i = Some u →
  resume i w m
  = let f := finished w u (with_drains (delete i (drains m)) m) in
    if survives w (db m) u
    then while_queue (updateQueue f.2) (settle f.1 f.2)
    else strand f.1 f.2.
Proof.
  intros Hu. unfold resume. rewrite Hu.
  pose proof (processUpdate_resume_eq w u (with_drains (delete i (drains m)) m)) as H.
  destruct (processUpdate_resume w u _) as [[c u1] m1].
  cbn [with_drains db] in H.
  destruct (loop_after c u1 m1) as [[m2| |] u2]; injection H as <- <-; done.
Qed.

Lemma resume_idle (i : nat) (w : World) (m : Manager) :
  drains m !! i = None → resume i w m = m.
Proof. intros Hu. unfold resume. by rewrite Hu. Qed.

(** ** The sort *)

Lemma sort_insert_Permutation (x : Task.t) (l : list Task.t) :
  sort_insert x l ≡ₚ x :: l.
Proof.
  induction l as [|y l IH]; cbn [sort_insert]; [done|].
  case_match; [done|]. rewrite IH. apply Permutation_swap.
Qed.

Lemma Array_sort_Permutation (l : list Task.t) : Array_sort l ≡ₚ l.
Proof.
  induction l as [|x l IH]; cbn [Array_sort]; [done|].
  by rewrite sort_insert_Permutation, IH.
Qed.




Lemma before_asymmetric (a b : Task.t) : before a b → before b a → False.
Proof. unfold before. intros [?|[? ?]] [?|[? ?]]; lia. Qed.

(** A queue has one arrangement in this order: whatever stable sort the
    engine runs, it returns the array that [Array_sort] returns. *)
Lemma sorted_queue_unique (l1 l2 : list Task.t) :
  StronglySorted before l1 → StronglySorted before l2 → l1 ≡ₚ l2 → l1 = l2.
Proof.
  apply StronglySorted_unique_strong.
  intros a b _ _ Hab Hba. destruct (before_asymmetric a b Hab Hba).
Qed.


(** ** Order of the queue and of the dequeues *)



Lemma queueUpdate_eq (source : Source.t) (m : Manager) :
  queueUpdate source m
  = if isProcessing m then pushed source m else processUpdateQueue (pushed source m).
Proof. reflexivity. Qed.



Lemma finished_frame (w : World) (u : Task.t) (m : Manager) :
  let f := finished w u m in
  updateQueue f.2 = updateQueue m ∧ shifted f.2 = shifted m
  ∧ settled f.2 = settled m ∧ drains f.2 = drains m
  ∧ isProcessing f.2 = isProcessing m ∧ callbacks f.2 = callbacks m
  ∧ updateSources f.2 = updateSources m ∧ entropy f.2 = entropy m
  ∧ stranded f.2 = stranded m ∧ clock m < clock f.2.
Proof.
  unfold finished.
  destruct (routine w (db m) u); [destruct (LocalDatabase.bindValue _)|..];
    destruct (Task.databaseId u); cbn; repeat split; lia.
Qed.




Lemma run_snoc (events : list Event) (e : Event) (m : Manager) :
  run (events ++ [e]) m = step e (run events m).
Proof. unfold run. by rewrite foldl_app. Qed.





(** ** Audit rows under the statements of the processor *)

Lemma update_where_pk (k : option nat) (f : Row.t → Row.t) (rows : list Row.t) :
  (∀ r, Row.pk_update_id (f r) = Row.pk_update_id r) →
  Row.pk_update_id <$> update_where k f rows = Row.pk_update_id <$> rows.
Proof.
  intros Hf. unfold update_where. rewrite <- list_fmap_compose.
  apply list_fmap_ext. intros i r _. cbn. by case_bool_decide.
Qed.

Lemma update_where_compose (k : option nat) (f g : Row.t → Row.t)
  (rows : list Row.t) :
  (∀ r, Row.pk_update_id (f r) = Row.pk_update_id r) →
  update_where k g (update_where k f rows) = update_where k (g ∘ f) rows.
Proof.
  intros Hf. unfold update_where. rewrite <- list_fmap_compose.
  apply list_fmap_ext. intros i r _. cbn.
  destruct (decide (Some (Row.pk_update_id r) = k)) as [Hk|Hk].
  - rewrite (bool_decide_eq_true_2 _ Hk).
    by rewrite bool_decide_eq_true_2 by by rewrite Hf.
  - rewrite (bool_decide_eq_false_2 _ Hk).
    by rewrite bool_decide_eq_false_2.
Qed.

Lemma update_where_other (k : nat) (f : Row.t → Row.t) (rows : list Row.t) :
  k ∉ Row.pk_update_id <$> rows → update_where (Some k) f rows = rows.
Proof.
  intros Hk. unfold update_where.
  rewrite <- (list_fmap_id rows) at 2. apply list_fmap_ext.
  intros i r Hr. cbn. case_bool_decide as Heq; [|done].
  exfalso. apply Hk. apply list_elem_of_fmap. exists r.
  split; [congruence|]. by eapply list_elem_of_lookup_2.
Qed.

Lemma filter_no_row (rows : list Row.t) (k : nat) :
  k ∉ Row.pk_update_id <$> rows →
  filter (λ r', Row.pk_update_id r' = k) rows = [].
Proof.
  induction rows as [|a rows IH]; intros Hk; [done|].
  cbn in Hk. apply not_elem_of_cons in Hk as [Hne Hk].
  rewrite filter_cons_False by done. by apply IH.
Qed.

Lemma filter_singleton_head (r : Row.t) (rest : list Row.t) :
  filter (λ x, Row.pk_update_id x = Row.pk_update_id r) (r :: rest) = [r] →
  Row.pk_update_id r ∉ Row.pk_update_id <$> rest.
Proof.
  rewrite filter_cons_True by done. intros [= Hnil].
  intros (x & Heq & Hx)%list_elem_of_fmap.
  by eapply (filter_nil_not_elem_of _ _ x Hnil).
Qed.

Lemma update_where_head (f : Row.t → Row.t) (r : Row.t) (rest : list Row.t) :
  filter (λ x, Row.pk_update_id x = Row.pk_update_id r) (r :: rest) = [r] →
  update_where (Some (Row.pk_update_id r)) f (r :: rest) = f r :: rest.
Proof.
  intros Hr%filter_singleton_head. unfold update_where at 1. cbn [fmap list_fmap].
  rewrite bool_decide_eq_true_2 by done. f_equal.
  by apply update_where_other.
Qed.

Lemma filter_update_where_ne (k k0 : nat) (g : Row.t → Row.t) (rows : list Row.t) :
  k ≠ k0 → (∀ r, Row.pk_update_id (g r) = Row.pk_update_id r) →
  filter (λ x, Row.pk_update_id x = k) (update_where (Some k0) g rows)
  = filter (λ x, Row.pk_update_id x = k) rows.
Proof.
  intros Hne Hg. induction rows as [|a rows IH]; [done|].
  unfold update_where in *. cbn [fmap list_fmap]. rewrite !filter_cons, IH.
  case_bool_decide as Ha; [|done].
  rewrite Hg. injection Ha as Ha. by rewrite !decide_False by congruence.
Qed.

Lemma filter_update_where_eq (k : nat) (g : Row.t → Row.t) (rows : list Row.t) :
  (∀ r, Row.pk_update_id (g r) = Row.pk_update_id r) →
  filter (λ x, Row.pk_update_id x = k) (update_where (Some k) g rows)
  = g <$> filter (λ x, Row.pk_update_id x = k) rows.
Proof.
  intros Hg. induction rows as [|a rows IH]; [done|].
  unfold update_where in *. cbn [fmap list_fmap]. rewrite !filter_cons, IH.
  case_bool_decide as Ha.
  - rewrite Hg. injection Ha as Ha. by rewrite !decide_True.
  - rewrite !decide_False by congruence. done.
Qed.

Lemma update_where_None (f : Row.t → Row.t) (rows : list Row.t) :
  update_where None f rows = rows.
Proof.
  unfold update_where. rewrite <- (list_fmap_id rows) at 2.
  apply list_fmap_ext. intros i r _. by rewrite bool_decide_eq_false_2.
Qed.

Lemma update_where_same (k : option nat) (rows : list Row.t) :
  update_where k (λ r, r) rows = rows.
Proof.
  unfold update_where. rewrite <- (list_fmap_id rows) at 2.
  apply list_fmap_ext. intros i r _. cbn. by case_bool_decide.
Qed.

Lemma outcome_row_keys (w : World) (u : Task.t) (m : Manager) (r : Row.t) :
  Row.pk_update_id (outcome_row w u m r) = Row.pk_update_id r
  ∧ Row.fk_source_id (outcome_row w u m r) = Row.fk_source_id r
  ∧ Row.update_type (outcome_row w u m r) = Row.update_type r.
Proof.
  unfold outcome_row.
  by destruct (routine w (db m) u); [destruct (LocalDatabase.bindValue _)|..].
Qed.

Lemma outcome_row_status (w : World) (u : Task.t) (m : Manager) (r : Row.t) :
  survives w (db m) u = true →
  Row.update_status (outcome_row w u m r) = Task.status (finished w u m).1.
Proof.
  unfold outcome_row, finished, survives.
  destruct (routine w (db m) u); [destruct (LocalDatabase.bindValue _)|..];
    by destruct (Task.databaseId u).
Qed.

Lemma finished_rows (w : World) (u : Task.t) (m : Manager) :
  fact_data_updates (db (finished w u m).2)
  = update_where (Task.databaseId u) (outcome_row w u m) (fact_data_updates (db m)).
Proof.
  unfold finished, outcome_row.
  destruct (routine w (db m) u) as [c|e|text];
    [destruct (LocalDatabase.bindValue _)|..];
    destruct (Task.databaseId u) as [k|] eqn:Hdb;
    rewrite ?update_where_None, ?update_where_same; try done.
  - unfold recorded_complete, announce. cbn. by rewrite Hdb.
  - unfold recorded_failed, announce, new_Date.
    cbn [snd db with_db with_notified fact_data_updates with_rows
         Task.databaseId Task.fail Task.with_endTime].
    rewrite Hdb. by rewrite update_where_compose.
Qed.

Lemma finished_task (w : World) (u : Task.t) (m : Manager) :
  let u' := (finished w u m).1 in
  Task.id u' = Task.id u ∧ Task.databaseId u' = Task.databaseId u
  ∧ Task.sourceId u' = Task.sourceId u ∧ Task.source u' = Task.source u
  ∧ terminal (Task.status u') = true.
Proof.
  unfold finished.
  destruct (routine w (db m) u); [destruct (LocalDatabase.bindValue _)|..];
    destruct (Task.databaseId u) eqn:Hdb; cbn; by rewrite ?Hdb.
Qed.

(** ** The processor keeps queue, loops and audit rows consistent *)

Lemma audit_row_ext (m m' : Manager) (u : Task.t) (r : Row.t) :
  fact_data_updates (db m') = fact_data_updates (db m) →
  audit_row m u r → audit_row m' u r.
Proof. unfold audit_row. by intros ->. Qed.

Lemma audit_row_fresh (m : Manager) (u : Task.t) (r : Row.t) :
  Forall (λ r, Row.pk_update_id r < entropy m) (fact_data_updates (db m)) →
  audit_row m u r → Row.pk_update_id r < entropy m.
Proof.
  intros Hfresh [Hr _].
  assert (r ∈ fact_data_updates (db m)) as Hin.
  { eapply (proj1 (list_elem_of_filter _ _ _)). rewrite Hr. by left. }
  by eapply Forall_forall in Hfresh.
Qed.

Lemma Core_ext (m m' : Manager) :
  db m' = db m → updateQueue m' = updateQueue m → drains m' = drains m →
  settled m' = settled m → shifted m' = shifted m → stranded m' = stranded m →
  entropy m ≤ entropy m' →
  Core m → Core m'.
Proof.
  intros Hdb Hq Hd Hs Hsh Hst He [H1 H0 H2 H4 H5 H6 H7 H8 H9].
  split; rewrite ?Hdb, ?Hq, ?Hd, ?Hs, ?Hsh, ?Hst; try done.
  - eapply Forall_impl; [exact H4|]. intros r ?. cbn in *. lia.
  - eapply Forall_impl; [exact H5|]. intros u [r Hr]. exists r.
    eapply audit_row_ext; [|exact Hr]. by rewrite Hdb.
Qed.

Lemma Core_constructor (database : Store) : Core (constructor database).
Proof.
  split; cbn; try by constructor.
  unfold fresh_for.
  induction (fact_data_updates database) as [|r rows IH]; [constructor|].
  cbn. constructor; [lia|]. eapply Forall_impl; [exact IH|].
  intros x ?. cbn in *. lia.
Qed.

Lemma Core_pushed (source : Source.t) (m : Manager) :
  Core m → Core (pushed source m).
Proof.
  intros [H1 H0 H2 H4 H5 H6 H7 H8 H9].
  split; cbn [pushed updateQueue shifted settled drains stranded db entropy
              with_updateQueue new_Date generateUpdateId with_entropy snd fst];
    try done.
  - by rewrite Array_sort_Permutation, Forall_app, Forall_singleton.
  - by rewrite Array_sort_Permutation, Forall_app, Forall_singleton.
  - apply Forall_app in H2 as [H2q H2d].
    rewrite Array_sort_Permutation, !Forall_app, Forall_singleton. by repeat split.
  - eapply Forall_impl; [exact H4|]. intros r ?. cbn in *. lia.
Qed.

(** The loop at its test, no iteration pending. *)
Lemma Core_while_queue (m : Manager) :
  Core m → drains m = [] → stranded m = [] →
  let m' := while_queue (updateQueue m) m in
  Core m'
  ∧ match updateQueue m with
    | [] =>
        isProcessing m' = false ∧ updateQueue m' = [] ∧ drains m' = []
        ∧ stranded m' = []
    | next :: rest =>
        isProcessing m' = isProcessing m ∧ updateQueue m' = rest
        ∧ settled m' = settled m
        ∧ if update_type_CHECK (Source.type (Task.source next))
          then stranded m' = []
               ∧ ∃ u r, drains m' = [u] ∧ Task.id u = Task.id next
                        ∧ Task.status u = in_progress
                        ∧ fact_data_updates (db m') = r :: fact_data_updates (db m)
                        ∧ Row.update_status r = in_progress
                        ∧ Task.databaseId u = Some (Row.pk_update_id r)
          else drains m' = [] ∧ stranded m' = [refused next m]
               ∧ fact_data_updates (db m') = fact_data_updates (db m)
    end.
Proof.
  intros HC Hd Hst. destruct (updateQueue m) as [|next rest] eqn:Hq; cbn zeta.
  { cbn. split; [|done]. by eapply Core_ext; [..|exact HC]. }
  destruct HC as [H1 H0 H2 H4 H5 H6 H7 H8 H9]. rewrite Hq, Hd, Hst, ?app_nil_r in *.
  apply Forall_cons in H0 as [Hdb H0].
  rewrite while_queue_cons by exact Hdb. cbn zeta.
  apply Forall_cons in H1 as [Hn H1]. apply Forall_cons in H2 as [Hsn H2].
  unfold after_enter, logUpdateStart.
  cbn [Task.source Task.start generateUpdateId new_Date fst snd].
  destruct (update_type_CHECK (Source.type (Task.source next))).
  - split; [split|]; cbn -[filter].
    + done.
    + done.
    + rewrite Hd. cbn. rewrite Forall_app, Forall_singleton. split; [done|exact Hsn].
    + constructor; [cbn; lia|]. eapply Forall_impl; [exact H4|].
      intros r ?. cbn in *. lia.
    + rewrite Hd. cbn. rewrite Forall_app, Forall_singleton. split.
      * eapply Forall_impl; [exact H5|]. intros u [r Hr]. exists r.
        pose proof (audit_row_fresh _ _ _ H4 Hr) as Hlt.
        destruct Hr as (Hr & Hrest). split; [|done]. cbn -[filter].
        rewrite filter_cons_False; [done|]. cbn. lia.
      * exists (Row.mk (entropy m) (Task.sourceId next) (S (clock m))
                  (Source.type (Task.source next)) in_progress 0 0 None None JsonNull).
        split; [|done]. cbn -[filter]. rewrite filter_cons_True by done.
        f_equal. apply filter_no_row.
        intros (x & Heq & Hx)%list_elem_of_fmap.
        eapply Forall_forall in H4; [|exact Hx]. cbn in H4. lia.
    + done.
    + rewrite Hd. by repeat constructor.
    + rewrite Hd. cbn. rewrite fmap_app. apply NoDup_app. split; [done|]. split.
      * intros k Hk ->%list_elem_of_singleton.
        apply list_elem_of_fmap in Hk as (u & Hk & Hu).
        eapply Forall_forall in H5 as [r Hr]; [|exact Hu].
        pose proof (audit_row_fresh _ _ _ H4 Hr) as Hlt.
        destruct Hr as (_ & Hdb' & _). cbn in Hk. rewrite Hdb' in Hk.
        injection Hk as Hk. lia.
      * apply NoDup_singleton.
    + rewrite Hd, Hst. cbn. by rewrite !fmap_app, H9.
    + rewrite Hd, Hst. cbn. repeat split; try done. by eexists _, _.
  - split; [split|]; cbn -[filter].
    + done.
    + done.
    + rewrite Hd. by rewrite app_nil_r.
    + eapply Forall_impl; [exact H4|]. intros r ?. cbn in *. lia.
    + rewrite Hd, app_nil_r. eapply Forall_impl; [exact H5|]. by intros u [r Hr]; exists r.
    + done.
    + rewrite Hd. constructor.
    + by rewrite Hd, app_nil_r.
    + rewrite Hd, Hst. cbn. by rewrite !fmap_app, H9.
    + rewrite Hd, Hst. by cbn.
Qed.

Lemma audit_row_head (m : Manager) (u : Task.t) (r r' : Row.t) (rest : list Row.t) :
  fact_data_updates (db m) = r :: rest →
  Task.databaseId u = Some (Row.pk_update_id r) →
  audit_row m u r' → r' = r.
Proof.
  intros Hrows Hdb (Hf & Hdb' & _). rewrite Hdb in Hdb'. injection Hdb' as Hpk.
  rewrite Hrows, <- Hpk, filter_cons_True in Hf by done. by injection Hf.
Qed.

Lemma Forall_update_where (P : Row.t → Prop) (k : option nat) (f : Row.t → Row.t)
  (rows : list Row.t) :
  (∀ r, P r → P (f r)) → Forall P rows → Forall P (update_where k f rows).
Proof.
  intros Hf Hrows. unfold update_where. apply Forall_fmap.
  eapply Forall_impl; [exact Hrows|]. intros r Hr. cbn.
  case_bool_decide; auto.
Qed.

(** The end of a loop iteration that the loop gets through. *)
Lemma Core_finished (w : World) (m : Manager) (u : Task.t) (r : Row.t)
  (rest : list Row.t) :
  Core m → drains m = [u] → stranded m = [] →
  fact_data_updates (db m) = r :: rest →
  Task.databaseId u = Some (Row.pk_update_id r) →
  survives w (db m) u = true →
  let f := finished w u (with_drains [] m) in
  let m' := settle f.1 f.2 in
  Core m' ∧ drains m' = [] ∧ stranded m' = [] ∧ updateQueue m' = updateQueue m
  ∧ isProcessing m' = isProcessing m ∧ settled m' = settled m ++ [f.1]
  ∧ fact_data_updates (db m') = outcome_row w u m r :: rest.
Proof.
  intros [H1 H0 H2 H4 H5 H6 H7 H8 H9] Hd Hst Hrows Hdb Hsur f m'.
  destruct (finished_frame w u (with_drains [] m))
    as (Fq & Fsh & Fs & Fd & Fp & _ & _ & Fe & Fst & _).
  destruct (finished_task w u (with_drains [] m)) as (Tid & Tdb & Tsid & Tsrc & Tterm).
  pose proof (outcome_row_keys w u (with_drains [] m)) as Hkeys.
  pose proof (λ x, outcome_row_status w u (with_drains [] m) x Hsur) as Hstatus.
  pose proof (finished_rows w u (with_drains [] m)) as Frows.
  fold f in Fq, Fsh, Fs, Fd, Fp, Fe, Fst, Tid, Tdb, Tsid, Tsrc, Tterm, Hkeys, Frows,
    Hstatus.
  change (outcome_row w u (with_drains [] m)) with (outcome_row w u m) in *.
  cbn [with_drains db updateQueue shifted settled drains stranded isProcessing entropy]
    in Fq, Fsh, Fs, Fd, Fp, Fe, Fst, Frows.
  rewrite Hd in *. rewrite Forall_app, Forall_singleton in H5.
  destruct H5 as [H5 [r' Hr']].
  pose proof (audit_row_head _ _ _ _ _ Hrows Hdb Hr') as ->.
  destruct Hr' as (Hfr & _ & _ & Hfk).
  assert (fact_data_updates (db m') = outcome_row w u m r :: rest) as Hrows'.
  { change (db m') with (db f.2). rewrite Frows, Hdb, Hrows.
    apply update_where_head. by rewrite <- Hrows. }
  split; [|exact (conj Fd (conj (eq_trans Fst Hst) (conj Fq (conj Fp
                (conj (f_equal (λ l, l ++ [f.1]) Fs) Hrows')))))].
  split; change (db m') with (db f.2); change (updateQueue m') with (updateQueue f.2);
    change (drains m') with (drains f.2); change (shifted m') with (shifted f.2);
    change (entropy m') with (entropy f.2); change (stranded m') with (stranded f.2);
    change (settled m') with (settled f.2 ++ [f.1]);
    rewrite ?Fq, ?Fd, ?Fsh, ?Fs, ?Fe, ?Fst, ?app_nil_r.
  - done.
  - done.
  - by apply Forall_app in H2 as [H2 _].
  - rewrite Frows. apply Forall_update_where; [|done].
    intros x Hx. by rewrite (proj1 (Hkeys x)).
  - rewrite Forall_app, Forall_singleton. split.
    + apply Forall_forall. intros u0 Hu0.
      eapply Forall_forall in H5 as [r0 Hr0]; [|exact Hu0].
      exists r0. destruct Hr0 as (Hf0 & Hdb0 & Hrest0). split; [|done].
      change (db m') with (db f.2). rewrite Frows, Hdb.
      rewrite filter_update_where_ne; [done| |apply Hkeys].
      intros Heq. rewrite fmap_app in H8. apply NoDup_app in H8 as (_ & Hdis & _).
      apply (Hdis (Task.databaseId u0)).
      * apply list_elem_of_fmap. by exists u0.
      * cbn. rewrite Hdb0, Hdb, Heq. by left.
    + exists (outcome_row w u m r).
      destruct (Hkeys r) as (Kpk & Kfk & _).
      split; [|by rewrite Tdb, Kpk, Kfk, Tsid, Hstatus].
      change (db m') with (db f.2). rewrite Frows, Hdb, Kpk.
      rewrite filter_update_where_eq by apply Hkeys. by rewrite Hfr.
  - rewrite Forall_app, Forall_singleton. by split.
  - constructor.
  - rewrite fmap_app in *. cbn in *. by rewrite Tdb.
  - rewrite Hst in *. rewrite H9, !fmap_app. cbn. by rewrite Tid, ?app_nil_r.
Qed.

(** A loop iteration ends and the loop goes on: the task is settled with
    its audit row rewritten, and the next task, if any, is started. *)
Lemma resume_busy (w : World) (m : Manager) (u : Task.t) (r : Row.t)
  (rest : list Row.t) :
  Core m → isProcessing m = true → drains m = [u] → stranded m = [] →
  fact_data_updates (db m) = r :: rest →
  Task.databaseId u = Some (Row.pk_update_id r) →
  survives w (db m) u = true →
  let f := finished w u (with_drains [] m) in
  let m' := resume 0 w m in
  Consistent m' ∧ settled m' = settled m ++ [f.1]
  ∧ match updateQueue m with
    | [] =>
        Idle m' ∧ fact_data_updates (db m') = outcome_row w u m r :: rest
    | next :: queue =>
        updateQueue m' = queue ∧ isProcessing m' = true
        ∧ if update_type_CHECK (Source.type (Task.source next))
          then ∃ n r', drains m' = [n] ∧ Task.id n = Task.id next
                       ∧ Task.status n = in_progress
                       ∧ Row.update_status r' = in_progress
                       ∧ fact_data_updates (db m') = r' :: outcome_row w u m r :: rest
          else Stuck m'
               ∧ (∃ n, stranded m' = [n] ∧ Task.id n = Task.id next
                       ∧ Task.status n = failed)
               ∧ fact_data_updates (db m') = outcome_row w u m r :: rest
    end.
Proof.
  intros HC Hp Hd Hst Hrows Hdb Hsur f m'.
  destruct (Core_finished w m u r rest HC Hd Hst Hrows Hdb Hsur)
    as (HC1 & Hd1 & Hst1 & Hq1 & Hp1 & Hs1 & Hrows1).
  fold f in HC1, Hd1, Hst1, Hq1, Hp1, Hs1, Hrows1.
  assert (m' = while_queue (updateQueue (settle f.1 f.2)) (settle f.1 f.2)) as Hm'.
  { unfold m'. rewrite (resume_eq 0 w m u) by by rewrite Hd. rewrite Hsur.
    by rewrite Hd. }
  pose proof (Core_while_queue _ HC1 Hd1 Hst1) as [HC2 Hshape]. cbn zeta in Hshape.
  rewrite <- Hm' in HC2, Hshape. rewrite Hq1 in Hshape.
  destruct (updateQueue m) as [|next queue].
  - destruct Hshape as (Hp2 & Hq2 & Hd2 & Hst2).
    assert (settled m' = settled m ++ [f.1] ∧
            fact_data_updates (db m') = outcome_row w u m r :: rest) as [Hs2 Hr2].
    { rewrite Hm', Hq1. cbn. by rewrite <- Hs1, <- Hrows1. }
    split; [|by split]. split; [done|]. by left.
  - destruct Hshape as (Hp2 & Hq2 & Hs2 & Hshape).
    rewrite Hs2, Hs1, Hp2, Hp1, Hp.
    destruct (update_type_CHECK (Source.type (Task.source next))).
    + destruct Hshape as (Hst2 & n & r' & Hd2 & Hid & Hstn & Hr2 & Hrst & Hdbn).
      rewrite Hr2, Hrows1.
      split; [|split; [done|]].
      * split; [done|]. right. left. split; [by rewrite Hp2, Hp1|].
        split; [done|].
        exists n, r', (outcome_row w u m r :: rest). by rewrite Hr2, Hrows1.
      * repeat split; try done. by exists n, r'.
    + destruct Hshape as (Hd2 & Hst2 & Hr2). rewrite Hr2, Hrows1.
      assert (Stuck m') as Hstuck.
      { split; [by rewrite Hp2, Hp1|]. split; [done|]. by eexists. }
      split; [split; [done|]; by right; right|].
      split; [done|]. split; [done|]. split; [done|]. split; [done|].
      split; [|done]. by eexists.
Qed.

(** A loop iteration ends with the outcome of the task not written: the
    loop is rejected, and the audit row stays as it is. *)
Lemma resume_dies (w : World) (m : Manager) (u : Task.t) :
  Core m → isProcessing m = true → drains m = [u] → stranded m = [] →
  survives w (db m) u = false →
  let f := finished w u (with_drains [] m) in
  let m' := resume 0 w m in
  m' = strand f.1 f.2
  ∧ Consistent m' ∧ Stuck m' ∧ settled m' = settled m
  ∧ updateQueue m' = updateQueue m ∧ shifted m' = shifted m
  ∧ notified m' = notified m ∧ stranded m' = [f.1]
  ∧ db m' = db m ∧ Task.id f.1 = Task.id u ∧ Task.status f.1 = failed.
Proof.
  intros HC Hp Hd Hst Hsur f m'.
  assert (m' = strand f.1 f.2) as Hm'.
  { unfold m'. rewrite (resume_eq 0 w m u) by by rewrite Hd. rewrite Hsur.
    by rewrite Hd. }
  destruct (finished_frame w u (with_drains [] m))
    as (Fq & Fsh & Fs & Fd & Fp & _ & _ & Fe & Fst & _).
  destruct (finished_task w u (with_drains [] m)) as (Tid & _).
  pose proof (finished_rows w u (with_drains [] m)) as Frows.
  fold f in Fq, Fsh, Fs, Fd, Fp, Fe, Fst, Frows, Tid.
  cbn [with_drains db updateQueue shifted settled drains stranded isProcessing entropy]
    in Fq, Fsh, Fs, Fd, Fp, Fe, Fst, Frows.
  assert (db f.2 = db m ∧ Task.status f.1 = failed) as [Hdb Hfailed].
  { clear -Hsur. subst f. unfold finished, survives in *.
    cbn [with_drains db Task.databaseId clock].
    destruct (routine w (db m) u);
      [destruct (LocalDatabase.bindValue _)|..];
      by destruct (Task.databaseId u). }
  assert (fact_data_updates (db f.2) = fact_data_updates (db m)
          ∧ notified f.2 = notified m) as [Hrows Hnot].
  { clear -Hsur. subst f. unfold finished, survives in *.
    cbn [with_drains db Task.databaseId clock].
    destruct (routine w (db m) u);
      [destruct (LocalDatabase.bindValue _)|..];
      by destruct (Task.databaseId u). }
  split; [done|]. rewrite Hm'.
  cbn [strand with_stranded settled updateQueue shifted isProcessing drains stranded
       notified].
  rewrite ?Fq, ?Fsh, ?Fs, ?Fd, ?Fp, ?Fst, ?Hst, ?Hnot.
  assert (Stuck (strand f.1 f.2)) as Hstuck.
  { split; [by cbn; rewrite Fp|]. split; [by cbn; rewrite Fd|].
    exists f.1. cbn. by rewrite Fst, Hst. }
  split; [|done]. split; [|by right; right].
  clear Hdb Hfailed.
  destruct HC as [H1 H0 H2 H4 H5 H6 H7 H8 H9]. rewrite Hd, Hst in *.
  split; cbn [strand with_stranded settled updateQueue shifted drains stranded
              db entropy]; rewrite ?Fq, ?Fsh, ?Fs, ?Fd, ?Fst, ?Fe, ?Hrows, ?Hst,
                             ?app_nil_r in *.
  - done.
  - done.
  - by apply Forall_app in H2 as [H2 _].
  - done.
  - apply Forall_app in H5 as [H5 _]. eapply Forall_impl; [exact H5|].
    intros u0 [r0 Hr0]. exists r0. unfold audit_row in *. cbn [strand with_stranded db].
    by rewrite Hrows.
  - done.
  - constructor.
  - rewrite fmap_app in H8. by apply NoDup_app in H8 as (? & _).
  - rewrite H9, !fmap_app. cbn. by rewrite Tid.
Qed.

Lemma processUpdateQueue_settled (m : Manager) :
  Idle m ∨ Busy m ∨ Stuck m → processUpdateQueue m = m.
Proof.
  intros [(Hp & Hq & _)|[(Hp & _)|(Hp & _)]]; unfold processUpdateQueue; rewrite Hp;
    [|done..].
  by rewrite Hq.
Qed.

Lemma Consistent_step (e : Event) (m : Manager) :
  Consistent m → Consistent (step e m).
Proof.
  intros [HC Hctl]. destruct e as [source| |event callback|i w]; cbn [step].
  - rewrite queueUpdate_eq. pose proof (Core_pushed source m HC) as HCp.
    destruct Hctl as [(Hp & Hq & Hd & Hst)
                     |[(Hp & Hst & u & r & rest & Hd & Hrows & Hdb)|(Hp & Hd & Hst)]];
      rewrite Hp.
    + unfold processUpdateQueue.
      set (x := Task.mk (entropy m) (Source.id source) source pending (clock m)
                  (getUpdatePriority (Source.type source)) None None None None None).
      assert (updateQueue (pushed source m) = [x])
        as Hqp by (cbn; by rewrite Hq).
      change (isProcessing (pushed source m)) with (isProcessing m).
      rewrite Hp, Hqp. cbn [orb]. rewrite bool_decide_eq_false_2 by done.
      rewrite <- Hqp.
      change (updateQueue (pushed source m))
        with (updateQueue (with_isProcessing true (pushed source m))).
      assert (Core (with_isProcessing true (pushed source m))) as HC1
        by (by eapply Core_ext; [..|exact HCp]).
      destruct (Core_while_queue _ HC1 Hd Hst) as [HC2 Hshape]. cbn zeta in Hshape.
      change (updateQueue (with_isProcessing true (pushed source m)))
        with (updateQueue (pushed source m)) in Hshape at 1.
      rewrite Hqp in Hshape.
      destruct Hshape as (Hp2 & _ & _ & Hshape).
      split; [done|]. right.
      destruct (update_type_CHECK (Source.type (Task.source x))).
      * destruct Hshape as (Hst2 & n & r' & Hd2 & _ & _ & Hr2 & _ & Hdbn).
        left. split; [done|]. split; [done|].
        by exists n, r', (fact_data_updates (db m)).
      * destruct Hshape as (Hd2 & Hst2 & _). right.
        split; [done|]. split; [done|]. by eexists.
    + split; [done|]. right. left. split; [done|]. split; [done|]. by exists u, r, rest.
    + split; [done|]. right. right. split; [done|]. by split.
  - by rewrite processUpdateQueue_settled.
  - unfold on. destruct (Get (callbacks m) event); cbn; try done.
    split; [by eapply Core_ext; [..|exact HC]|]. done.
  - destruct Hctl as [(Hp & Hq & Hd & Hst)
                     |[(Hp & Hst & u & r & rest & Hd & Hrows & Hdb)|(Hp & Hd & Hst)]].
    + rewrite resume_idle by by rewrite Hd. split; [done|]. by left.
    + destruct i as [|i].
      * destruct (survives w (db m) u) eqn:Hsur.
        -- by destruct (resume_busy w m u r rest HC Hp Hd Hst Hrows Hdb Hsur) as [? _].
        -- by destruct (resume_dies w m u HC Hp Hd Hst Hsur) as (_ & ? & _).
      * rewrite resume_idle by by rewrite Hd. split; [done|]. right. left.
        split; [done|]. split; [done|]. by exists u, r, rest.
    + rewrite resume_idle by by rewrite Hd. split; [done|]. by right; right.
Qed.

Lemma Consistent_run (events : list Event) (database : Store) :
  Consistent (run events (constructor database)).
Proof.
  induction events as [|e events IH] using rev_ind.
  - split; [apply Core_constructor|by left].
  - rewrite run_snoc. by apply Consistent_step.
Qed.

(** ** One loop, one task in progress *)

Lemma run_cons (e : Event) (events : list Event) (m : Manager) :
  run (e :: events) m = run events (step e m).
Proof. done. Qed.

Lemma filter_none_status (s : Status) (l : list Task.t) :
  Forall (λ u, Task.status u ≠ s) l → filter (λ u, Task.status u = s) l = [].
Proof.
  induction 1 as [|u l Hu _ IH]; [done|]. by rewrite filter_cons_False.
Qed.

Lemma Consistent_drains (m : Manager) : Consistent m → length (drains m) ≤ 1.
Proof.
  intros [_ [(_ & _ & -> & _)|[(_ & _ & u & _ & _ & -> & _)|(_ & -> & _)]]]; cbn; lia.
Qed.

(** A loop is suspended on a task: it is the only one, and its task is the
    one whose audit row is the newest. *)
Lemma Consistent_inflight (m : Manager) (i : nat) (u : Task.t) :
  Consistent m → drains m !! i = Some u →
  i = 0 ∧ isProcessing m = true ∧ drains m = [u] ∧ stranded m = []
  ∧ ∃ r rest, fact_data_updates (db m) = r :: rest
              ∧ Task.databaseId u = Some (Row.pk_update_id r).
Proof.
  intros [_ [(_ & _ & Hd & _)|[(Hp & Hst & u0 & r & rest & Hd & Hrows & Hdb)
                             |(_ & Hd & _)]]] Hu;
    rewrite Hd in Hu; try done.
  destruct i as [|i]; [|done]. injection Hu as ->.
  repeat split; try done. by exists r, rest.
Qed.

Lemma survives_unbound (w : World) (d : Store) (u : Task.t) (counts : nat * nat) :
  routine w d u = Normal counts →
  LocalDatabase.bindValue (getCurrentGitHash w (Task.source u)) = None →
  survives w d u = false.
Proof.
  intros Hr Hb. unfold survives. rewrite Hr, Hb. by destruct (Task.databaseId u).
Qed.

Lemma survives_bound (w : World) (d : Store) (u : Task.t) (k : nat) :
  Task.databaseId u = Some k →
  (∀ counts, routine w d u = Normal counts →
             is_Some (LocalDatabase.bindValue (getCurrentGitHash w (Task.source u)))) →
  survives w d u = true.
Proof.
  intros Hdb Hb. unfold survives. rewrite Hdb.
  destruct (routine w d u) as [counts|e|text] eqn:Hr.
  - by rewrite bool_decide_eq_true_2 by by eapply Hb.
  - done.
  - by apply routine_no_string in Hr.
Qed.

(** Once [isProcessing] is set and no loop is there to clear it, nothing
    that can happen starts a loop: the queue only grows, and the store and
    the record of the tasks stay as they are. *)
Lemma rejected_step (e : Event) (m : Manager) :
  isProcessing m = true → drains m = [] →
  let m' := step e m in
  isProcessing m' = true ∧ drains m' = [] ∧ shifted m' = shifted m
  ∧ settled m' = settled m ∧ stranded m' = stranded m ∧ db m' = db m
  ∧ notified m' = notified m
  ∧ (∀ v, v ∈ updateQueue m → v ∈ updateQueue m').
Proof.
  intros Hp Hd. destruct e as [source| |event callback|i w]; cbn [step].
  - rewrite queueUpdate_eq, Hp. cbn. repeat split; try done.
    intros v Hv. rewrite Array_sort_Permutation. apply elem_of_app. by left.
  - unfold processUpdateQueue. by rewrite Hp.
  - unfold on. by destruct (Get (callbacks m) event).
  - by rewrite resume_idle by by rewrite Hd.
Qed.

Lemma rejected_run (events : list Event) (m : Manager) :
  isProcessing m = true → drains m = [] →
  let m' := run events m in
  isProcessing m' = true ∧ drains m' = [] ∧ shifted m' = shifted m
  ∧ settled m' = settled m ∧ stranded m' = stranded m ∧ db m' = db m
  ∧ notified m' = notified m
  ∧ (∀ v, v ∈ updateQueue m → v ∈ updateQueue m').
Proof.
  revert m. induction events as [|e events IH]; intros m Hp Hd; [done|].
  cbn zeta. rewrite run_cons.
  destruct (rejected_step e m Hp Hd) as (Hp1 & Hd1 & Hsh1 & Hs1 & Hst1 & Hdb1 & Hn1 & Hq1).
  destruct (IH (step e m) Hp1 Hd1) as (Hp2 & Hd2 & Hsh2 & Hs2 & Hst2 & Hdb2 & Hn2 & Hq2).
  rewrite Hsh2, Hs2, Hst2, Hdb2, Hn2. repeat split; try done.
  intros v Hv. by apply Hq2, Hq1.
Qed.

(** The loop is rejected at the end of an iteration, and what follows. *)
Lemma rejected_at_settle (events : list Event) (database : Store) (w : World)
  (u : Task.t) (counts : nat * nat) (later : list Event) :
  let m := run events (constructor database) in
  drains m !! 0 = Some u →
  routine w (db m) u = Normal counts →
  LocalDatabase.bindValue (getCurrentGitHash w (Task.source u)) = None →
  let m' := run later (step (Settle 0 w) m) in
  isProcessing m' = true ∧ drains m' = [] ∧ shifted m' = shifted m
  ∧ settled m' = settled m ∧ db m' = db m
  ∧ (∀ v, v ∈ updateQueue m → v ∈ updateQueue m')
  ∧ (∃ u', stranded m' = [u'] ∧ Task.id u' = Task.id u ∧ Task.status u' = failed)
  ∧ Task.id <$> shifted m = Task.id <$> (settled m ++ [u])
  ∧ ∃ r, audit_row m u r ∧ Row.update_status r = in_progress.
Proof.
  intros m Hu Hroutine Hbind m'.
  pose proof (Consistent_run events database) as Hcon. fold m in Hcon.
  destruct (Consistent_inflight m 0 u Hcon Hu)
    as (_ & Hp & Hd & Hst & r & rest & Hrows & Hdb).
  destruct Hcon as [HC _].
  pose proof (survives_unbound w (db m) u counts Hroutine Hbind) as Hsur.
  destruct (resume_dies w m u HC Hp Hd Hst Hsur)
    as (_ & _ & (Hp1 & Hd1 & _) & Hs1 & Hq1 & Hsh1 & _ & Hst1 & Hdb1 & Hid & Hfailed).
  destruct (rejected_run later (step (Settle 0 w) m) Hp1 Hd1)
    as (Hp2 & Hd2 & Hsh2 & Hs2 & Hst2 & Hdb2 & _ & Hq2).
  fold m' in Hp2, Hd2, Hsh2, Hs2, Hst2, Hdb2, Hq2. cbn [step] in *.
  rewrite Hsh2, Hs2, Hst2, Hdb2, Hsh1, Hs1, Hst1, Hdb1.
  split; [done|]. split; [done|]. split; [done|]. split; [done|]. split; [done|].
  split; [intros v Hv; apply Hq2; by rewrite Hq1|].
  split; [by eexists|].
  destruct HC as [_ _ _ _ H5 _ H7 _ H9]. rewrite Hd, Hst in *.
  split; [by rewrite H9, app_nil_r|].
  apply Forall_app in H5 as [_ [r' Hr']%Forall_inv]. exists r'. split; [done|].
  destruct Hr' as (_ & _ & -> & _). by apply Forall_inv in H7.
Qed.

(** C3.  As the code has it, the tasks added while the loop is active are
    not always processed.  Let the routine of the task in progress return,
    and let the commits endpoint answer with a document that has no [sha],
    so that the hash is [undefined] and cannot be bound: then
    [logUpdateComplete] throws, [logUpdateError] throws in the handler of
    [processUpdate] and again in the handler of the loop, and
    [processUpdateQueue] is rejected with [isProcessing] left set.  From
    then on, whatever happens, no loop is active and none is started: an
    enqueue only puts its task in the queue, no task is dequeued or settled
    any more, and every task of the queue stays there. *)
Theorem queued_tasks_are_left_behind (events : list Event) (database : Store)
  (w : World) (u : Task.t) (counts : nat * nat) (later : list Event) :
  let m := run events (constructor database) in
  drains m !! 0 = Some u →
  routine w (db m) u = Normal counts →
  LocalDatabase.bindValue (getCurrentGitHash w (Task.source u)) = None →
  let m' := run later (step (Settle 0 w) m) in
  isProcessing m' = true ∧ drains m' = []
  ∧ shifted m' = shifted m ∧ settled m' = settled m
  ∧ (∀ v, v ∈ updateQueue m → v ∈ updateQueue m')
  ∧ (∀ source, queueUpdate source m' = pushed source m')
  ∧ processUpdateQueue m' = m'.
Proof.
  intros m Hu Hroutine Hbind m'.
  destruct (rejected_at_settle events database w u counts later Hu Hroutine Hbind)
    as (Hp & Hd & Hsh & Hs & _ & Hq & _).
  fold m m' in Hp, Hd, Hsh, Hs, Hq.
  split; [done|]. split; [done|]. split; [done|]. split; [done|]. split; [done|].
  split.
  - intros source. by rewrite queueUpdate_eq, Hp.
  - unfold processUpdateQueue. by rewrite Hp.
Qed.

Lemma queued_tasks_are_left_behind_witness :
  let m := run [CallQueueUpdate tiers_source; CallQueueUpdate gamemaster_source]
               (constructor empty_store) in
  let u := Task.mk 1 "pokemon-resources" tiers_source in_progress 0 (JsNumber 6)
             (Some 1) None (Some 2) None None in
  let m' := run [CallQueueUpdate tiers_source; CallProcessUpdateQueue;
                 Settle 0 online]
                (step (Settle 0 commits_refused) m) in
  drains m !! 0 = Some u
  ∧ routine commits_refused (db m) u = Normal (0, 0)
  ∧ getCurrentGitHash commits_refused (Task.source u) = None
  ∧ Task.sourceId <$> updateQueue m = ["pvpoke-gamemaster"]
  ∧ isProcessing m' = true ∧ drains m' = []
  ∧ shifted m' = shifted m ∧ settled m' = settled m
  ∧ (∀ v, v ∈ updateQueue m → v ∈ updateQueue m').
Proof.
  intros m u m'.
  assert (drains m !! 0 = Some u) as Hu by (vm_compute; reflexivity).
  assert (routine commits_refused (db m) u = Normal (0, 0)) as Hroutine
    by (vm_compute; reflexivity).
  assert (getCurrentGitHash commits_refused (Task.source u) = None) as Hhash
    by (vm_compute; reflexivity).
  assert (LocalDatabase.bindValue (getCurrentGitHash commits_refused (Task.source u))
          = None) as Hbind by (vm_compute; reflexivity).
  assert (Task.sourceId <$> updateQueue m = ["pvpoke-gamemaster"]) as Hq
    by (vm_compute; reflexivity).
  destruct (queued_tasks_are_left_behind
              [CallQueueUpdate tiers_source; CallQueueUpdate gamemaster_source]
              empty_store commits_refused u (0, 0)
              [CallQueueUpdate tiers_source; CallProcessUpdateQueue; Settle 0 online]
              Hu Hroutine Hbind) as (H1 & H2 & H3 & H4 & H5 & _).
  exact (conj Hu (conj Hroutine (conj Hhash (conj Hq
           (conj H1 (conj H2 (conj H3 (conj H4 H5)))))))).
Defined.

(** ** The audit trail *)

(** C4.  As the code has it, a dequeued task can be left without a terminal
    audit row.  In the case of C3, the hash being refused, the statement of
    [logUpdateComplete] does not run and neither does the one of
    [logUpdateError]: the task was dequeued and its task object says
    [failed], but its one audit row still says [in_progress], and whatever
    happens afterwards the audit trail stays as it is. *)
Theorem audit_row_is_left_in_progress (events : list Event) (database : Store)
  (w : World) (u : Task.t) (counts : nat * nat) (later : list Event) :
  let m := run events (constructor database) in
  drains m !! 0 = Some u →
  routine w (db m) u = Normal counts →
  LocalDatabase.bindValue (getCurrentGitHash w (Task.source u)) = None →
  let m' := run later (step (Settle 0 w) m) in
  (Task.id u ∈ Task.id <$> shifted m')
  ∧ (∃ u', stranded m' = [u'] ∧ Task.id u' = Task.id u ∧ Task.status u' = failed)
  ∧ (∃ r, filter (λ x, Row.pk_update_id x = Row.pk_update_id r)
                 (fact_data_updates (db m')) = [r]
          ∧ Task.databaseId u = Some (Row.pk_update_id r)
          ∧ Row.update_status r = in_progress)
  ∧ fact_data_updates (db m') = fact_data_updates (db m).
Proof.
  intros m Hu Hroutine Hbind m'.
  destruct (rejected_at_settle events database w u counts later Hu Hroutine Hbind)
    as (_ & _ & Hsh & _ & Hdb & _ & Hstranded & Hids & r & (Hf & Hk & _) & Hst).
  fold m m' in Hsh, Hdb, Hstranded, Hids, Hf.
  rewrite Hsh, Hdb, Hids.
  split; [rewrite fmap_app; apply elem_of_app; right; by left|].
  split; [done|]. split; [|done]. by exists r.
Qed.

Lemma audit_row_is_left_in_progress_witness :
  let m := run [CallQueueUpdate tiers_source] (constructor empty_store) in
  let u := Task.mk 1 "pokemon-resources" tiers_source in_progress 0 (JsNumber 6)
             (Some 1) None (Some 2) None None in
  let m' := run [CallQueueUpdate gamemaster_source; Settle 0 online]
                (step (Settle 0 commits_refused) m) in
  drains m !! 0 = Some u
  ∧ routine commits_refused (db m) u = Normal (0, 0)
  ∧ getCurrentGitHash commits_refused (Task.source u) = None
  ∧ Row.update_status <$> fact_data_updates (db m) = [in_progress]
  ∧ (Task.id u ∈ Task.id <$> shifted m')
  ∧ fact_data_updates (db m') = fact_data_updates (db m).
Proof.
  intros m u m'.
  assert (drains m !! 0 = Some u) as Hu by (vm_compute; reflexivity).
  assert (routine commits_refused (db m) u = Normal (0, 0)) as Hroutine
    by (vm_compute; reflexivity).
  assert (getCurrentGitHash commits_refused (Task.source u) = None) as Hhash
    by (vm_compute; reflexivity).
  assert (LocalDatabase.bindValue (getCurrentGitHash commits_refused (Task.source u))
          = None) as Hbind by (vm_compute; reflexivity).
  assert (Row.update_status <$> fact_data_updates (db m) = [in_progress]) as Hrows
    by (vm_compute; reflexivity).
  destruct (audit_row_is_left_in_progress [CallQueueUpdate tiers_source]
              empty_store commits_refused u (0, 0)
              [CallQueueUpdate gamemaster_source; Settle 0 online]
              Hu Hroutine Hbind) as (H1 & _ & _ & H2).
  exact (conj Hu (conj Hroutine (conj Hhash (conj Hrows (conj H1 H2))))).
Defined.

(** ** The marker on record *)

Lemma last_completed_marker_skip (d d' : Store) (r : Row.t) (sourceId : string) :
  fact_data_updates d' = r :: fact_data_updates d →
  Row.update_status r ≠ completed →
  last_completed_marker d' sourceId = last_completed_marker d sourceId.
Proof.
  intros Hrows Hst. unfold last_completed_marker, select_git_commit_hash.
  rewrite Hrows. rewrite filter_cons_False; [done|]. by intros [_ ?].
Qed.

Lemma last_completed_marker_other (d d' : Store) (r : Row.t) (sourceId : string) :
  fact_data_updates d' = r :: fact_data_updates d →
  Row.fk_source_id r ≠ sourceId →
  last_completed_marker d' sourceId = last_completed_marker d sourceId.
Proof.
  intros Hrows Hfk. unfold last_completed_marker, select_git_commit_hash.
  rewrite Hrows. rewrite filter_cons_False; [done|].
  cbn [sql_equal]. intros [Heq _]. by apply String.eqb_eq in Heq.
Qed.

Lemma last_completed_marker_head (d : Store) (r : Row.t) (rest : list Row.t)
  (sourceId : string) :
  fact_data_updates d = r :: rest →
  Row.update_status r = completed → Row.fk_source_id r = sourceId →
  last_completed_marker d sourceId = Row.git_commit_hash r.
Proof.
  intros Hrows Hst Hfk. unfold last_completed_marker, select_git_commit_hash.
  rewrite Hrows. rewrite filter_cons_True; [done|].
  cbn [sql_equal]. split; [by apply String.eqb_eq|done].
Qed.

Lemma last_completed_marker_rows (d d' : Store) (sourceId : string) :
  fact_data_updates d' = fact_data_updates d →
  last_completed_marker d' sourceId = last_completed_marker d sourceId.
Proof.
  intros Hrows. unfold last_completed_marker, select_git_commit_hash.
  by rewrite Hrows.
Qed.

(** How an iteration that the loop gets through ends, by the completion of
    the routine. *)
Lemma finished_outcome (w : World) (u : Task.t) (m : Manager) (r : Row.t) :
  is_Some (Task.databaseId u) →
  let u' := (finished w u (with_drains [] m)).1 in
  let r' := outcome_row w u m r in
  match routine w (db m) u with
  | Normal c =>
      ∀ hash,
        LocalDatabase.bindValue (getCurrentGitHash w (Task.source u)) = Some hash →
        Task.status u' = completed ∧ Task.result u' = Some c
        ∧ Task.error u' = Task.error u
        ∧ Row.update_status r' = completed
        ∧ Row.records_added r' = c.1 ∧ Row.records_modified r' = c.2
        ∧ Row.error_message r' = Row.error_message r
        ∧ Row.git_commit_hash r' = hash
  | Throw e =>
      Task.status u' = failed ∧ Task.error u' = Some e
      ∧ Task.result u' = Task.result u
      ∧ Row.update_status r' = failed ∧ Row.error_message r' = Some e
  | ThrowString _ => True
  end.
Proof.
  intros [k Hk]. unfold finished, outcome_row. cbn [with_drains db].
  destruct (routine w (db m) u) as [c|e|text]; [|by rewrite Hk|done].
  intros hash ->. by rewrite Hk.
Qed.

Lemma queueUpdate_rows (source : Source.t) (m : Manager) :
  Consistent m →
  fact_data_updates (db (queueUpdate source m)) = fact_data_updates (db m)
  ∨ ∃ r, Row.update_status r = in_progress
         ∧ fact_data_updates (db (queueUpdate source m))
           = r :: fact_data_updates (db m).
Proof.
  intros [HC Hctl]. rewrite queueUpdate_eq.
  destruct (isProcessing m) eqn:Hp; [by left|].
  destruct Hctl as [(_ & Hq & Hd & Hst)|[(Hp' & _)|(Hp' & _)]]; [|congruence..].
  unfold processUpdateQueue.
  change (isProcessing (pushed source m)) with (isProcessing m). rewrite Hp.
  assert (updateQueue (pushed source m)
          = [Task.mk (entropy m) (Source.id source) source pending (clock m)
               (getUpdatePriority (Source.type source)) None None None None None])
    as Hqp by (cbn; by rewrite Hq).
  rewrite Hqp. cbn [orb]. rewrite bool_decide_eq_false_2 by done.
  rewrite while_queue_cons by done. cbn zeta. unfold after_enter, logUpdateStart.
  cbn [Task.source Task.start generateUpdateId new_Date fst snd].
  destruct (update_type_CHECK _); [right|by left].
  cbn. eexists. split; [|reflexivity]. done.
Qed.

Lemma inflight_row_in_progress (m : Manager) (u : Task.t) (r : Row.t)
  (rest : list Row.t) :
  Core m → drains m = [u] → fact_data_updates (db m) = r :: rest →
  Task.databaseId u = Some (Row.pk_update_id r) →
  Row.update_status r = in_progress ∧ Row.fk_source_id r = Task.sourceId u.
Proof.
  intros [_ _ H2 _ H5 _ H7 _ _] Hd Hrows Hdb. rewrite Hd in *.
  apply Forall_app in H5 as [_ [r' Hr']%Forall_inv].
  pose proof (audit_row_head _ _ _ _ _ Hrows Hdb Hr') as ->.
  destruct Hr' as (_ & _ & Hst & Hfk).
  apply Forall_inv in H7. cbn in *. split; congruence.
Qed.

(** The marker of every source across the end of an iteration. *)
Lemma resume_marker (w : World) (m : Manager) (u : Task.t) (r : Row.t)
  (rest : list Row.t) (sourceId : string) :
  Core m → isProcessing m = true → drains m = [u] → stranded m = [] →
  fact_data_updates (db m) = r :: rest →
  Task.databaseId u = Some (Row.pk_update_id r) →
  last_completed_marker (db (resume 0 w m)) sourceId
  = match routine w (db m) u,
          LocalDatabase.bindValue (getCurrentGitHash w (Task.source u)) with
    | Normal _, Some hash =>
        if decide (sourceId = Task.sourceId u) then hash
        else last_completed_marker (db m) sourceId
    | _, _ => last_completed_marker (db m) sourceId
    end.
Proof.
  intros HC Hp Hd Hstr Hrows Hdb.
  destruct (inflight_row_in_progress m u r rest HC Hd Hrows Hdb) as [Hst Hfk].
  destruct (survives w (db m) u) eqn:Hsur.
  2:{ destruct (resume_dies w m u HC Hp Hd Hstr Hsur)
        as (_ & _ & _ & _ & _ & _ & _ & _ & Hsame & _).
      rewrite Hsame. unfold survives in Hsur. rewrite Hdb in Hsur.
      destruct (routine w (db m) u); [|done..].
      destruct (LocalDatabase.bindValue _); [|done].
      by rewrite bool_decide_eq_true_2 in Hsur. }
  destruct (resume_busy w m u r rest HC Hp Hd Hstr Hrows Hdb Hsur) as (_ & _ & Hshape).
  assert (is_Some (Task.databaseId u)) as Hsome by by rewrite Hdb.
  pose proof (finished_outcome w u m r Hsome) as Hout. cbn zeta in Hout.
  destruct (outcome_row_keys w u (with_drains [] m) r) as (_ & Kfk & _).
  change (outcome_row w u (with_drains [] m) r) with (outcome_row w u m r) in Kfk.
  set (d1 := with_rows (outcome_row w u m r :: rest) (db m)).
  set (d0 := with_rows rest (db m)).
  assert (last_completed_marker (db m) sourceId = last_completed_marker d0 sourceId)
    as Hbase.
  { apply (last_completed_marker_skip d0 (db m) r); [done|by rewrite Hst]. }
  assert (last_completed_marker (db (resume 0 w m)) sourceId
          = last_completed_marker d1 sourceId) as ->.
  { destruct (updateQueue m) as [|next queue].
    - destruct Hshape as [_ Hr]. by apply last_completed_marker_rows.
    - destruct Hshape as (_ & _ & Hshape).
      destruct (update_type_CHECK _).
      + destruct Hshape as (n & r' & _ & _ & _ & Hst' & Hr).
        apply (last_completed_marker_skip d1 _ r'); [done|by rewrite Hst'].
      + destruct Hshape as (_ & _ & Hr). by apply last_completed_marker_rows. }
  destruct (routine w (db m) u) as [c|e|text] eqn:Hroutine.
  - destruct (LocalDatabase.bindValue _) as [hash|] eqn:Hbind.
    + destruct (Hout hash eq_refl) as (_ & _ & _ & Hst1 & _ & _ & _ & Hhash).
      case_decide as Hs.
      * rewrite <- Hhash. apply (last_completed_marker_head d1 _ rest); [done..|].
        by rewrite Kfk, Hfk.
      * rewrite Hbase.
        apply (last_completed_marker_other d0 d1 (outcome_row w u m r)); [done|].
        rewrite Kfk, Hfk. congruence.
    + unfold survives in Hsur. rewrite Hroutine, Hbind, Hdb in Hsur.
      by rewrite bool_decide_eq_false_2 in Hsur by by intros [? ?].
  - destruct Hout as (_ & _ & _ & Hst1 & _). rewrite Hbase.
    apply (last_completed_marker_skip d0 d1 (outcome_row w u m r));
      [done|by rewrite Hst1].
  - by apply routine_no_string in Hroutine.
Qed.

(** C5, as the code has it, for the marker on record: the commit hash in
    the newest completed audit row of a source.  When the routine of the
    task in progress returns and the hash read at that moment can be
    stored, the task is settled as completed and the marker of its source
    is set to that hash, which is NULL when the request for it failed; the
    markers of the other sources stay.  In every other case the task ends
    as failed, settled or left behind by the rejected loop, and no marker
    moves.  No other event moves a marker. *)
Theorem marker_moves_only_on_completion (events : list Event) (database : Store)
  (e : Event) (sourceId : string) :
  let m := run events (constructor database) in
  let m' := step e m in
  match e with
  | Settle i w =>
      match drains m !! i with
      | Some u =>
          match routine w (db m) u,
                LocalDatabase.bindValue (getCurrentGitHash w (Task.source u)) with
          | Normal _, Some hash =>
              (∃ u', settled m' = settled m ++ [u'] ∧ Task.id u' = Task.id u
                     ∧ Task.status u' = completed)
              ∧ last_completed_marker (db m') sourceId
                = if decide (sourceId = Task.sourceId u) then hash
                  else last_completed_marker (db m) sourceId
          | _, _ =>
              (∃ u', (settled m' = settled m ++ [u'] ∨ stranded m' = [u'])
                     ∧ Task.id u' = Task.id u ∧ Task.status u' = failed)
              ∧ last_completed_marker (db m') sourceId
                = last_completed_marker (db m) sourceId
          end
      | None => m' = m
      end
  | _ => last_completed_marker (db m') sourceId = last_completed_marker (db m) sourceId
  end.
Proof.
  intros m m'. pose proof (Consistent_run events database) as Hcon. fold m in Hcon.
  destruct e as [source| |event callback|i w]; unfold m'; cbn [step].
  - destruct (queueUpdate_rows source m Hcon) as [Hr|(r & Hst & Hr)].
    + by apply last_completed_marker_rows.
    + apply (last_completed_marker_skip _ _ r); [done|by rewrite Hst].
  - by rewrite processUpdateQueue_settled by apply Hcon.
  - unfold on. by destruct (Get (callbacks m) event).
  - destruct (drains m !! i) as [u|] eqn:Hu; [|by apply resume_idle].
    destruct (Consistent_inflight m i u Hcon Hu)
      as (-> & Hp & Hd & Hstr & r & rest & Hrows & Hdb).
    destruct Hcon as [HC _].
    pose proof (resume_marker w m u r rest sourceId HC Hp Hd Hstr Hrows Hdb) as Hmark.
    destruct (finished_task w u (with_drains [] m)) as (Tid & _).
    assert (is_Some (Task.databaseId u)) as Hsome by by rewrite Hdb.
    pose proof (finished_outcome w u m r Hsome) as Hout. cbn zeta in Hout.
    destruct (survives w (db m) u) eqn:Hsur.
    + destruct (resume_busy w m u r rest HC Hp Hd Hstr Hrows Hdb Hsur) as (_ & Hs & _).
      unfold survives in Hsur. rewrite Hdb in Hsur.
      destruct (routine w (db m) u) as [c|err|text]; [|clear Hsur|done].
      * destruct (LocalDatabase.bindValue _) as [hash|];
          [|by rewrite bool_decide_eq_false_2 in Hsur by by intros [? ?]].
        destruct (Hout hash eq_refl) as (Hst1 & _).
        split; [|done]. by eexists.
      * destruct Hout as (Hst1 & _). split; [|done].
        eexists. split; [by left|]. done.
    + destruct (resume_dies w m u HC Hp Hd Hstr Hsur)
        as (_ & _ & _ & _ & _ & _ & _ & Hstranded & _ & _ & Hfailed).
      assert (∃ u', (settled (resume 0 w m) = settled m ++ [u']
                     ∨ stranded (resume 0 w m) = [u'])
                    ∧ Task.id u' = Task.id u ∧ Task.status u' = failed) as Hend.
      { eexists. split; [by right|]. done. }
      unfold survives in Hsur. rewrite Hdb in Hsur.
      destruct (routine w (db m) u) as [c|err|text]; [|done..].
      destruct (LocalDatabase.bindValue _) as [hash|]; [|done].
      by rewrite bool_decide_eq_true_2 in Hsur.
Qed.

(** C5 as stated fails: the game master source has the marker [abc] on
    record; a task for it completes while the request for the current
    commit is rejected.  Nothing was fetched, and the marker on record is
    NULL afterwards. *)
Lemma completion_without_commit_clears_marker :
  let m := run [CallQueueUpdate gamemaster_source] (constructor store_with_marker) in
  let m' := step (Settle 0 commits_down) m in
  last_completed_marker (db m) "pvpoke-gamemaster" = JsonString "abc"
  ∧ fetch commits_down (commits_main (Source.repositoryUrl gamemaster_source))
    = FetchError
  ∧ (λ u, (Task.sourceId u, Task.status u)) <$> drains m
    = [("pvpoke-gamemaster", in_progress)]
  ∧ (λ u, (Task.sourceId u, Task.status u, Task.result u)) <$> settled m'
    = [("pvpoke-gamemaster", completed, Some (0, 0))]
  ∧ last_completed_marker (db m') "pvpoke-gamemaster" = JsonNull.
Proof. repeat split; by vm_compute. Qed.

(** ** A payload that cannot be fetched *)

Lemma loadJsonFile_fetch_error (w : World) (path : string) :
  fetch w path = FetchError → loadJsonFile w path = JsonNull.
Proof. intros Hfetch. unfold loadJsonFile. by rewrite Hfetch. Qed.

Lemma rankings_loop_fetch_error (w : World) (todo : list (string * string))
  (counts : nat * nat) :
  Forall (λ path, fetch w path = FetchError) (rankingsPath <$> leagues) →
  Forall (λ x, x.1 ∈ leagues) todo →
  rankings_loop w todo counts = Normal counts.
Proof.
  intros Hfetch. induction todo as [|[league scenario] todo IH]; intros Htodo; [done|].
  apply Forall_cons in Htodo as [Hl Htodo]. cbn [rankings_loop].
  rewrite loadJsonFile_fetch_error; [by apply IH|].
  eapply Forall_forall in Hfetch; [exact Hfetch|].
  apply list_elem_of_fmap. by exists league.
Qed.

(** The routine of a task whose payload is out of reach, kind by kind. *)
Lemma routine_fetch_error (w : World) (d : Store) (u : Task.t) :
  Forall (λ path, fetch w path = FetchError) (payloads (Source.type (Task.source u))) →
  routine w d u
  = if decide (Source.type (Task.source u) ∈ ["rankings"; "tiers"])
    then Normal (0, 0)
    else Throw (if decide (Source.type (Task.source u) = "gamemaster")
                then GameMaster_failure
                else "Unknown source type: " +:+ Source.type (Task.source u)).
Proof.
  unfold routine, payloads. intros Hfetch.
  destruct (String.eqb_spec (Source.type (Task.source u)) "gamemaster") as [Hg|Hg].
  { rewrite Forall_singleton in Hfetch. unfold updateGameMaster.
    rewrite loadJsonFile_fetch_error by done. rewrite Hg.
    rewrite decide_False by (rewrite !elem_of_cons, elem_of_nil; intros [?|[?|?]]; done). by rewrite decide_True. }
  destruct (String.eqb_spec (Source.type (Task.source u)) "rankings") as [Hr|Hr].
  { unfold updateRankings. rewrite rankings_loop_fetch_error; [|done|by_evaluation].
    rewrite Hr. by rewrite decide_True by by_evaluation. }
  destruct (String.eqb_spec (Source.type (Task.source u)) "tiers") as [Ht|Ht].
  { rewrite Forall_singleton in Hfetch. unfold updateTiers.
    rewrite loadJsonFile_fetch_error by done. rewrite Ht.
    by rewrite decide_True by by_evaluation. }
  rewrite decide_False, decide_False; [done..|].
  rewrite !elem_of_cons, elem_of_nil. tauto.
Qed.

(** C6, as the code has it.  The payload of the task in progress cannot be
    fetched.  A rankings or a tiers task, the hash read at its completion
    being one that can be stored, is settled as completed with no record
    added or modified and without an error message, its audit row says the
    same, and the marker on record for its source is set to that hash.  A
    task of any other kind is settled as failed with a message that is not
    empty, for a game master task the one of [updateGameMaster]; its audit
    row says the same and no marker moves.  Either way the loop goes on: it
    dequeues the next task of the queue and, the audit row of that task
    inserted, awaits it; the queue being empty, it stops. *)
Theorem payload_fetch_failure (events : list Event) (database : Store)
  (w : World) (u : Task.t) :
  let m := run events (constructor database) in
  let m' := step (Settle 0 w) m in
  let type := Source.type (Task.source u) in
  drains m !! 0 = Some u →
  Forall (λ path, fetch w path = FetchError) (payloads type) →
  (type ∈ ["rankings"; "tiers"] →
   is_Some (LocalDatabase.bindValue (getCurrentGitHash w (Task.source u)))) →
  (∃ u' r,
      settled m' = settled m ++ [u'] ∧ Task.id u' = Task.id u
      ∧ r ∈ fact_data_updates (db m')
      ∧ Task.databaseId u' = Some (Row.pk_update_id r)
      ∧ if decide (type ∈ ["rankings"; "tiers"])
        then Task.status u' = completed ∧ Task.result u' = Some (0, 0)
             ∧ Row.update_status r = completed
             ∧ Row.records_added r = 0 ∧ Row.records_modified r = 0
             ∧ LocalDatabase.bindValue (getCurrentGitHash w (Task.source u))
               = Some (Row.git_commit_hash r)
             ∧ last_completed_marker (db m') (Task.sourceId u)
               = Row.git_commit_hash r
        else ∃ message,
               message ≠ "" ∧ (type = "gamemaster" → message = GameMaster_failure)
               ∧ Task.status u' = failed ∧ Task.error u' = Some message
               ∧ Row.update_status r = failed
               ∧ Row.error_message r = Some message
               ∧ ∀ sourceId, last_completed_marker (db m') sourceId
                             = last_completed_marker (db m) sourceId)
  ∧ match updateQueue m with
    | [] => drains m' = [] ∧ isProcessing m' = false
    | next :: queue =>
        updateQueue m' = queue
        ∧ Task.id <$> shifted m' = (Task.id <$> shifted m) ++ [Task.id next]
        ∧ (update_type_CHECK (Source.type (Task.source next)) = true →
           ∃ n, drains m' = [n] ∧ Task.id n = Task.id next
                ∧ Task.status n = in_progress)
    end.
Proof.
  intros m m' type Hu Hfetch Hbind. subst m'. cbn [step].
  pose proof (Consistent_run events database) as Hcon. fold m in Hcon.
  destruct (Consistent_inflight m 0 u Hcon Hu)
    as (_ & Hp & Hd & Hstr & r & rest & Hrows & Hdb).
  destruct Hcon as [HC _].
  pose proof (routine_fetch_error w (db m) u Hfetch) as Hroutine. fold type in Hroutine.
  assert (survives w (db m) u = true) as Hsur.
  { apply (survives_bound w (db m) u _ Hdb). intros counts Hc. apply Hbind.
    rewrite Hroutine in Hc. by case_decide. }
  destruct (resume_busy w m u r rest HC Hp Hd Hstr Hrows Hdb Hsur)
    as (Hcon' & Hs & Hshape).
  destruct (finished_task w u (with_drains [] m)) as (Tid & Tdb & _).
  assert (is_Some (Task.databaseId u)) as Hsome by by rewrite Hdb.
  pose proof (finished_outcome w u m r Hsome) as Hout. cbn zeta in Hout.
  pose proof (resume_marker w m u r rest) as Hmark.
  destruct (outcome_row_keys w u (with_drains [] m) r) as (Kpk & _).
  change (outcome_row w u (with_drains [] m) r) with (outcome_row w u m r) in Kpk.
  split.
  - exists (finished w u (with_drains [] m)).1, (outcome_row w u m r).
    split; [done|]. split; [done|]. split.
    { destruct (updateQueue m) as [|next queue].
      - destruct Hshape as [_ ->]. by left.
      - destruct Hshape as (_ & _ & Hshape). destruct (update_type_CHECK _).
        + destruct Hshape as (n & r' & _ & _ & _ & _ & ->). right. by left.
        + destruct Hshape as (_ & _ & ->). by left. }
    split; [by rewrite Tdb, Kpk|].
    rewrite Hroutine in Hout. case_decide as Hkind.
    + destruct (Hbind Hkind) as [hash Hhash].
      destruct (Hout hash Hhash) as (O1 & O2 & _ & O4 & O5 & O6 & O7 & O8).
      rewrite O8. repeat split; try done.
      rewrite (Hmark (Task.sourceId u) HC Hp Hd Hstr Hrows Hdb), Hroutine.
      rewrite Hhash. by rewrite decide_True.
    + destruct Hout as (O1 & O2 & _ & O4 & O5).
      eexists. split; [|split; [|split; [exact O1|split; [exact O2|split;
                                 [exact O4|split; [exact O5|]]]]]].
      * case_decide; [done|]. by destruct type.
      * intros Hg. by rewrite decide_True.
      * intros sourceId.
        by rewrite (Hmark sourceId HC Hp Hd Hstr Hrows Hdb), Hroutine.
  - destruct HC as [_ _ _ _ _ _ _ _ H9].
    pose proof Hcon' as [[_ _ _ _ _ _ _ _ H9'] _].
    rewrite Hd, Hstr in H9. rewrite H9', H9, Hs.
    destruct (updateQueue m) as [|next queue].
    + by destruct Hshape as [(? & _ & ? & _) _].
    + destruct Hshape as (Hq & _ & Hshape). split; [done|].
      destruct (update_type_CHECK _).
      * destruct Hshape as (n & r' & Hdn & Hid & Hstn & _).
        assert (stranded (resume 0 w m) = []) as ->.
        { eapply (Consistent_inflight _ 0 n Hcon'). by rewrite Hdn. }
        rewrite Hdn, !fmap_app. cbn. rewrite Tid, Hid.
        split; [by rewrite ?app_nil_r, <- ?app_assoc|]. intros _. by exists n.
      * destruct Hshape as ((_ & -> & _) & (n & -> & Hid & _) & _).
        rewrite !fmap_app. cbn. rewrite Tid, Hid.
        split; [by rewrite ?app_nil_r, <- ?app_assoc|]. done.
Qed.

Lemma payload_fetch_failure_witness :
  let m := run [CallQueueUpdate tiers_source; CallQueueUpdate gamemaster_source]
               (constructor empty_store) in
  let m' := step (Settle 0 payload_down) m in
  let u := Task.mk 1 "pokemon-resources" tiers_source in_progress 0 (JsNumber 6)
             (Some 1) None (Some 2) None None in
  drains m !! 0 = Some u
  ∧ Forall (λ path, fetch payload_down path = FetchError) (payloads "tiers")
  ∧ LocalDatabase.bindValue (getCurrentGitHash payload_down tiers_source)
    = Some (JsonString "abc")
  ∧ (∃ u', settled m' = settled m ++ [u'] ∧ Task.status u' = completed
           ∧ Task.result u' = Some (0, 0))
  ∧ last_completed_marker (db m') "pokemon-resources" = JsonString "abc".
Proof.
  intros m m' u.
  assert (drains m !! 0 = Some u) as Hu by (vm_compute; reflexivity).
  assert (Forall (λ path, fetch payload_down path = FetchError) (payloads "tiers"))
    as Hfetch by (repeat constructor).
  assert (LocalDatabase.bindValue (getCurrentGitHash payload_down tiers_source)
          = Some (JsonString "abc")) as Hbind by (vm_compute; reflexivity).
  destruct (payload_fetch_failure
              [CallQueueUpdate tiers_source; CallQueueUpdate gamemaster_source]
              empty_store payload_down u Hu Hfetch)
    as ((u' & r & Hs & _ & _ & _ & Hkind) & _).
  { intros _. exists (JsonString "abc"). exact Hbind. }
  destruct (decide (Source.type (Task.source u) ∈ ["rankings"; "tiers"]))
    as [_|Hno]; [|exfalso; apply Hno; right; left].
  destruct Hkind as (K1 & K2 & _ & _ & _ & K6 & K7).
  refine (conj Hu (conj Hfetch (conj Hbind (conj _ _)))).
  - exists u'. exact (conj Hs (conj K1 K2)).
  - refine (eq_trans K7 _).
    exact (f_equal (default JsonNull) (eq_trans (eq_sym K6) Hbind)).
Defined.

(** C6 as stated fails for a tiers task: with the payload out of reach the
    routine returns empty counts, the task is settled as completed without
    an error message and its audit row says the same, and the marker on
    record for its source moves. *)
Lemma tiers_fetch_failure_completes :
  let m := run [CallQueueUpdate tiers_source] (constructor empty_store) in
  let m' := step (Settle 0 payload_down) m in
  Source.type <$> (Task.source <$> drains m) = ["tiers"]
  ∧ fetch payload_down "pokemon-resources/pogo_pkm_tiers.json" = FetchError
  ∧ (λ u, (Task.status u, Task.error u, Task.result u)) <$> settled m'
    = [(completed, None, Some (0, 0))]
  ∧ (λ r, (Row.update_status r, Row.error_message r)) <$> fact_data_updates (db m')
    = [(completed, None)]
  ∧ last_completed_marker (db m) "pokemon-resources" = JsonNull
  ∧ last_completed_marker (db m') "pokemon-resources" = JsonString "abc".
Proof. repeat split; by vm_compute. Qed.

(** ** Start-up *)

(** What no statement of the loop assigns. *)
Lemma while_queue_frame (queue : list Task.t) (m : Manager) :
  updateSources (while_queue queue m) = updateSources m
  ∧ callbacks (while_queue queue m) = callbacks m.
Proof.
  revert m. induction queue as [|u rest IH]; intros m; [done|].
  cbn [while_queue]. rewrite processUpdate_enter_eq.
  unfold after_enter, logUpdateStart.
  cbn [Task.source Task.start generateUpdateId new_Date fst snd].
  destruct (update_type_CHECK _); [done|].
  cbn [attempt]. unfold loop_catch, logUpdateError. cbn [message_of].
  destruct (Task.databaseId _); [|done].
  match goal with |- context [while_queue rest ?x] => destruct (IH x) as [-> ->] end.
  done.
Qed.

Lemma while_queue_updateSources (queue : list Task.t) (m : Manager) :
  updateSources (while_queue queue m) = updateSources m.
Proof. apply while_queue_frame. Qed.

Lemma step_updateSources (e : Event) (m : Manager) :
  updateSources (step e m) = updateSources m.
Proof.
  destruct e as [source| |event callback|i w]; cbn [step].
  - rewrite queueUpdate_eq. unfold processUpdateQueue.
    repeat case_match; try done. by rewrite while_queue_updateSources.
  - unfold processUpdateQueue. case_match; [done|].
    by rewrite while_queue_updateSources.
  - unfold on. by destruct (Get (callbacks m) event).
  - destruct (drains m !! i) as [u|] eqn:Hu; [|by rewrite resume_idle].
    rewrite (resume_eq _ _ _ _ Hu). cbn zeta.
    destruct (finished_frame w u (with_drains (delete i (drains m)) m))
      as (_ & _ & _ & _ & _ & _ & Hsrc & _).
    destruct (survives w (db m) u); [rewrite while_queue_updateSources|];
      cbn [settle with_settled strand with_stranded updateSources]; exact Hsrc.
Qed.

(** An enqueue puts one task for the source among the waiting ones, unless
    no loop is active and the audit trail refuses the kind of the
    source. *)
Lemma queueUpdate_waiting (source : Source.t) (m : Manager) :
  Consistent m →
  isProcessing m = true ∨ update_type_CHECK (Source.type source) = true →
  waiting (queueUpdate source m) ≡ₚ waiting m ++ [source]
  ∧ settled (queueUpdate source m) = settled m.
Proof.
  intros [HC Hctl] Hkind. rewrite queueUpdate_eq. unfold waiting.
  destruct (isProcessing m) eqn:Hp.
  { cbn. split; [|done].
    by rewrite !fmap_app, Array_sort_Permutation, fmap_app, app_assoc. }
  destruct Hkind as [?|Hkind]; [done|].
  destruct Hctl as [(_ & Hq & Hd & Hst)|[(Hp' & _)|(Hp' & _)]]; [|congruence..].
  unfold processUpdateQueue.
  change (isProcessing (pushed source m)) with (isProcessing m). rewrite Hp.
  assert (updateQueue (pushed source m)
          = [Task.mk (entropy m) (Source.id source) source pending (clock m)
               (getUpdatePriority (Source.type source)) None None None None None])
    as Hqp by (cbn; by rewrite Hq).
  rewrite Hqp. cbn [orb]. rewrite bool_decide_eq_false_2 by done.
  rewrite while_queue_cons by done. cbn zeta. unfold after_enter, logUpdateStart.
  cbn [Task.source Task.start generateUpdateId new_Date fst snd].
  rewrite Hkind. cbn. by rewrite Hq, Hd.
Qed.

(** The first half of C7: with no row in the core table, every active
    source gets a task, whatever the change detector would say, and none is
    left out or enqueued twice; the kinds of the sources being ones the
    audit trail accepts. *)
Lemma performInitialDataLoad_enqueues_active (m : Manager) :
  Consistent m → fact_pokemon (db m) = [] →
  Forall (λ s, update_type_CHECK (Source.type s) = true) (updateSources m) →
  waiting (performInitialDataLoad m)
  ≡ₚ waiting m ++ filter (λ s, Source.isActive s = true) (updateSources m).
Proof.
  intros Hcon Hempty Hkinds. unfold performInitialDataLoad.
  rewrite Hempty. cbn [length]. rewrite bool_decide_eq_true_2 by done.
  set (enqueue := λ (m : Manager) (source : Source.t),
         if Source.isActive source then queueUpdate source m else m).
  assert (∀ l m, Consistent m →
            Forall (λ s, update_type_CHECK (Source.type s) = true) l →
            Consistent (foldl enqueue m l)
            ∧ waiting (foldl enqueue m l)
              ≡ₚ waiting m ++ filter (λ s, Source.isActive s = true) l) as Hfold.
  { clear. induction l as [|s l IH]; intros m Hcon Hkinds.
    - by rewrite app_nil_r.
    - apply Forall_cons in Hkinds as [Hs Hkinds].
      cbn [foldl]. unfold enqueue at 2 4. rewrite filter_cons.
      destruct (Source.isActive s) eqn:Hact.
      + rewrite decide_True by done.
        destruct (IH (queueUpdate s m)) as [Hc Hw];
          [apply (Consistent_step (CallQueueUpdate s) m Hcon)|done|].
        split; [done|]. rewrite Hw.
        destruct (queueUpdate_waiting s m Hcon) as [-> _]; [by right|].
        by rewrite <- app_assoc.
      + rewrite decide_False by done. by apply IH. }
  destruct (Hfold (updateSources m) m Hcon Hkinds) as [Hc Hw].
  rewrite processUpdateQueue_settled by apply Hc. exact Hw.
Qed.

(** C7 at the shipped configuration and an empty store.  When [initialize]
    resolves, the game master task is in progress and its audit row is
    still open, the three other tasks are pending in the queue, and no task
    has been settled: the awaited call of [processUpdateQueue] found
    [isProcessing] set by the loop that the first enqueue had started, and
    returned at once. *)
Theorem initialize_returns_before_drain :
  let r := initialize (boot empty_store) in
  let m := manager r in
  length (fact_pokemon empty_store) = 0
  ∧ (Source.isActive <$> updateSources m = [true; true; true; true])
  ∧ ((λ u, (Task.sourceId u, Task.status u)) <$> drains m
     = [("pvpoke-gamemaster", in_progress)])
  ∧ ((λ u, (Task.sourceId u, Task.status u)) <$> updateQueue m
     = [("pvpoke-rankings", pending); ("pokemon-resources", pending);
        ("dialgadex-data", pending)])
  ∧ settled m = []
  ∧ isProcessing m = true
  ∧ Row.update_status <$> fact_data_updates (db m) = [in_progress].
Proof. repeat split; by vm_compute. Qed.

(** ** Timers *)

Lemma length_filter_delete {A : Type} (P : A → Prop) `{!∀ x, Decision (P x)}
  (l : list A) (k : nat) (x : A) :
  l !! k = Some x →
  length (filter P l)
  = length (filter P (delete k l)) + (if decide (P x) then 1 else 0).
Proof.
  intros Hk. rewrite <- (take_drop_middle l k x Hk) at 1.
  rewrite delete_take_drop, !filter_app, filter_cons, !length_app.
  case_decide; cbn; lia.
Qed.

Lemma startMonitoring_fold (l : list Source.t) (r : Runtime) :
  let r' := foldl (λ r s, if Source.isActive s.2 then scheduleSourceCheck s.1 r else r)
              r (imap pair l) in
  manager r' = manager r ∧ now r' = now r ∧ checking r' = checking r
  ∧ (∀ i, length (filter (λ tm, target tm = i) (timers r'))
          = length (filter (λ tm, target tm = i) (timers r))
            + match l !! i with
              | Some s => if Source.isActive s then 1 else 0
              | None => 0
              end)
  ∧ Forall (λ tm, tm ∈ timers r ∨ due tm = (now r + 60000)%Z) (timers r').
Proof.
  induction l as [|x l IH] using rev_ind; cbn zeta.
  - cbn. split_and!; try done.
    apply Forall_forall. by left.
  - rewrite imap_app, foldl_app. cbn [imap foldl fst snd].
    destruct IH as (Hm & Hn & Hc & Hcount & Hdue).
    set (r1 := foldl _ r (imap pair l)) in *.
    assert (∀ i, (l ++ [x]) !! i
                 = if decide (i = length l) then Some x else l !! i) as Hlook.
    { intros i. case_decide as Hi.
      - subst i. by rewrite list_lookup_middle.
      - destruct (decide (i < length l)) as [Hlt|Hge].
        + by rewrite lookup_app_l.
        + rewrite !lookup_ge_None_2; [done|lia|rewrite length_app; cbn; lia]. }
    destruct (Source.isActive x) eqn:Hx.
    + unfold scheduleSourceCheck, setTimeout. cbn. split_and!; try done.
      * intros i. rewrite filter_app, length_app, Hcount, Hlook, filter_cons.
        rewrite Nat.add_0_r. cbn.
        case_decide as Hi; case_decide as Hi'; try congruence; cbn.
        -- subst i. rewrite lookup_ge_None_2 by lia. rewrite Hx. lia.
        -- lia.
      * rewrite Forall_app, Forall_singleton. split; [done|]. right. cbn. by rewrite Hn.
    + split_and!; try done.
      intros i. rewrite Hcount, Hlook. case_decide as Hi; [|done].
      subst i. rewrite lookup_ge_None_2 by lia. by rewrite Hx.
Qed.

Lemma config_lookup (m : Manager) (i : nat) :
  config m !! i
  = (λ s, (Source.isActive s, Source.checkInterval s)) <$> updateSources m !! i.
Proof. unfold config. by rewrite list_lookup_fmap. Qed.

Lemma checkSourceForUpdates_enter_config (i : nat) (m : Manager) :
  config (checkSourceForUpdates_enter i m) = config m.
Proof.
  unfold checkSourceForUpdates_enter, config.
  destruct (updateSources m !! i) as [s|] eqn:Hs; [|done].
  cbn. rewrite list_fmap_insert. apply list_insert_id.
  by rewrite list_lookup_fmap, Hs.
Qed.

Lemma checkSourceForUpdates_resume_config (w : World) (i : nat) (m : Manager) :
  config (checkSourceForUpdates_resume w i m).2 = config m.
Proof.
  unfold checkSourceForUpdates_resume, config.
  destruct (updateSources m !! i) as [s|]; [|done].
  assert (updateSources (if detectChanges w m s then queueUpdate s m else m)
          = updateSources m) as Hsame.
  { destruct (detectChanges w m s); [|done].
    change (queueUpdate s m) with (step (CallQueueUpdate s) m).
    by rewrite step_updateSources. }
  destruct (Source.lastCheckTime s); cbn [snd updateSources with_db];
    by rewrite Hsame.
Qed.

Lemma Scheduled_start (m0 : Manager) (t0 : Z) :
  let r0 := startMonitoring (mkRuntime m0 t0 [] []) in
  Scheduled (config m0) t0 r0
  ∧ manager r0 = m0 ∧ checking r0 = []
  ∧ Forall (λ tm, due tm = (t0 + 60000)%Z) (timers r0).
Proof.
  destruct (startMonitoring_fold (updateSources m0) (mkRuntime m0 t0 [] []))
    as (Hm & Hn & Hc & Hcount & Hdue).
  cbn zeta. unfold startMonitoring. cbn [manager] in *.
  set (r0 := foldl _ _ _) in *.
  assert (Forall (λ tm, due tm = (t0 + 60000)%Z) (timers r0)) as Hgrace.
  { eapply Forall_impl; [exact Hdue|]. intros tm [Hin|Hd]; [|done].
    by apply elem_of_nil in Hin. }
  split; [|done]. split.
  - by rewrite Hm.
  - intros i. unfold armed. rewrite Hc, Hcount, config_lookup. cbn.
    destruct (updateSources m0 !! i) as [s|]; [|done]. cbn.
    destruct (Source.isActive s); lia.
  - eapply Forall_impl; [exact Hgrace|]. intros tm ?. by left.
  - by rewrite Hc.
Qed.

Lemma Scheduled_step (c : list (bool * Z)) (t0 : Z) (e : TimerEvent)
  (r r' : Runtime) :
  timer_step e r = Some r' → Scheduled c t0 r → Scheduled c t0 r'.
Proof.
  intros Hstep [Hcfg Harmed Hgrace Hchk].
  destruct e as [dt|k|j w|e]; cbn [timer_step] in Hstep.
  - case_bool_decide as Hdt; [|done]. injection Hstep as <-.
    split; cbn; try done.
    + eapply Forall_impl; [exact Hgrace|]. intros tm [?|?]; [by left|right; lia].
    + intros Hne. specialize (Hchk Hne). lia.
  - destruct (timers r !! k) as [tm|] eqn:Hk; [|done].
    case_bool_decide as Hdue; [|done]. injection Hstep as <-.
    assert (t0 + 60000 ≤ now r)%Z as Hnow.
    { eapply Forall_forall in Hgrace; [|by eapply list_elem_of_lookup_2]. cbn in Hgrace. lia. }
    split; cbn -[filter].
    + by rewrite checkSourceForUpdates_enter_config.
    + intros i. rewrite <- Harmed. unfold armed. cbn -[filter].
      rewrite (length_filter_delete _ (timers r) k tm Hk).
      rewrite filter_app, length_app, filter_cons, filter_nil.
      repeat case_decide; try congruence; cbn; lia.
    + eapply Forall_impl; [by apply Forall_delete|]. done.
    + done.
  - destruct (checking r !! j) as [i|] eqn:Hj; [|done]. injection Hstep as <-.
    assert (t0 + 60000 ≤ now r)%Z as Hnow.
    { apply Hchk. intros Hnil. by rewrite Hnil in Hj. }
    pose proof (length_filter_delete (λ x, x = i) (checking r) j i Hj) as Hcount.
    rewrite decide_True in Hcount by done.
    pose proof (Harmed i) as Hi. unfold armed in Hi.
    pose proof (checkSourceForUpdates_resume_config w i (manager r)) as Hcfg'.
    unfold checkSource_settle. cbn [manager].
    destruct (checkSourceForUpdates_resume w i (manager r)) as [cpl m] eqn:Hres.
    cbn [snd] in Hcfg'.
    assert (∃ s, updateSources m !! i = Some s) as [s Hs].
    { destruct (c !! i) as [[[] ?]|] eqn:Hc; [|lia..].
      rewrite <- Hcfg, <- Hcfg', config_lookup in Hc.
      destruct (updateSources m !! i); [by eexists|done]. }
    assert (updateSources
              (manager match cpl with
                       | Normal _ | _ =>
                           with_manager m
                             (mkRuntime (manager r) (now r) (timers r)
                                        (delete j (checking r)))
                       end) = updateSources m) as Hsame by by destruct cpl.
    rewrite Hs.
    split; destruct cpl; cbn -[filter].
    1-3: by rewrite Hcfg', Hcfg.
    1-3: intros i'; rewrite <- Harmed; unfold armed; cbn -[filter];
      rewrite filter_app, length_app, filter_cons, filter_nil;
      rewrite (length_filter_delete (λ x, x = i') (checking r) j i Hj);
      repeat case_decide; cbn in *; try congruence; lia.
    1-3: rewrite Forall_app, Forall_singleton; split; [done|by right].
    1-3: done.
  - injection Hstep as <-. split; cbn; try done.
    unfold config. by rewrite step_updateSources.
Qed.

Lemma Scheduled_run (c : list (bool * Z)) (t0 : Z) (events : list TimerEvent)
  (r r' : Runtime) :
  timer_run events r = Some r' → Scheduled c t0 r → Scheduled c t0 r'.
Proof.
  revert r. induction events as [|e events IH]; intros r Hrun Hsch; cbn in Hrun.
  - by injection Hrun as <-.
  - destruct (timer_step e r) as [r1|] eqn:Hstep; [|done].
    eapply IH; [exact Hrun|]. by eapply Scheduled_step.
Qed.

(** C9.  [startMonitoring] runs no check: it arms one timer per active
    source, due a minute later.  From then on, whatever happens, the
    registry keeps its flags and intervals; every active source has exactly
    one pending timer or one check under way, an inactive one has neither;
    no check starts before the minute is over; and when a check is over,
    whatever the network answered, the timer of its source is armed again
    with the interval the source is configured with. *)
Theorem schedule_is_kept (m0 : Manager) (t0 : Z) (events : list TimerEvent)
  (r : Runtime) :
  let r0 := startMonitoring (mkRuntime m0 t0 [] []) in
  timer_run events r0 = Some r →
  (manager r0 = m0 ∧ checking r0 = []
   ∧ Forall (λ tm, due tm = (t0 + 60000)%Z) (timers r0))
  ∧ config (manager r) = config m0
  ∧ (∀ i, armed r i = match config m0 !! i with Some (true, _) => 1 | _ => 0 end)
  ∧ (∀ k r', timer_step (Fire k) r = Some r' → (t0 + 60000 ≤ now r)%Z)
  ∧ (∀ j i w, checking r !! j = Some i →
       ∃ interval r',
         config m0 !! i = Some (true, interval)
         ∧ timer_step (CheckSettles j w) r = Some r'
         ∧ timers r' = timers r ++ [mkTimer (now r + interval) i]).
Proof.
  intros r0 Hrun.
  destruct (Scheduled_start m0 t0) as (Hsch0 & Hm0 & Hc0 & Ht0).
  fold r0 in Hsch0, Hm0, Hc0, Ht0.
  destruct (Scheduled_run _ _ _ _ _ Hrun Hsch0) as [Hcfg Harmed Hgrace Hchk].
  split_and!; try done.
  - intros k r' Hfire. cbn [timer_step] in Hfire.
    destruct (timers r !! k) as [tm|] eqn:Hk; [|done].
    case_bool_decide as Hdue; [|done].
    eapply Forall_forall in Hgrace; [|by eapply list_elem_of_lookup_2].
    cbn in Hgrace. lia.
  - intros j i w Hj.
    pose proof (length_filter_delete (λ x, x = i) (checking r) j i Hj) as Hcount.
    rewrite decide_True in Hcount by done.
    pose proof (Harmed i) as Hi. unfold armed in Hi.
    destruct (config m0 !! i) as [[[] interval]|] eqn:Hc; [|lia..].
    exists interval. cbn [timer_step]. rewrite Hj. unfold checkSource_settle.
    cbn [manager].
    pose proof (checkSourceForUpdates_resume_config w i (manager r)) as Hcfg'.
    destruct (checkSourceForUpdates_resume w i (manager r)) as [cpl m].
    cbn [snd] in Hcfg'.
    rewrite <- Hcfg, <- Hcfg', config_lookup in Hc.
    assert (updateSources
              (manager match cpl with
                       | Normal _ | _ =>
                           with_manager m
                             (mkRuntime (manager r) (now r) (timers r)
                                        (delete j (checking r)))
                       end) = updateSources m) as Hsame by by destruct cpl.
    destruct (updateSources m !! i) as [s|] eqn:Hs; [|done].
    injection Hc as Hact <-.
    eexists. split; [done|]. split; [reflexivity|]. by destruct cpl.
Qed.

Lemma schedule_is_kept_witness :
  match timer_run [Elapse 60000; Fire 0; CheckSettles 0 offline; Elapse 5;
                   ManagerEvent (CallQueueUpdate tiers_source)]
          (startMonitoring (mkRuntime (constructor empty_store) 0 [] [])) with
  | Some r =>
      config (manager r) = config (constructor empty_store)
      ∧ ∀ i, armed r i
             = match config (constructor empty_store) !! i with
               | Some (true, _) => 1
               | _ => 0
               end
  | None => False
  end.
Proof.
  destruct (timer_run _ _) as [r|] eqn:Hrun.
  - destruct (schedule_is_kept (constructor empty_store) 0 _ r Hrun)
      as (_ & Hcfg & Harmed & _).
    by split.
  - vm_compute in Hrun. discriminate Hrun.
Defined.

(** * Further properties *)

(** ** What the routines count *)

(** The lookups of [updateGameMaster] go through [LocalDatabase.get], which
    runs them without their parameters: they find no row. *)
Lemma existing_never (d : Store) (entry : Json) :
  existingPokemon d entry = false ∧ existingMove d entry = false.
Proof.
  unfold existingPokemon, existingMove, LocalDatabase.get, LocalDatabase.all,
    select_pokemon, select_move.
  assert (∀ {A B} (same : A → B → bool) (rows : list A),
            filter (λ row, sql_equal same row Unbound = true) rows = []) as Hnone.
  { intros A B same rows. induction rows as [|row rows IH]; [done|].
    by rewrite filter_cons_False. }
  rewrite !Hnone. split; apply bool_decide_eq_false_2; by intros [? ?].
Qed.

Lemma upsert_added (existing : Json → bool) (key : string)
  (entries : list Json) (counts : nat * nat) :
  (∀ entry, existing entry = false) → JsonNull ∉ entries →
  upsert existing key entries counts = Normal (counts.1 + length entries, counts.2).
Proof.
  intros Hnone. revert counts.
  induction entries as [|entry entries IH]; intros [a b] Hnull.
  { cbn. by rewrite Nat.add_0_r. }
  apply not_elem_of_cons in Hnull as [Hentry Hnull].
  assert (upsert existing key (entry :: entries) (a, b)
          = upsert existing key entries (S a, b)) as ->.
  { cbn [upsert]. rewrite Hnone. by destruct entry. }
  rewrite IH by done. cbn [fst snd length]. f_equal. f_equal. lia.
Qed.

Lemma upsert_null (existing : Json → bool) (key : string)
  (entries : list Json) (counts : nat * nat) :
  JsonNull ∈ entries →
  upsert existing key entries counts = Throw (TypeError_of_null key).
Proof.
  revert counts. induction entries as [|entry entries IH]; intros counts Hnull.
  { by apply elem_of_nil in Hnull. }
  destruct entry; try done;
    (apply elem_of_cons in Hnull as [?|Hnull]; [done|]); cbn [upsert]; by apply IH.
Qed.

(** X1.  With a game master document at hand whose two lists have no [null]
    in them, [updateGameMaster] returns, and it counts every entry of the
    document as added and none as modified, whatever the store holds: its
    lookups are run without their parameters and find nothing.  With a
    [null] among the pokemon it throws. *)
Theorem updateGameMaster_counts (w : World) (d : Store) (pokemon moves : list Json) :
  truthy (loadJsonFile w "pvpoke/src/data/gamemaster.json") = true →
  member "pokemon" (loadJsonFile w "pvpoke/src/data/gamemaster.json")
  = Some (JsonArray pokemon) →
  member "moves" (loadJsonFile w "pvpoke/src/data/gamemaster.json")
  = Some (JsonArray moves) →
  (JsonNull ∉ pokemon → JsonNull ∉ moves →
   updateGameMaster w d = Normal (length pokemon + length moves, 0))
  ∧ (JsonNull ∈ pokemon → updateGameMaster w d = Throw (TypeError_of_null "dex")).
Proof.
  intros Htruthy Hpokemon Hmoves. unfold updateGameMaster.
  rewrite Htruthy, Hpokemon, Hmoves. cbn [iterate]. split.
  - intros Hp Hm.
    rewrite upsert_added; [|apply existing_never|done].
    rewrite upsert_added; [|apply existing_never|done].
    cbn [fst snd]. by rewrite Nat.add_0_l.
  - intros Hp. by rewrite upsert_null.
Qed.

Lemma updateGameMaster_counts_witness :
  let document :=
    JsonObject [("pokemon", JsonArray [JsonObject [("dex", JsonNumber 1);
                                                    ("speciesId", JsonString "bulbasaur")];
                                       JsonObject [("dex", JsonNumber 4);
                                                   ("speciesId", JsonString "charmander")]]);
                ("moves", JsonArray [JsonObject [("name", JsonString "TACKLE")]])] in
  let w := mkWorld (λ _, answers true document) in
  let d := mkStore [] ∅ [(1%Z, "bulbasaur")] ["TACKLE"] in
  loadJsonFile w "pvpoke/src/data/gamemaster.json" = document
  ∧ updateGameMaster w d = Normal (3, 0).
Proof.
  intros document w d.
  refine (conj eq_refl _).
  refine (proj1 (updateGameMaster_counts w d _ _ eq_refl eq_refl eq_refl) _ _).
  - rewrite !elem_of_cons, elem_of_nil. by intros [?|[?|?]].
  - rewrite !elem_of_cons, elem_of_nil. by intros [?|?].
Defined.

(** The record writers of the rankings and of the tiers return nothing, so
    the counting loop over a payload stops at its first entry. *)
Lemma tally_writers {A : Type} (entries : list A) (counts : nat * nat) :
  tally ((λ _, None) <$> entries) counts
  = match entries with [] => Normal counts | _ :: _ => Throw TypeError_isNew end.
Proof. by destruct entries. Qed.

Lemma rankings_loop_spec (w : World) (todo : list (string * string))
  (counts : nat * nat) :
  (Forall (λ p, nothing_to_read w (rankingsPath p.1)) todo
   ∧ rankings_loop w todo counts = Normal counts)
  ∨ (¬ Forall (λ p, nothing_to_read w (rankingsPath p.1)) todo
     ∧ ∃ e, rankings_loop w todo counts = Throw e).
Proof.
  induction todo as [|[league scenario] todo IH]; [by left|].
  cbn [rankings_loop]. unfold nothing_to_read in *.
  destruct (truthy (loadJsonFile w (rankingsPath league))) eqn:Htruthy.
  - destruct (iterate (Some (loadJsonFile w (rankingsPath league))))
      as [[|entry entries]|] eqn:Hiter.
    + cbn [fmap list_fmap tally].
      destruct IH as [[IH1 IH2]|[IH1 IH2]].
      * left. split; [|done]. constructor; [by right|done].
      * right. split; [|done]. by intros [_ ?]%Forall_cons.
    + right. split; [|by eexists].
      intros [[H|H] _]%Forall_cons; cbn [fst] in H; congruence.
    + right. split; [|by eexists].
      intros [[H|H] _]%Forall_cons; cbn [fst] in H; congruence.
  - destruct IH as [[IH1 IH2]|[IH1 IH2]].
    + left. split; [|done]. constructor; [by left|done].
    + right. split; [|done]. by intros [_ ?]%Forall_cons.
Qed.

Lemma updateTiers_spec (w : World) :
  (nothing_to_read w "pokemon-resources/pogo_pkm_tiers.json"
   ∧ updateTiers w = Normal (0, 0))
  ∨ (¬ nothing_to_read w "pokemon-resources/pogo_pkm_tiers.json"
     ∧ ∃ e, updateTiers w = Throw e).
Proof.
  unfold updateTiers, nothing_to_read.
  destruct (truthy (loadJsonFile w _)) eqn:Htruthy; [|left; split; [by left|done]].
  destruct (iterate (Some (loadJsonFile w _))) as [[|entry entries]|] eqn:Hiter.
  - left. split; [by right|done].
  - right. split; [by intros [?|?]|]. by eexists.
  - right. split; [by intros [?|?]|]. by eexists.
Qed.

(** X2.  Only a game master task can complete with counts: when the routine
    of a task of another kind returns, the kind is rankings or tiers and
    both counts are zero. *)
Theorem routine_counts_only_gamemaster (w : World) (d : Store) (u : Task.t)
  (counts : nat * nat) :
  routine w d u = Normal counts →
  Source.type (Task.source u) ≠ "gamemaster" →
  counts = (0, 0)
  ∧ (Source.type (Task.source u) = "rankings" ∨ Source.type (Task.source u) = "tiers").
Proof.
  unfold routine. intros Hr Hkind.
  destruct (String.eqb_spec (Source.type (Task.source u)) "gamemaster") as [|_]; [done|].
  destruct (String.eqb_spec (Source.type (Task.source u)) "rankings") as [Hrk|_].
  { split; [|by left]. unfold updateRankings in Hr.
    destruct (rankings_loop_spec w
                (league ← leagues; scenario ← scenarios; [(league, scenario)]) (0, 0))
      as [[_ H]|[_ [e H]]]; congruence. }
  destruct (String.eqb_spec (Source.type (Task.source u)) "tiers") as [Htr|_]; [|done].
  split; [|by right].
  destruct (updateTiers_spec w) as [[_ H]|[_ [e H]]]; congruence.
Qed.

Lemma routine_counts_only_gamemaster_witness :
  let u := Task.mk 0 "pokemon-resources" tiers_source in_progress 0 (JsNumber 6)
             None None None None None in
  routine payload_down empty_store u = Normal (0, 0)
  ∧ Source.type (Task.source u) ≠ "gamemaster"
  ∧ (0, 0) = (0, 0)
  ∧ (Source.type (Task.source u) = "rankings" ∨ Source.type (Task.source u) = "tiers").
Proof.
  intros u.
  assert (Source.type (Task.source u) ≠ "gamemaster") as Hkind by by vm_compute.
  assert (routine payload_down empty_store u = Normal (0, 0)) as Hroutine
    by (vm_compute; reflexivity).
  exact (conj Hroutine (conj Hkind
           (routine_counts_only_gamemaster payload_down empty_store u (0, 0)
              Hroutine Hkind))).
Defined.

Lemma rankings_todo (w : World) :
  Forall (λ p, nothing_to_read w (rankingsPath p.1))
         (league ← leagues; scenario ← scenarios; [(league, scenario)])
  ↔ Forall (λ league, nothing_to_read w (rankingsPath league)) leagues.
Proof.
  rewrite Forall_bind. apply Forall_iff. intros league.
  unfold scenarios. cbn. rewrite !Forall_cons. cbn. intuition.
Qed.

(** X3.  The rankings routine returns exactly when none of the three league
    files has anything to read: what [loadJsonFile] gives for it does not
    count as data ([null] for a file out of reach, but also [0], [false]
    and the empty string), or is an empty array.  The tiers routine returns
    exactly when the tiers file has nothing to read.  Otherwise they
    throw. *)
Theorem rankings_and_tiers_complete_iff (w : World) :
  ((∃ counts, updateRankings w = Normal counts)
   ↔ Forall (λ league, nothing_to_read w (rankingsPath league)) leagues)
  ∧ ((∃ counts, updateTiers w = Normal counts)
     ↔ nothing_to_read w "pokemon-resources/pogo_pkm_tiers.json")
  ∧ (∀ counts, updateRankings w = Normal counts → counts = (0, 0))
  ∧ (∀ counts, updateTiers w = Normal counts → counts = (0, 0))
  ∧ (updateRankings w = Normal (0, 0) ∨ ∃ e, updateRankings w = Throw e)
  ∧ (updateTiers w = Normal (0, 0) ∨ ∃ e, updateTiers w = Throw e).
Proof.
  unfold updateRankings.
  destruct (rankings_loop_spec w
              (league ← leagues; scenario ← scenarios; [(league, scenario)]) (0, 0))
    as [[Hall H]|[Hall [e H]]];
    destruct (updateTiers_spec w) as [[Ht Htiers]|[Ht [e' Htiers]]];
    rewrite H, Htiers; rewrite rankings_todo in Hall.
  all: split; [split; [try done; by intros [? ?]|try done; by eexists]|].
  all: split; [split; [try done; by intros [? ?]|try done; by eexists]|].
  all: split; [by intros ? [= <-]|]. 
  all: split; [by intros ? [= <-]|].
  all: split; eauto.
Qed.

(** ** How a task ends *)

Lemma while_queue_sources (queue : list Task.t) (m : Manager) :
  dim_data_sources (db (while_queue queue m)) = dim_data_sources (db m).
Proof.
  revert m. induction queue as [|u rest IH]; intros m; [done|].
  cbn [while_queue]. rewrite processUpdate_enter_eq.
  unfold after_enter, logUpdateStart.
  cbn [Task.source Task.start generateUpdateId new_Date fst snd].
  destruct (update_type_CHECK _); [done|].
  cbn [attempt]. unfold loop_catch, logUpdateError. cbn [message_of].
  destruct (Task.databaseId _); [|done].
  match goal with |- context [while_queue rest ?x] => by rewrite (IH x) end.
Qed.

(** The table of the sources across the end of an iteration. *)
Lemma resume_sources (i : nat) (w : World) (m : Manager) (u : Task.t) :
  drains m !! i = Some u →
  dim_data_sources (db (resume i w m))
  = match routine w (db m) u,
          LocalDatabase.bindValue (getCurrentGitHash w (Task.source u)),
          Task.databaseId u with
    | Normal _, Some _, Some _ =>
        alter (SourceRow.updated (Some (clock m))) (Task.sourceId u)
          (dim_data_sources (db m))
    | _, _, _ => dim_data_sources (db m)
    end.
Proof.
  intros Hu. rewrite (resume_eq _ _ _ _ Hu). cbn zeta.
  assert (dim_data_sources
            (db (if survives w (db m) u
                 then while_queue
                        (updateQueue (finished w u (with_drains (delete i (drains m)) m)).2)
                        (settle (finished w u (with_drains (delete i (drains m)) m)).1
                           (finished w u (with_drains (delete i (drains m)) m)).2)
                 else strand (finished w u (with_drains (delete i (drains m)) m)).1
                        (finished w u (with_drains (delete i (drains m)) m)).2))
          = dim_data_sources
              (db (finished w u (with_drains (delete i (drains m)) m)).2)) as ->.
  { destruct (survives w (db m) u); [by rewrite while_queue_sources|done]. }
  unfold finished. cbn [with_drains db].
  destruct (routine w (db m) u); [destruct (LocalDatabase.bindValue _)|..];
    by destruct (Task.databaseId u).
Qed.

Lemma resume_head_row (w : World) (m : Manager) (u : Task.t) (r : Row.t)
  (rest : list Row.t) :
  Core m → isProcessing m = true → drains m = [u] → stranded m = [] →
  fact_data_updates (db m) = r :: rest →
  Task.databaseId u = Some (Row.pk_update_id r) →
  survives w (db m) u = true →
  outcome_row w u m r ∈ fact_data_updates (db (resume 0 w m)).
Proof.
  intros HC Hp Hd Hst Hrows Hdb Hsur.
  destruct (resume_busy w m u r rest HC Hp Hd Hst Hrows Hdb Hsur) as (_ & _ & Hshape).
  destruct (updateQueue m) as [|next queue].
  - destruct Hshape as [_ ->]. by left.
  - destruct Hshape as (_ & _ & Hshape). destruct (update_type_CHECK _).
    + destruct Hshape as (n & r' & _ & _ & _ & _ & ->). right. by left.
    + destruct Hshape as (_ & _ & ->). by left.
Qed.

(** X4.  The routine of the task in progress returns its counts, and the
    hash that [getCurrentGitHash] returns at that moment is one that can be
    stored: the task is settled as completed with these counts as its
    result; its audit row is set to completed with the same counts and with
    that hash (NULL when the request for it failed); in the table of the
    sources the row of the task's source gets the end time of the task as
    its last update, and nothing else in that table changes. *)
Theorem completion_is_recorded (events : list Event) (database : Store)
  (w : World) (u : Task.t) (counts : nat * nat) (hash : Json) :
  let m := run events (constructor database) in
  let m' := step (Settle 0 w) m in
  drains m !! 0 = Some u →
  routine w (db m) u = Normal counts →
  LocalDatabase.bindValue (getCurrentGitHash w (Task.source u)) = Some hash →
  ∃ u' r,
    settled m' = settled m ++ [u'] ∧ Task.id u' = Task.id u
    ∧ Task.status u' = completed ∧ Task.result u' = Some counts
    ∧ r ∈ fact_data_updates (db m')
    ∧ Task.databaseId u' = Some (Row.pk_update_id r)
    ∧ Row.update_status r = completed
    ∧ Row.records_added r = counts.1 ∧ Row.records_modified r = counts.2
    ∧ Row.git_commit_hash r = hash
    ∧ is_Some (Task.endTime u')
    ∧ dim_data_sources (db m')
      = alter (SourceRow.updated (Task.endTime u')) (Source.id (Task.source u))
          (dim_data_sources (db m)).
Proof.
  intros m m' Hu Hret Hbind. subst m'. cbn [step].
  pose proof (Consistent_run events database) as Hcon. fold m in Hcon.
  clearbody m.
  destruct (Consistent_inflight m 0 u Hcon Hu)
    as (_ & Hp & Hd & Hstr & r & rest & Hrows & Hdb).
  destruct Hcon as [HC _].
  assert (survives w (db m) u = true) as Hsur.
  { apply (survives_bound w (db m) u _ Hdb). intros _ _. by rewrite Hbind. }
  destruct (resume_busy w m u r rest HC Hp Hd Hstr Hrows Hdb Hsur) as (_ & Hs & _).
  pose proof (resume_head_row w m u r rest HC Hp Hd Hstr Hrows Hdb Hsur) as Hin.
  pose proof (resume_sources 0 w m u Hu) as Hsrc.
  assert (Task.sourceId u = Source.id (Task.source u)) as Hsid.
  { destruct HC as [_ _ H2 _ _ _ _ _ _]. rewrite Hd in H2.
    apply Forall_app in H2 as [_ H2]. by rewrite Forall_singleton in H2. }
  destruct (finished_task w u (with_drains [] m)) as (Tid & Tdb & _).
  assert (is_Some (Task.databaseId u)) as Hsome by by rewrite Hdb.
  pose proof (finished_outcome w u m r Hsome) as Hout. cbn zeta in Hout.
  rewrite Hret in Hout. rewrite Hret, Hbind, Hdb in Hsrc.
  destruct (Hout hash Hbind) as (Hst & Hres & _ & Hrst & Hadd & Hmod & _ & Hhash).
  destruct (outcome_row_keys w u (with_drains [] m) r) as (Kpk & _).
  change (outcome_row w u (with_drains [] m) r) with (outcome_row w u m r) in Kpk.
  exists (finished w u (with_drains [] m)).1, (outcome_row w u m r).
  do 5 (split; [done|]). split; [by rewrite Tdb, Kpk|].
  do 4 (split; [done|]).
  rewrite Hsrc, Hsid. unfold finished. cbn [with_drains db clock].
  rewrite Hret, Hbind, Hdb. cbn. by eauto.
Qed.

Lemma completion_is_recorded_witness :
  let m := run [CallQueueUpdate tiers_source] (constructor empty_store) in
  let m' := step (Settle 0 payload_down) m in
  ∃ u' r,
    settled m' = settled m ++ [u']
    ∧ Task.status u' = completed ∧ Task.result u' = Some (0, 0)
    ∧ r ∈ fact_data_updates (db m')
    ∧ Row.update_status r = completed
    ∧ Row.git_commit_hash r = JsonString "abc".
Proof.
  intros m m'.
  assert (drains m !! 0
          = Some (Task.mk 1 "pokemon-resources" tiers_source in_progress 0
                    (JsNumber 6) (Some 1) None (Some 2) None None)) as Hu
    by (vm_compute; reflexivity).
  assert (LocalDatabase.bindValue (getCurrentGitHash payload_down tiers_source)
          = Some (JsonString "abc")) as Hbind by (vm_compute; reflexivity).
  destruct (completion_is_recorded [CallQueueUpdate tiers_source] empty_store
              payload_down _ (0, 0) (JsonString "abc") Hu eq_refl Hbind)
    as (u' & r & H1 & _ & H3 & H4 & H5 & _ & H7 & _ & _ & H10 & _).
  exists u', r. exact (conj H1 (conj H3 (conj H4 (conj H5 (conj H7 H10))))).
Defined.

(** X5.  The routine of the task in progress throws, whatever the error: the
    task is settled as failed with the message of the error, its audit row
    is set to failed with the same message, and the table of the sources is
    left as it was. *)
Theorem failure_is_recorded (events : list Event) (database : Store)
  (w : World) (u : Task.t) (message : string) :
  let m := run events (constructor database) in
  let m' := step (Settle 0 w) m in
  drains m !! 0 = Some u →
  routine w (db m) u = Throw message →
  ∃ u' r,
    settled m' = settled m ++ [u'] ∧ Task.id u' = Task.id u
    ∧ Task.status u' = failed ∧ Task.error u' = Some message
    ∧ Task.result u' = Task.result u
    ∧ r ∈ fact_data_updates (db m')
    ∧ Task.databaseId u' = Some (Row.pk_update_id r)
    ∧ Row.update_status r = failed
    ∧ Row.error_message r = Some message
    ∧ dim_data_sources (db m') = dim_data_sources (db m).
Proof.
  intros m m' Hu Hthrow. subst m'. cbn [step].
  pose proof (Consistent_run events database) as Hcon. fold m in Hcon.
  clearbody m.
  destruct (Consistent_inflight m 0 u Hcon Hu)
    as (_ & Hp & Hd & Hstr & r & rest & Hrows & Hdb).
  destruct Hcon as [HC _].
  assert (survives w (db m) u = true) as Hsur.
  { apply (survives_bound w (db m) u _ Hdb). intros c Hc. congruence. }
  destruct (resume_busy w m u r rest HC Hp Hd Hstr Hrows Hdb Hsur) as (_ & Hs & _).
  pose proof (resume_head_row w m u r rest HC Hp Hd Hstr Hrows Hdb Hsur) as Hin.
  pose proof (resume_sources 0 w m u Hu) as Hsrc.
  destruct (finished_task w u (with_drains [] m)) as (Tid & Tdb & _).
  assert (is_Some (Task.databaseId u)) as Hsome by by rewrite Hdb.
  pose proof (finished_outcome w u m r Hsome) as Hout. cbn zeta in Hout.
  rewrite Hthrow in Hout, Hsrc. destruct Hout as (Hst & Herr & Hres & Hrst & Hrerr).
  destruct (outcome_row_keys w u (with_drains [] m) r) as (Kpk & _).
  change (outcome_row w u (with_drains [] m) r) with (outcome_row w u m r) in Kpk.
  exists (finished w u (with_drains [] m)).1, (outcome_row w u m r).
  do 6 (split; [done|]). split; [by rewrite Tdb, Kpk|]. done.
Qed.

Lemma failure_is_recorded_witness :
  let moves_source :=
    Source.mk "pvpoke-moves" "PvPoke Moves" "moves"
      "https://github.com/pvpoke/pvpoke.git" "src/data/moves.json" 1000 None None true in
  let m := run [CallQueueUpdate moves_source] (constructor empty_store) in
  let m' := step (Settle 0 payload_down) m in
  ∃ u' r,
    settled m' = settled m ++ [u']
    ∧ Task.status u' = failed ∧ Task.error u' = Some "Unknown source type: moves"
    ∧ r ∈ fact_data_updates (db m')
    ∧ Row.update_status r = failed
    ∧ Row.error_message r = Some "Unknown source type: moves"
    ∧ dim_data_sources (db m') = dim_data_sources (db m).
Proof.
  intros moves_source m m'.
  destruct (failure_is_recorded [CallQueueUpdate moves_source] empty_store
              payload_down
              (Task.mk 1 "pvpoke-moves" moves_source in_progress 0 (JsNumber 4)
                 (Some 1) None (Some 2) None None) "Unknown source type: moves"
              eq_refl eq_refl)
    as (u' & r & H1 & _ & H3 & H4 & _ & H6 & _ & H8 & H9 & H10).
  exists u', r. exact (conj H1 (conj H3 (conj H4 (conj H6 (conj H8 (conj H9 H10)))))).
Defined.

(** X6.  What the change detector answers right after a completed update of
    a source.  The hash of the update is on record, but the detector does
    not get to see it: [getLastKnownHash] runs its statement through
    [LocalDatabase.get], which leaves the parameter unbound, and answers
    [null].  So a source counts as changed exactly when the commit now
    fetched is anything but [null], also when it is the commit that was
    just recorded. *)
Theorem detection_after_completion (events : list Event) (database : Store)
  (w w' : World) (u : Task.t) (counts : nat * nat) (hash : Json) :
  let m := run events (constructor database) in
  let m' := step (Settle 0 w) m in
  drains m !! 0 = Some u →
  routine w (db m) u = Normal counts →
  LocalDatabase.bindValue (getCurrentGitHash w (Task.source u)) = Some hash →
  last_completed_marker (db m') (Task.sourceId u) = hash
  ∧ getLastKnownHash (db m') (Task.source u) = JsonNull
  ∧ detectChanges w' m' (Task.source u)
    = negb (strictly_equal (getCurrentGitHash w' (Task.source u)) (Some JsonNull)).
Proof.
  intros m m' Hu Hret Hbind. subst m'. cbn [step].
  pose proof (Consistent_run events database) as Hcon. fold m in Hcon.
  clearbody m.
  destruct (Consistent_inflight m 0 u Hcon Hu)
    as (_ & Hp & Hd & Hstr & r & rest & Hrows & Hdb).
  destruct Hcon as [HC _].
  split; [|split].
  - rewrite (resume_marker w m u r rest _ HC Hp Hd Hstr Hrows Hdb), Hret, Hbind.
    by rewrite decide_True.
  - apply getLastKnownHash_null.
  - unfold detectChanges. by rewrite getLastKnownHash_null.
Qed.

Lemma detection_after_completion_witness :
  let m := run [CallQueueUpdate tiers_source] (constructor empty_store) in
  let m' := step (Settle 0 payload_down) m in
  last_completed_marker (db m') "pokemon-resources" = JsonString "abc"
  ∧ getCurrentGitHash payload_down tiers_source = Some (JsonString "abc")
  ∧ detectChanges payload_down m' tiers_source = true
  ∧ detectChanges offline m' tiers_source = false.
Proof.
  intros m m'.
  assert (drains m !! 0
          = Some (Task.mk 1 "pokemon-resources" tiers_source in_progress 0
                    (JsNumber 6) (Some 1) None (Some 2) None None)) as Hu
    by (vm_compute; reflexivity).
  assert (LocalDatabase.bindValue (getCurrentGitHash payload_down tiers_source)
          = Some (JsonString "abc")) as Hbind by (vm_compute; reflexivity).
  assert (getCurrentGitHash payload_down tiers_source = Some (JsonString "abc"))
    as Hhash by (vm_compute; reflexivity).
  pose proof (λ w', detection_after_completion [CallQueueUpdate tiers_source]
                      empty_store payload_down w' _ (0, 0) (JsonString "abc")
                      Hu eq_refl Hbind) as H.
  destruct (H payload_down) as (H1 & _ & H2). destruct (H offline) as (_ & _ & H3).
  refine (conj H1 (conj Hhash (conj _ _))).
  - refine (eq_trans H2 _). cbn [Task.source]. by rewrite Hhash.
  - exact H3.
Defined.

(** ** Listeners *)

Lemma heard_listeners (event : string) (u : Task.t) (m : Manager) :
  heard event u m = notified m ++ call_all event u (listeners event m).
Proof.
  unfold heard, listeners. destruct (callbacks m !! event); [done|].
  by rewrite app_nil_r.
Qed.

Lemma while_queue_callbacks (queue : list Task.t) (m : Manager) :
  callbacks (while_queue queue m) = callbacks m.
Proof. apply while_queue_frame. Qed.

(** What the loop adds to the record of calls and of dequeues when it is at
    its test: the listeners of [onUpdateStart] are called before the audit
    row is inserted. *)
Lemma while_queue_history (queue : list Task.t) (m : Manager) :
  match queue with next :: _ => Task.databaseId next = None | [] => True end →
  notified (while_queue queue m)
  = notified m ++ match queue with
                  | [] => []
                  | next :: _ =>
                      call_all "onUpdateStart" next (listeners "onUpdateStart" m)
                  end
  ∧ Task.id <$> shifted (while_queue queue m)
    = (Task.id <$> shifted m)
      ++ match queue with [] => [] | next :: _ => [Task.id next] end.
Proof.
  destruct queue as [|u rest]; [by rewrite !app_nil_r|]. intros Hdb.
  rewrite while_queue_cons by done. cbn zeta. unfold after_enter, announce, logUpdateStart.
  cbn [Task.source Task.start generateUpdateId new_Date fst snd].
  destruct (update_type_CHECK _);
    cbn [with_entropy with_db with_notified with_drains with_shifted with_updateQueue
         strand with_stranded notified shifted fst snd];
    by rewrite heard_listeners, fmap_app.
Qed.

Lemma finished_notified (w : World) (u : Task.t) (m : Manager) :
  is_Some (Task.databaseId u) →
  notified (finished w u m).2
  = notified m
    ++ match routine w (db m) u,
             LocalDatabase.bindValue (getCurrentGitHash w (Task.source u)) with
       | Normal _, Some _ =>
           call_all "onUpdateComplete" u (listeners "onUpdateComplete" m)
       | Throw _, _ => call_all "onUpdateError" u (listeners "onUpdateError" m)
       | _, _ => []
       end.
Proof.
  intros [k Hk]. unfold finished. rewrite Hk.
  destruct (routine w (db m) u) as [c|e|text];
    [destruct (LocalDatabase.bindValue _)|..];
    cbn [snd recorded_complete recorded_failed announce with_notified with_db notified
         new_Date];
    by rewrite ?heard_listeners, ?app_nil_r.
Qed.

(** X7.  When the routine of the task in progress is over, the listeners of
    one event are called, each of them once, in the order of registration,
    with that task: those of [onUpdateError] if the routine threw, those of
    [onUpdateComplete] if it returned and the hash read at that moment could
    be stored.  The loop then calls the listeners of [onUpdateStart] with
    the next task of the queue, if there is one.  If the routine returned
    and the hash could not be stored, no listener is called at all.  No
    other listener is called. *)
Theorem listeners_called_at_settle (events : list Event) (database : Store)
  (w : World) (u : Task.t) :
  let m := run events (constructor database) in
  drains m !! 0 = Some u →
  let starting :=
    match updateQueue m with
    | [] => []
    | next :: _ => call_all "onUpdateStart" next (listeners "onUpdateStart" m)
    end in
  notified (step (Settle 0 w) m)
  = notified m
    ++ match routine w (db m) u,
             LocalDatabase.bindValue (getCurrentGitHash w (Task.source u)) with
       | Normal _, Some _ =>
           call_all "onUpdateComplete" u (listeners "onUpdateComplete" m) ++ starting
       | Throw _, _ =>
           call_all "onUpdateError" u (listeners "onUpdateError" m) ++ starting
       | _, _ => []
       end.
Proof.
  intros m Hu starting. cbn [step].
  pose proof (Consistent_run events database) as Hcon. fold m in Hcon. clearbody m.
  destruct (Consistent_inflight m 0 u Hcon Hu)
    as (_ & Hp & Hd & Hstr & r & rest & Hrows & Hdb).
  destruct Hcon as [HC _].
  assert (is_Some (Task.databaseId u)) as Hsome by by rewrite Hdb.
  set (m0 := with_drains (delete 0 (drains m)) m).
  pose proof (finished_notified w u m0 Hsome) as Hfin.
  destruct (finished_frame w u m0) as (Hq & _ & _ & _ & _ & Hcb & _).
  change (db m0) with (db m) in Hfin. change (notified m0) with (notified m) in Hfin.
  change (updateQueue m0) with (updateQueue m) in Hq.
  change (callbacks m0) with (callbacks m) in Hcb.
  change (listeners ?e m0) with (listeners e m) in Hfin.
  rewrite (resume_eq _ _ _ _ Hu). cbn zeta. fold m0.
  destruct (survives w (db m) u) eqn:Hsur.
  - destruct (while_queue_history (updateQueue (finished w u m0).2)
                (settle (finished w u m0).1 (finished w u m0).2)) as [-> _].
    { rewrite Hq. destruct HC as [_ H0 _ _ _ _ _ _ _].
      destruct (updateQueue m); [done|]. by apply Forall_cons in H0 as [? _]. }
    rewrite Hq. change (notified (settle ?a ?b)) with (notified b).
    rewrite Hfin, <- app_assoc. f_equal.
    assert (match updateQueue m with
            | [] => []
            | next :: _ =>
                call_all "onUpdateStart" next
                  (listeners "onUpdateStart"
                     (settle (finished w u m0).1 (finished w u m0).2))
            end = starting) as ->.
    { unfold starting, listeners. cbn [settle with_settled callbacks]. by rewrite Hcb. }
    unfold survives in Hsur. rewrite Hdb in Hsur.
    destruct (routine w (db m) u); [|done..].
    destruct (LocalDatabase.bindValue _); [done|].
    by rewrite bool_decide_eq_false_2 in Hsur by by intros [? ?].
  - change (notified (strand ?a ?b)) with (notified b). rewrite Hfin. f_equal.
    unfold survives in Hsur. rewrite Hdb in Hsur.
    destruct (routine w (db m) u); [|done..].
    destruct (LocalDatabase.bindValue _); [|done].
    by rewrite bool_decide_eq_true_2 in Hsur.
Qed.

Lemma listeners_called_at_settle_witness :
  let m := run [CallQueueUpdate gamemaster_source; CallQueueUpdate tiers_source;
                CallOn "onUpdateError" (mkListener 2 true);
                CallOn "onUpdateError" (mkListener 1 false);
                CallOn "onUpdateStart" (mkListener 3 false)]
               (constructor empty_store) in
  Task.id <$> drains m = [1] ∧ Task.id <$> updateQueue m = [3]
  ∧ notified (step (Settle 0 offline) m)
    = [mkNotification "onUpdateError" 2 1; mkNotification "onUpdateError" 1 1;
       mkNotification "onUpdateStart" 3 3].
Proof.
  intros m. split; [done|]. split; [done|].
  exact (listeners_called_at_settle
           [CallQueueUpdate gamemaster_source; CallQueueUpdate tiers_source;
            CallOn "onUpdateError" (mkListener 2 true);
            CallOn "onUpdateError" (mkListener 1 false);
            CallOn "onUpdateStart" (mkListener 3 false)] empty_store offline
           (Task.mk 1 "pvpoke-gamemaster" gamemaster_source in_progress 0
              (JsNumber 10) (Some 1) None (Some 2) None None) eq_refl).
Defined.

Lemma step_history (e : Event) (m : Manager) :
  Consistent m →
  ∃ calls dequeued,
    notified (step e m) = notified m ++ calls
    ∧ Task.id <$> shifted (step e m) = (Task.id <$> shifted m) ++ dequeued
    ∧ Forall (λ n, event_name n ∈ ["onUpdateStart"; "onUpdateComplete"; "onUpdateError"]
                   ∧ about n ∈ (Task.id <$> shifted m) ++ dequeued) calls.
Proof.
  intros Hcon.
  assert (∀ queue m0,
            match queue with next :: _ => Task.databaseId next = None | [] => True end →
            ∃ calls dequeued,
              notified (while_queue queue m0) = notified m0 ++ calls
              ∧ Task.id <$> shifted (while_queue queue m0)
                = (Task.id <$> shifted m0) ++ dequeued
              ∧ Forall (λ n, event_name n ∈ ["onUpdateStart"; "onUpdateComplete";
                                              "onUpdateError"]
                             ∧ about n ∈ (Task.id <$> shifted m0) ++ dequeued) calls)
    as Hloop.
  { intros queue m0 Hdb. destruct (while_queue_history queue m0 Hdb) as [-> ->].
    eexists _, _. split; [done|]. split; [done|].
    destruct queue as [|next rest]; [constructor|].
    unfold call_all. apply Forall_fmap, Forall_forall. intros cb _. cbn.
    split; [by left|]. apply elem_of_app. right. by left. }
  assert (∃ calls dequeued,
            notified (processUpdateQueue m) = notified m ++ calls
            ∧ Task.id <$> shifted (processUpdateQueue m)
              = (Task.id <$> shifted m) ++ dequeued
            ∧ Forall (λ n, event_name n ∈ ["onUpdateStart"; "onUpdateComplete";
                                            "onUpdateError"]
                           ∧ about n ∈ (Task.id <$> shifted m) ++ dequeued) calls)
    as Hdrain.
  { rewrite processUpdateQueue_settled by apply Hcon.
    exists [], []. by rewrite !app_nil_r. }
  destruct e as [source| |event callback|i w]; cbn [step].
  - rewrite queueUpdate_eq. destruct (isProcessing m) eqn:Hp.
    + exists [], []. by rewrite !app_nil_r.
    + unfold processUpdateQueue. case_match.
      * exists [], []. by rewrite !app_nil_r.
      * apply (Hloop _ (with_isProcessing true (pushed source m))).
        destruct Hcon as [_ [(_ & Hq & _)|[(Hp' & _)|(Hp' & _)]]]; [|congruence..].
        cbn. by rewrite Hq.
  - exact Hdrain.
  - exists [], []. rewrite !app_nil_r. unfold on.
    by destruct (Get (callbacks m) event).
  - destruct (drains m !! i) as [u|] eqn:Hu.
    2:{ rewrite resume_idle by done. exists [], []. by rewrite !app_nil_r. }
    destruct (Consistent_inflight m i u Hcon Hu)
      as (-> & Hp & Hd & Hstr & r & rest & Hrows & Hdb).
    destruct Hcon as [HC _].
    assert (is_Some (Task.databaseId u)) as Hsome by by rewrite Hdb.
    rewrite (resume_eq _ _ _ _ Hu). cbn zeta.
    set (m0 := with_drains (delete 0 (drains m)) m).
    pose proof (finished_notified w u m0 Hsome) as Hfin.
    destruct (finished_frame w u m0) as (Hq & Hsh & _).
    change (shifted m0) with (shifted m) in *.
    change (notified m0) with (notified m) in *.
    change (updateQueue m0) with (updateQueue m) in Hq.
    assert (Forall (λ n, event_name n ∈ ["onUpdateStart"; "onUpdateComplete";
                                          "onUpdateError"]
                         ∧ about n ∈ Task.id <$> shifted m)
              match routine w (db m0) u,
                    LocalDatabase.bindValue (getCurrentGitHash w (Task.source u)) with
              | Normal _, Some _ =>
                  call_all "onUpdateComplete" u (listeners "onUpdateComplete" m0)
              | Throw _, _ => call_all "onUpdateError" u (listeners "onUpdateError" m0)
              | _, _ => []
              end) as Hclosing.
    { assert (Task.id u ∈ Task.id <$> shifted m) as Hin.
      { destruct HC as [_ _ _ _ _ _ _ _ H9]. rewrite H9, Hd, !fmap_app.
        apply elem_of_app. right. apply elem_of_app. left. by left. }
      destruct (routine w (db m0) u); [destruct (LocalDatabase.bindValue _)|..];
        try constructor; unfold call_all; apply Forall_fmap, Forall_forall;
        intros cb _; cbn; (split; [|done]).
      - right. by left.
      - right. right. by left. }
    destruct (survives w (db m) u).
    + destruct (Hloop (updateQueue (finished w u m0).2)
                  (settle (finished w u m0).1 (finished w u m0).2))
        as (calls & dequeued & Hn & Hs & Hcalls).
      { rewrite Hq. destruct HC as [_ H0 _ _ _ _ _ _ _].
        destruct (updateQueue m); [done|]. by apply Forall_cons in H0 as [? _]. }
      cbn [settle with_settled notified shifted] in Hn, Hs, Hcalls.
      rewrite Hsh in Hs, Hcalls. rewrite Hfin in Hn.
      rewrite Hn, Hs.
      eexists _, dequeued. split; [by rewrite <- app_assoc|]. split; [done|].
      apply Forall_app. split; [|done].
      eapply Forall_impl; [exact Hclosing|]. intros n [? ?]. split; [done|].
      apply elem_of_app. by left.
    + change (notified (strand ?a ?b)) with (notified b).
      change (shifted (strand ?a ?b)) with (shifted b).
      rewrite Hfin, Hsh. eexists _, []. split; [done|].
      split; [by rewrite app_nil_r|]. rewrite app_nil_r. exact Hclosing.
Qed.

(** X8.  Every call of a listener that the manager ever makes is a call for
    one of the three events of a task's life, and is about a task that was
    dequeued before.  The listeners of [onDataChange] are never called. *)
Theorem notifications_are_lifecycle (events : list Event) (database : Store) :
  let m := run events (constructor database) in
  Forall (λ n, event_name n ∈ ["onUpdateStart"; "onUpdateComplete"; "onUpdateError"]
               ∧ event_name n ≠ "onDataChange"
               ∧ about n ∈ Task.id <$> shifted m) (notified m).
Proof.
  induction events as [|e events IH] using rev_ind; [constructor|].
  rewrite run_snoc. cbn zeta in *.
  destruct (step_history e (run events (constructor database))
              (Consistent_run events database))
    as (calls & dequeued & -> & -> & Hcalls).
  apply Forall_app. split.
  - eapply Forall_impl; [exact IH|]. intros n (H1 & H2 & H3).
    split; [done|]. split; [done|]. apply elem_of_app. by left.
  - eapply Forall_impl; [exact Hcalls|]. intros n (H1 & H2).
    split; [done|]. split; [|done]. intros Heq. rewrite Heq in H1.
    rewrite !elem_of_cons, elem_of_nil in H1. by destruct H1 as [|[|[|[]]]].
Qed.

Lemma step_callbacks (e : Event) (m : Manager) :
  callbacks (step e m)
  = match e with
    | CallOn event callback =>
        match callbacks m !! event with
        | Some l => <[event := l ++ [callback]]> (callbacks m)
        | None => callbacks m
        end
    | _ => callbacks m
    end.
Proof.
  destruct e as [source| |event callback|i w]; cbn [step].
  - rewrite queueUpdate_eq. unfold processUpdateQueue.
    repeat case_match; try done. by rewrite while_queue_callbacks.
  - unfold processUpdateQueue. case_match; [done|].
    by rewrite while_queue_callbacks.
  - unfold on, Get. destruct (callbacks m !! event); [done|]. by case_bool_decide.
  - destruct (drains m !! i) as [u|] eqn:Hu; [|by rewrite resume_idle].
    rewrite (resume_eq _ _ _ _ Hu). cbn zeta.
    destruct (finished_frame w u (with_drains (delete i (drains m)) m))
      as (_ & _ & _ & _ & _ & Hcb & _).
    destruct (survives w (db m) u); [rewrite while_queue_callbacks|];
      cbn [settle with_settled strand with_stranded callbacks]; exact Hcb.
Qed.

(** X9.  The list of the listeners of an event only grows, and only at its
    end: a registration under a name the table has puts the callback after
    the ones registered before, also when it is registered already; no other
    operation of the manager changes the list, and none removes from it. *)
Theorem listeners_only_grow (e : Event) (m : Manager) (event : string) :
  listeners event (step e m)
  = listeners event m
    ++ match e with
       | CallOn name callback =>
           if decide (name = event ∧ is_Some (callbacks m !! name))
           then [callback] else []
       | _ => []
       end.
Proof.
  unfold listeners. rewrite step_callbacks.
  destruct e as [source| |name callback|i w]; try by rewrite app_nil_r.
  destruct (callbacks m !! name) as [l|] eqn:Hl.
  - destruct (decide (name = event)) as [->|Hne].
    + rewrite lookup_insert_eq, Hl. cbn. by rewrite decide_True by eauto.
    + rewrite lookup_insert_ne by done.
      rewrite decide_False by (by intros [? _]). by rewrite app_nil_r.
  - rewrite decide_False; [by rewrite app_nil_r|]. intros [_ [? ?]]. congruence.
Qed.

Lemma run_callbacks_keys (events : list Event) (database : Store) (key : string) :
  is_Some (callbacks (run events (constructor database)) !! key)
  ↔ key ∈ predefined_events.
Proof.
  induction events as [|e events IH] using rev_ind.
  - unfold run, constructor. cbn [foldl callbacks].
    unfold predefined_events. rewrite !elem_of_cons, elem_of_nil.
    split.
    + intros [l Hl].
      destruct (decide (key = "onUpdateStart")) as [|H1]; [tauto|].
      destruct (decide (key = "onUpdateComplete")) as [|H2]; [tauto|].
      destruct (decide (key = "onUpdateError")) as [|H3]; [tauto|].
      destruct (decide (key = "onDataChange")) as [|H4]; [tauto|].
      rewrite !lookup_insert_ne in Hl by done. by rewrite lookup_singleton_ne in Hl.
    + intros [->|[->|[->|[->|[]]]]]; by eexists.
  - rewrite run_snoc, step_callbacks, <- IH.
    destruct e as [source| |name callback|i w]; try done.
    destruct (callbacks (run events (constructor database)) !! name) as [l|] eqn:Hl;
      [|done].
    destruct (decide (name = key)) as [->|Hne].
    + rewrite lookup_insert_eq, Hl. split; by eauto.
    + by rewrite lookup_insert_ne.
Qed.

(** X10.  At every moment the listener table has the four predefined names
    and no other: a registration or a notification under any other name that
    is not a member inherited from [Object.prototype] changes nothing and
    raises nothing. *)
Theorem unknown_event_is_ignored (events : list Event) (database : Store)
  (event : string) (callback : Listener) (u : Task.t) :
  event ∉ predefined_events → event ∉ Object_prototype →
  let m := run events (constructor database) in
  on event callback m = Normal m ∧ triggerCallbacks event u m = Normal m.
Proof.
  intros Hev Hproto m. subst m. apply on_unknown_event; [|done].
  apply eq_None_not_Some. by rewrite run_callbacks_keys.
Qed.

Lemma unknown_event_is_ignored_witness :
  let m := run [CallQueueUpdate gamemaster_source] (constructor empty_store) in
  ("onProgress" ∉ predefined_events) ∧ ("onProgress" ∉ Object_prototype)
  ∧ on "onProgress" a_listener m = Normal m
  ∧ triggerCallbacks "onProgress"
      (Task.mk 1 "pvpoke-gamemaster" gamemaster_source in_progress 0
         (JsNumber 10) (Some 1) None (Some 2) None None) m = Normal m.
Proof.
  intros m.
  assert ("onProgress" ∉ predefined_events) as H1 by by_evaluation.
  assert ("onProgress" ∉ Object_prototype) as H2 by by_evaluation.
  exact (conj H1 (conj H2
           (unknown_event_is_ignored [CallQueueUpdate gamemaster_source] empty_store
              "onProgress" a_listener _ H1 H2))).
Defined.

(** ** Tasks are run once *)

Lemma Distinct_ext (m m' : Manager) :
  updateQueue m' = updateQueue m → shifted m' = shifted m →
  entropy m ≤ entropy m' → Distinct m → Distinct m'.
Proof.
  intros Hq Hs He [H0 H1 H2]. split; rewrite ?Hq, ?Hs; [done..|].
  eapply Forall_impl; [exact H2|]. intros u ?. cbn in *. lia.
Qed.

Lemma Distinct_pushed (source : Source.t) (m : Manager) :
  Distinct m → Distinct (pushed source m).
Proof.
  intros [H0 H1 H2].
  set (x := Task.mk (entropy m) (Source.id source) source pending (clock m)
              (getUpdatePriority (Source.type source)) None None None None None).
  split; cbn [pushed updateQueue shifted entropy with_updateQueue new_Date
              generateUpdateId with_entropy snd fst]; fold x.
  - by rewrite Array_sort_Permutation, Forall_app, Forall_singleton.
  - rewrite Array_sort_Permutation, app_assoc, fmap_app.
    apply NoDup_app. split; [done|]. split; [|apply NoDup_singleton].
    intros k Hk ->%list_elem_of_singleton.
    apply list_elem_of_fmap in Hk as (u & Hid & Hu).
    eapply Forall_forall in H2; [|exact Hu]. cbn in *. lia.
  - rewrite Array_sort_Permutation, app_assoc, Forall_app, Forall_singleton.
    split; [|cbn; lia].
    eapply Forall_impl; [exact H2|]. intros u ?. cbn in *. lia.
Qed.

Lemma Distinct_while_queue (m : Manager) :
  Distinct m → Distinct (while_queue (updateQueue m) m).
Proof.
  intros Hdis. destruct (updateQueue m) as [|u rest] eqn:Hq.
  { cbn. by eapply Distinct_ext; [..|exact Hdis]. }
  destruct Hdis as [H0 H1 H2]. rewrite Hq in *.
  apply Forall_cons in H0 as [Hdb H0]. rewrite while_queue_cons by done.
  cbn zeta. unfold after_enter, logUpdateStart.
  cbn [Task.source Task.start generateUpdateId new_Date fst snd].
  destruct (update_type_CHECK _); (split; cbn; [done| |]).
  1,3: rewrite <- app_assoc; rewrite !fmap_app in *; exact H1.
  all: rewrite <- app_assoc; cbn;
    rewrite Forall_app, Forall_cons in *; destruct H2 as (H2 & Hu & H3);
    (split; [|split]; [|cbn in *; lia|]);
    [eapply Forall_impl; [exact H2|]; intros d ?; cbn in *; lia
    |eapply Forall_impl; [exact H3|]; intros d ?; cbn in *; lia].
Qed.

Lemma Distinct_processUpdateQueue (m : Manager) :
  Distinct m → Distinct (processUpdateQueue m).
Proof.
  intros Hdis. unfold processUpdateQueue. case_match; [done|].
  apply (Distinct_while_queue (with_isProcessing true m)).
  by eapply Distinct_ext; [..|exact Hdis].
Qed.

Lemma Distinct_step (e : Event) (m : Manager) : Distinct m → Distinct (step e m).
Proof.
  intros Hdis. destruct e as [source| |event callback|i w]; cbn [step].
  - rewrite queueUpdate_eq. pose proof (Distinct_pushed source _ Hdis).
    case_match; [done|]. by apply Distinct_processUpdateQueue.
  - by apply Distinct_processUpdateQueue.
  - unfold on. destruct (Get (callbacks m) event); cbn; try done.
    by eapply Distinct_ext; [..|exact Hdis].
  - destruct (drains m !! i) as [u|] eqn:Hu; [|by rewrite resume_idle].
    rewrite (resume_eq _ _ _ _ Hu). cbn zeta.
    set (f := finished w u _).
    destruct (finished_frame w u (with_drains (delete i (drains m)) m))
      as (Hq & Hs & _ & _ & _ & _ & _ & He & _). fold f in Hq, Hs, He.
    assert (Distinct (settle f.1 f.2)) as Hsettled.
    { apply (Distinct_ext m); [exact Hq|exact Hs| |exact Hdis].
      cbn. rewrite He. cbn. lia. }
    destruct (survives w (db m) u).
    + by apply (Distinct_while_queue (settle f.1 f.2)).
    + by eapply Distinct_ext; [..|exact Hsettled].
Qed.

(** X11.  No task is run twice.  At every moment the settled tasks, the task
    in progress and the queued tasks are pairwise different: once [shift]
    has returned a task, that task never is in the queue again, whether it
    completed or failed.  A failed update is followed up only by a new task,
    when a later check or call enqueues its source again. *)
Theorem task_is_run_once (events : list Event) (database : Store) :
  let m := run events (constructor database) in
  NoDup (Task.id <$> (settled m ++ drains m ++ updateQueue m))
  ∧ (∀ u, u ∈ settled m → Task.id u ∉ Task.id <$> (drains m ++ updateQueue m)).
Proof.
  intros m.
  assert (Distinct m) as [_ H1 _].
  { unfold m. clear m. induction events as [|e events IH] using rev_ind.
    - split; cbn; constructor.
    - rewrite run_snoc. by apply Distinct_step. }
  destruct (Consistent_run events database) as [[_ _ _ _ _ _ _ _ H9] _]. fold m in H9.
  rewrite fmap_app, H9, <- fmap_app, <- !app_assoc in H1.
  assert (NoDup (Task.id <$> (settled m ++ drains m ++ updateQueue m))) as Hnodup.
  { refine (sublist_NoDup _ _ H1 _). apply fmap_sublist.
    apply sublist_app; [done|]. apply sublist_app; [done|].
    by apply sublist_inserts_l. }
  split; [exact Hnodup|]. intros u Hu Hin.
  rewrite fmap_app in Hnodup. apply NoDup_app in Hnodup as (_ & Hdis & _).
  apply (Hdis (Task.id u)); [|done]. apply list_elem_of_fmap. by exists u.
Qed.

(** X12.  A call of [processUpdateQueue] from outside never does anything:
    in every state the manager can be in, it returns at once and leaves the
    manager as it is.  For whenever the queue has a task, [isProcessing] is
    set: by the loop that is suspended on the one task in progress, or by a
    loop that was rejected and has left it set. *)
Theorem processUpdateQueue_is_noop (events : list Event) (database : Store) :
  let m := run events (constructor database) in
  processUpdateQueue m = m
  ∧ (updateQueue m ≠ [] → isProcessing m = true)
  ∧ (isProcessing m = true →
     (∃ u, drains m = [u] ∧ stranded m = [])
     ∨ (drains m = [] ∧ ∃ u, stranded m = [u])).
Proof.
  intros m. destruct (Consistent_run events database) as [_ Hctl]. fold m in Hctl.
  split; [by apply processUpdateQueue_settled|].
  destruct Hctl as [(Hp & Hq & _)|[(Hp & Hst & u & r & rest & Hd & _)|(Hp & Hd & Hst)]].
  - split; [done|]. congruence.
  - split; [done|]. intros _. left. by exists u.
  - split; [done|]. intros _. by right.
Qed.

(** ** One loop *)

(** X22.  At every moment at most one loop is suspended on a task, and at
    most one task that is queued, in progress or settled has the status
    [in_progress].  An enqueue that arrives while [isProcessing] is set
    starts nothing: it puts its task in the queue and returns. *)
Theorem one_loop_one_task (events : list Event) (database : Store) :
  let m := run events (constructor database) in
  length (drains m) ≤ 1
  ∧ length (filter (λ u, Task.status u = in_progress)
              (updateQueue m ++ drains m ++ settled m)) ≤ 1
  ∧ ∀ source, isProcessing m = true →
      let m1 := queueUpdate source m in
      m1 = pushed source m ∧ drains m1 = drains m ∧ shifted m1 = shifted m
      ∧ entropy m ∈ Task.id <$> updateQueue m1.
Proof.
  intros m. pose proof (Consistent_run events database) as Hcon. fold m in Hcon.
  pose proof (Consistent_drains m Hcon) as Hlen.
  split; [done|]. split.
  - destruct Hcon as [[H1 _ _ _ _ H6 _ _ _] _].
    rewrite !filter_app, !length_app.
    rewrite (filter_none_status in_progress (updateQueue m)).
    2:{ eapply Forall_impl; [exact H1|]. intros u Hu. cbn in Hu. by rewrite Hu. }
    rewrite (filter_none_status in_progress (settled m)).
    2:{ eapply Forall_impl; [exact H6|]. intros u Hu Heq. cbn in Hu.
        by rewrite Heq in Hu. }
    pose proof (length_filter (λ u, Task.status u = in_progress) (drains m)).
    cbn. lia.
  - intros source Hp m1.
    assert (m1 = pushed source m) as Hm1.
    { unfold m1. by rewrite queueUpdate_eq, Hp. }
    rewrite Hm1. do 3 (split; [done|]).
    cbn. rewrite Array_sort_Permutation, fmap_app. cbn.
    apply elem_of_app. right. by left.
Qed.

Lemma one_loop_one_task_witness :
  let m := run [CallQueueUpdate tiers_source] (constructor empty_store) in
  let m1 := queueUpdate gamemaster_source m in
  isProcessing m = true
  ∧ Task.sourceId <$> drains m1 = ["pokemon-resources"]
  ∧ Task.sourceId <$> updateQueue m1 = ["pvpoke-gamemaster"].
Proof.
  intros m m1.
  destruct (one_loop_one_task [CallQueueUpdate tiers_source] empty_store)
    as (_ & _ & H).
  destruct (H gamemaster_source eq_refl) as (H1 & H2 & _).
  refine (conj eq_refl (conj _ _)).
  - exact (eq_trans (f_equal (fmap Task.sourceId) H2) eq_refl).
  - exact (eq_trans (f_equal (λ x, Task.sourceId <$> updateQueue x) H1) eq_refl).
Defined.

(** Settling the awaited task again and again empties the queue, as long as
    the loop gets through every iteration: the one loop processes every
    task, in queue order, and then stops. *)
Lemma drain_all (ws : list World) (m : Manager) :
  Consistent m → stranded m = [] →
  Forall (λ u, update_type_CHECK (Source.type (Task.source u)) = true)
         (updateQueue m) →
  Forall (λ w, ∀ source,
            is_Some (LocalDatabase.bindValue (getCurrentGitHash w source))) ws →
  length ws = length (drains m ++ updateQueue m) →
  let m' := run (Settle 0 <$> ws) m in
  Idle m'
  ∧ Task.id <$> settled m' = Task.id <$> (settled m ++ drains m ++ updateQueue m).
Proof.
  revert m. induction ws as [|w ws IH]; intros m Hcon Hstr Hkinds Hws Hlen; cbn zeta.
  - destruct Hcon as [_ [Hidle|[(_ & _ & u & _ & _ & Hd & _)|(_ & _ & u & Hu)]]].
    + split; [done|]. destruct Hidle as (_ & -> & -> & _). by rewrite !app_nil_r.
    + rewrite Hd in Hlen. done.
    + by rewrite Hstr in Hu.
  - apply Forall_cons in Hws as [Hw Hws].
    destruct Hcon as [HC [(_ & Hq & Hd & _)
                         |[(Hp & _ & u & r & rest & Hd & Hrows & Hdb)
                          |(_ & _ & u & Hu)]]].
    { rewrite Hq, Hd in Hlen. done. }
    2:{ by rewrite Hstr in Hu. }
    rewrite fmap_cons, run_cons. cbn [step].
    assert (survives w (db m) u = true) as Hsur.
    { apply (survives_bound w (db m) u _ Hdb). intros _ _. apply Hw. }
    destruct (resume_busy w m u r rest HC Hp Hd Hstr Hrows Hdb Hsur)
      as (Hcon1 & Hs1 & Hshape).
    destruct (finished_task w u (with_drains [] m)) as (Tid & _).
    rewrite Hd in Hlen |- *. cbn in Hlen.
    destruct (updateQueue m) as [|next queue].
    + destruct ws; [|done]. destruct Hshape as [Hidle _].
      split; [done|]. cbn [fmap list_fmap run foldl].
      rewrite Hs1, !fmap_app. cbn. by rewrite Tid.
    + apply Forall_cons in Hkinds as [Hnext Hkinds].
      destruct Hshape as (Hq1 & Hp1 & Hshape). rewrite Hnext in Hshape.
      destruct Hshape as (n & r' & Hd1 & Hid & _).
      destruct (IH (resume 0 w m) Hcon1) as [Hidle Hids].
      { eapply (Consistent_inflight _ 0 n Hcon1). by rewrite Hd1. }
      { by rewrite Hq1. }
      { done. }
      { rewrite Hd1, Hq1. cbn in *. lia. }
      split; [done|]. rewrite Hids, Hs1, Hd1, Hq1, !fmap_app. cbn.
      by rewrite Hid, Tid, <- !app_assoc.
Qed.

(** X23.  The loop gets to every task that is added while it is active, as
    long as it gets through its iterations.  Let no loop have been rejected
    so far, let the kinds of the queued tasks be ones the audit trail
    accepts, and let every answer of the commits endpoint from now on give
    a hash that can be stored: then settling the awaited tasks one after
    the other, once for the task in progress and once for each queued task,
    ends with all of them settled, in queue order, and with the loop
    stopped and [isProcessing] cleared. *)
Theorem loop_drains_queue (events : list Event) (database : Store) (ws : list World) :
  let m := run events (constructor database) in
  stranded m = [] →
  Forall (λ u, update_type_CHECK (Source.type (Task.source u)) = true)
         (updateQueue m) →
  Forall (λ w, ∀ source,
            is_Some (LocalDatabase.bindValue (getCurrentGitHash w source))) ws →
  length ws = length (drains m ++ updateQueue m) →
  let m' := run (Settle 0 <$> ws) m in
  isProcessing m' = false ∧ updateQueue m' = [] ∧ drains m' = []
  ∧ stranded m' = []
  ∧ Task.id <$> settled m' = Task.id <$> (settled m ++ drains m ++ updateQueue m).
Proof.
  intros m Hstr Hkinds Hws Hlen m'.
  destruct (drain_all ws m (Consistent_run events database) Hstr Hkinds Hws Hlen)
    as [(H1 & H2 & H3 & H4) H5].
  by repeat split.
Qed.

Lemma loop_drains_queue_witness :
  let m := run [CallQueueUpdate tiers_source; CallQueueUpdate gamemaster_source]
               (constructor empty_store) in
  let m' := run (Settle 0 <$> [offline; payload_down]) m in
  stranded m = []
  ∧ Task.sourceId <$> drains m ++ updateQueue m
    = ["pokemon-resources"; "pvpoke-gamemaster"]
  ∧ isProcessing m' = false ∧ updateQueue m' = [] ∧ drains m' = []
  ∧ Task.id <$> settled m' = Task.id <$> (settled m ++ drains m ++ updateQueue m).
Proof.
  intros m m'.
  assert (∀ source, is_Some (LocalDatabase.bindValue
                               (getCurrentGitHash offline source))) as Hoff.
  { intros source. by exists JsonNull. }
  assert (∀ source, is_Some (LocalDatabase.bindValue
                               (getCurrentGitHash payload_down source))) as Hdown.
  { intros source. unfold getCurrentGitHash, payload_down, fetch, to_github_api.
    rewrite bool_decide_eq_true_2; [by eexists|].
    unfold commits_main. by eexists. }
  assert (stranded m = []) as Hstr by (vm_compute; reflexivity).
  assert (Task.sourceId <$> drains m ++ updateQueue m
          = ["pokemon-resources"; "pvpoke-gamemaster"]) as Hwait
    by (vm_compute; reflexivity).
  assert (Forall (λ u, update_type_CHECK (Source.type (Task.source u)) = true)
                 (updateQueue m)) as Hkinds.
  { apply (bool_decide_unpack _). vm_compute. exact I. }
  assert (length [offline; payload_down] = length (drains m ++ updateQueue m))
    as Hlen by (vm_compute; reflexivity).
  destruct (loop_drains_queue
              [CallQueueUpdate tiers_source; CallQueueUpdate gamemaster_source]
              empty_store [offline; payload_down] Hstr Hkinds
              (Forall_cons_2 _ _ _ Hoff (Forall_cons_2 _ _ _ Hdown (Forall_nil_2 _)))
              Hlen)
    as (H1 & H2 & H3 & _ & H5).
  exact (conj Hstr (conj Hwait (conj H1 (conj H2 (conj H3 H5))))).
Defined.

(** ** The audit trail of the tasks the loop got through *)

(** X24.  The tasks that [shift] has returned are, in order, the settled
    ones, then the one in progress, if any, then the one in whose iteration
    the loop was rejected, if any: when a task is dequeued, every task
    dequeued before it is settled.  A settled task has exactly one audit
    row, with the task's terminal status; the task in progress has exactly
    one, still [in_progress].  Different tasks have different rows. *)
Theorem audit_trail_of_settled (events : list Event) (database : Store) :
  let m := run events (constructor database) in
  let rows := fact_data_updates (db m) in
  Task.id <$> shifted m = Task.id <$> (settled m ++ drains m ++ stranded m)
  ∧ length (drains m) ≤ 1 ∧ length (stranded m) ≤ 1
  ∧ NoDup (Task.databaseId <$> (settled m ++ drains m))
  ∧ Forall (λ u, ∃ r,
              filter (λ x, Row.pk_update_id x = Row.pk_update_id r) rows = [r]
              ∧ Task.databaseId u = Some (Row.pk_update_id r)
              ∧ Row.update_status r = Task.status u
              ∧ terminal (Row.update_status r) = true) (settled m)
  ∧ Forall (λ u, ∃ r,
              filter (λ x, Row.pk_update_id x = Row.pk_update_id r) rows = [r]
              ∧ Task.databaseId u = Some (Row.pk_update_id r)
              ∧ Row.update_status r = in_progress) (drains m).
Proof.
  intros m rows. pose proof (Consistent_run events database) as Hcon. fold m in Hcon.
  pose proof (Consistent_drains m Hcon) as Hlen.
  assert (length (stranded m) ≤ 1) as Hlen'.
  { destruct Hcon as [_ [(_ & _ & _ & ->)|[(_ & -> & _)|(_ & _ & u & ->)]]]; cbn; lia. }
  destruct Hcon as [[_ _ _ _ H5 H6 H7 H8 H9] _].
  apply Forall_app in H5 as [H5s H5d].
  repeat split; try done.
  - apply Forall_forall. intros u Hu.
    eapply Forall_forall in H5s as (r & Hf & Hdb & Hst & _); [|exact Hu].
    eapply Forall_forall in H6; [|exact Hu].
    exists r. by rewrite Hst.
  - apply Forall_forall. intros u Hu.
    eapply Forall_forall in H5d as (r & Hf & Hdb & Hst & _); [|exact Hu].
    eapply Forall_forall in H7; [|exact Hu].
    exists r. by rewrite Hst.
Qed.

(** X25.  A task of a kind that the CHECK of the audit trail does not list
    gets no audit row.  Enqueued while no loop is active, it is dequeued at
    once and the listeners of [onUpdateStart] are called with it; then the
    INSERT of [logUpdateStart] throws, the handler of the loop marks the
    task as failed, and its own [logUpdateError], which has no key to bind,
    throws in turn: the loop is rejected with [isProcessing] left set, and
    the audit trail is as it was. *)
Theorem unlisted_kind_rejects_loop (events : list Event) (database : Store)
  (source : Source.t) :
  let m := run events (constructor database) in
  isProcessing m = false →
  update_type_CHECK (Source.type source) = false →
  let m' := queueUpdate source m in
  isProcessing m' = true ∧ drains m' = [] ∧ updateQueue m' = []
  ∧ fact_data_updates (db m') = fact_data_updates (db m)
  ∧ settled m' = settled m
  ∧ ∃ u, stranded m' = [u] ∧ Task.source u = source ∧ Task.status u = failed
         ∧ is_Some (Task.error u) ∧ Task.databaseId u = None
         ∧ Task.id <$> shifted m' = (Task.id <$> shifted m) ++ [Task.id u]
         ∧ notified m'
           = notified m ++ call_all "onUpdateStart" u (listeners "onUpdateStart" m).
Proof.
  intros m Hp Hkind m'.
  destruct (Consistent_run events database) as [HC Hctl]. fold m in HC, Hctl.
  destruct Hctl as [(_ & Hq & Hd & Hst)|[(Hp' & _)|(Hp' & _)]]; [|congruence..].
  unfold m'. rewrite queueUpdate_eq, Hp. unfold processUpdateQueue.
  change (isProcessing (pushed source m)) with (isProcessing m). rewrite Hp.
  assert (updateQueue (pushed source m)
          = [Task.mk (entropy m) (Source.id source) source pending (clock m)
               (getUpdatePriority (Source.type source)) None None None None None])
    as Hqp by (cbn; by rewrite Hq).
  rewrite Hqp. cbn [orb]. rewrite bool_decide_eq_false_2 by done.
  rewrite while_queue_cons by done. cbn zeta. unfold after_enter, logUpdateStart.
  cbn [Task.source Task.start generateUpdateId new_Date fst snd].
  rewrite Hkind. cbn. rewrite Hd, Hst. do 5 (split; [done|]).
  eexists. split; [done|]. cbn. do 4 (split; [done|]).
  split; [by rewrite fmap_app|]. by rewrite heard_listeners.
Qed.

Lemma unlisted_kind_rejects_loop_witness :
  let m := constructor empty_store in
  let m' := queueUpdate events_source m in
  isProcessing m = false
  ∧ update_type_CHECK (Source.type events_source) = false
  ∧ isProcessing m' = true ∧ drains m' = [] ∧ updateQueue m' = []
  ∧ fact_data_updates (db m') = [].
Proof.
  intros m m'.
  assert (update_type_CHECK (Source.type events_source) = false) as Hkind
    by (vm_compute; reflexivity).
  destruct (unlisted_kind_rejects_loop [] empty_store events_source eq_refl Hkind)
    as (H1 & H2 & H3 & H4 & _).
  exact (conj eq_refl (conj Hkind (conj H1 (conj H2 (conj H3 H4))))).
Defined.

(** ** The registry, the checks and the start-up *)

Lemma Consistent_rows_ext (m m' : Manager) :
  fact_data_updates (db m') = fact_data_updates (db m) →
  updateQueue m' = updateQueue m → drains m' = drains m →
  settled m' = settled m → shifted m' = shifted m → stranded m' = stranded m →
  entropy m' = entropy m → isProcessing m' = isProcessing m →
  Consistent m → Consistent m'.
Proof.
  intros Hdb Hq Hd Hs Hsh Hst He Hp [[H1 H0 H2 H4 H5 H6 H7 H8 H9] Hctl]. split.
  - split; rewrite ?Hdb, ?Hq, ?Hd, ?Hs, ?Hsh, ?Hst, ?He; try done.
    eapply Forall_impl; [exact H5|]. intros u [r Hr]. exists r.
    by eapply audit_row_ext; [|exact Hr].
  - unfold Idle, Busy, Stuck in *. by rewrite Hp, Hq, Hd, Hdb, Hst.
Qed.

Lemma Consistent_check_enter (i : nat) (m : Manager) :
  Consistent m → Consistent (checkSourceForUpdates_enter i m).
Proof.
  intros Hcon. unfold checkSourceForUpdates_enter.
  destruct (updateSources m !! i); [|done].
  by eapply Consistent_rows_ext; [..|exact Hcon].
Qed.

Lemma checkSourceForUpdates_resume_eq (w : World) (i : nat) (m : Manager)
  (source : Source.t) :
  updateSources m !! i = Some source →
  checkSourceForUpdates_resume w i m
  = (Normal (),
     stamped source (if detectChanges w m source then queueUpdate source m else m)).
Proof.
  intros Hi. unfold checkSourceForUpdates_resume, stamped. rewrite Hi.
  by destruct (Source.lastCheckTime source).
Qed.

Lemma Consistent_check_resume (w : World) (i : nat) (m : Manager) :
  Consistent m → Consistent (checkSourceForUpdates_resume w i m).2.
Proof.
  intros Hcon.
  destruct (updateSources m !! i) as [source|] eqn:Hi.
  2:{ unfold checkSourceForUpdates_resume. by rewrite Hi. }
  rewrite (checkSourceForUpdates_resume_eq w i m source Hi). cbn [snd].
  set (m1 := if detectChanges w m source then queueUpdate source m else m).
  assert (Consistent m1) as Hcon1.
  { unfold m1. destruct (detectChanges w m source); [|done].
    apply (Consistent_step (CallQueueUpdate source) m Hcon). }
  unfold stamped. destruct (Source.lastCheckTime source); [|done].
  by eapply Consistent_rows_ext; [..|exact Hcon1].
Qed.

Lemma Consistent_timer_step (e : TimerEvent) (r r' : Runtime) :
  timer_step e r = Some r' → Consistent (manager r) → Consistent (manager r').
Proof.
  intros Hstep Hcon. destruct e as [dt|k|j w|e]; cbn [timer_step] in Hstep.
  - case_bool_decide; [|done]. by injection Hstep as <-.
  - destruct (timers r !! k) as [tm|]; [|done].
    case_bool_decide; [|done]. injection Hstep as <-.
    by apply Consistent_check_enter.
  - destruct (checking r !! j) as [i|]; [|done]. injection Hstep as <-.
    unfold checkSource_settle. cbn [manager].
    pose proof (Consistent_check_resume w i (manager r) Hcon) as Hcon'.
    destruct (checkSourceForUpdates_resume w i (manager r)) as [cpl m].
    cbn [snd] in Hcon'. by destruct cpl, (updateSources m !! i).
  - injection Hstep as <-. by apply Consistent_step.
Qed.

Lemma Consistent_timer_run (events : list TimerEvent) (r r' : Runtime) :
  timer_run events r = Some r' → Consistent (manager r) → Consistent (manager r').
Proof.
  revert r. induction events as [|e events IH]; intros r Hrun Hcon; cbn in Hrun.
  - by injection Hrun as <-.
  - destruct (timer_step e r) as [r1|] eqn:Hstep; [|done].
    eapply IH; [exact Hrun|]. by eapply Consistent_timer_step.
Qed.

(** The loop over the registry that enqueues every active source, the kinds
    of the sources being ones the audit trail accepts. *)
Lemma enqueue_active (l : list Source.t) (m : Manager) :
  Consistent m →
  Forall (λ s, update_type_CHECK (Source.type s) = true) l →
  let m' := foldl (λ m source,
                     if Source.isActive source then queueUpdate source m else m) m l in
  Consistent m'
  ∧ waiting m' ≡ₚ waiting m ++ filter (λ s, Source.isActive s = true) l
  ∧ settled m' = settled m
  ∧ updateSources m' = updateSources m.
Proof.
  revert m. induction l as [|s l IH]; intros m Hcon Hkinds; cbn zeta.
  - by rewrite app_nil_r.
  - apply Forall_cons in Hkinds as [Hkind Hkinds].
    cbn [foldl]. rewrite filter_cons. destruct (Source.isActive s) eqn:Hs.
    + rewrite decide_True by done.
      destruct (IH (queueUpdate s m)) as (Hc & Hw & Hst & Hsrc);
        [apply (Consistent_step (CallQueueUpdate s) m Hcon)|done|].
      cbn zeta in Hc, Hw, Hst, Hsrc.
      destruct (queueUpdate_waiting s m Hcon) as [Hw1 Hst1]; [by right|].
      split; [done|]. split; [by rewrite Hw, Hw1, <- app_assoc|].
      split; [by rewrite Hst|]. rewrite Hsrc.
      apply (step_updateSources (CallQueueUpdate s)).
    + rewrite decide_False by done. by apply IH.
Qed.

(** [initializeDataSources] stops at the first source whose kind the CHECK
    rejects. *)
Lemma initializeDataSources_from_listed (l : list Source.t) (m : Manager) :
  Forall (λ s, source_type_CHECK (Source.type s) = true) l →
  initializeDataSources_from l m
  = (Normal (),
     with_db (with_sources (replaced l (dim_data_sources (db m))) (db m)) m).
Proof.
  revert m. induction l as [|s l IH]; intros m Hkinds.
  - unfold replaced. cbn. by destruct m as [[] ? ? ? ? ? ? ? ? ? ? ?].
  - apply Forall_cons in Hkinds as [Hkind Hkinds].
    cbn [initializeDataSources_from]. rewrite Hkind, IH by done. done.
Qed.

Lemma initializeDataSources_from_unlisted (l : list Source.t) (m : Manager) :
  ¬ Forall (λ s, source_type_CHECK (Source.type s) = true) l →
  (initializeDataSources_from l m).1 = Throw (CHECK_failed "dim_data_sources").
Proof.
  revert m. induction l as [|s l IH]; intros m Hkinds.
  - destruct Hkinds. constructor.
  - cbn [initializeDataSources_from].
    destruct (source_type_CHECK (Source.type s)) eqn:Hkind; [|done].
    apply IH. intros Hl. apply Hkinds. by constructor.
Qed.

Lemma defaultSources_listed :
  Forall (λ s, source_type_CHECK (Source.type s) = true
               ∧ update_type_CHECK (Source.type s) = true) defaultSources.
Proof. repeat constructor. Qed.

Lemma initializeDataSources_constructor (database : Store) :
  initializeDataSources (constructor database)
  = (Normal (),
     with_db (with_sources (replaced defaultSources (dim_data_sources database))
                           database) (constructor database)).
Proof.
  unfold initializeDataSources. rewrite initializeDataSources_from_listed; [done|].
  eapply Forall_impl; [apply defaultSources_listed|]. by intros s [? _].
Qed.

(** The manager when [initialize] resolves. *)
Lemma initialize_manager (database : Store) :
  let m1 := with_db (with_sources (replaced defaultSources (dim_data_sources database))
                                  database) (constructor database) in
  manager (initialize (boot database)) = performInitialDataLoad m1
  ∧ timers (initialize (boot database))
    = timers (startMonitoring (mkRuntime m1 0 [] []))
  ∧ checking (initialize (boot database)) = [].
Proof.
  cbn zeta. unfold initialize, boot. cbn [manager].
  rewrite initializeDataSources_constructor.
  set (m1 := with_db _ (constructor database)).
  destruct (startMonitoring_fold (updateSources m1)
              (with_manager m1 (mkRuntime (constructor database) 0 [] [])))
    as (Hm & _ & Hc & _).
  unfold startMonitoring. cbn [with_manager manager timers checking] in *.
  by rewrite Hm, Hc.
Qed.

Lemma Consistent_initialize (database : Store) :
  Consistent (manager (initialize (boot database)))
  ∧ updateSources (manager (initialize (boot database))) = defaultSources.
Proof.
  destruct (initialize_manager database) as (-> & _).
  set (m1 := with_db _ (constructor database)).
  assert (Consistent m1) as Hcon1.
  { eapply Consistent_rows_ext; [..|apply (Consistent_run [] database)]; done. }
  unfold performInitialDataLoad. case_bool_decide; [|done].
  destruct (enqueue_active (updateSources m1) m1 Hcon1) as (Hc & _ & _ & Hsrc).
  { eapply Forall_impl; [apply defaultSources_listed|]. by intros s [_ ?]. }
  by rewrite processUpdateQueue_settled by apply Hc.
Qed.

Lemma timer_step_registry (e : TimerEvent) (r r' : Runtime) :
  timer_step e r = Some r' →
  fixed_part <$> updateSources (manager r') = fixed_part <$> updateSources (manager r).
Proof.
  intros Hstep. destruct e as [dt|k|j w|e]; cbn [timer_step] in Hstep.
  - case_bool_decide; [|done]. by injection Hstep as <-.
  - destruct (timers r !! k) as [tm|]; [|done].
    case_bool_decide; [|done]. injection Hstep as <-.
    cbn [checkSource_enter manager]. unfold checkSourceForUpdates_enter.
    destruct (updateSources (manager r) !! target tm) as [s|] eqn:Hs; [|done].
    cbn. rewrite list_fmap_insert. apply list_insert_id.
    by rewrite list_lookup_fmap, Hs.
  - destruct (checking r !! j) as [i|]; [|done]. injection Hstep as <-.
    unfold checkSource_settle. cbn [manager].
    assert (updateSources (checkSourceForUpdates_resume w i (manager r)).2
            = updateSources (manager r)) as Hsame.
    { destruct (updateSources (manager r) !! i) as [s|] eqn:Hi.
      2:{ unfold checkSourceForUpdates_resume. by rewrite Hi. }
      rewrite (checkSourceForUpdates_resume_eq w i _ s Hi). cbn [snd].
      assert (updateSources (stamped s (if detectChanges w (manager r) s
                                        then queueUpdate s (manager r)
                                        else manager r))
              = updateSources (if detectChanges w (manager r) s
                               then queueUpdate s (manager r) else manager r)) as ->.
      { unfold stamped. by destruct (Source.lastCheckTime s). }
      destruct (detectChanges w (manager r) s); [|done].
      apply (step_updateSources (CallQueueUpdate s)). }
    destruct (checkSourceForUpdates_resume w i (manager r)) as [cpl m].
    cbn [snd] in Hsame. rewrite <- Hsame.
    by destruct cpl, (updateSources m !! i).
  - injection Hstep as <-. cbn. by rewrite step_updateSources.
Qed.

(** X13.  The registry of the sources is fixed: whatever the timers, the
    checks, the enqueues and the tasks do, no source is added, removed or
    moved, and of a source only [lastCheckTime] is ever assigned.  So
    [lastUpdateTime] of a source in memory stays what the constructor made
    it, also after its updates have completed. *)
Theorem registry_is_fixed (events : list TimerEvent) (r r' : Runtime) :
  timer_run events r = Some r' →
  fixed_part <$> updateSources (manager r') = fixed_part <$> updateSources (manager r).
Proof.
  revert r. induction events as [|e events IH]; intros r Hrun; cbn in Hrun.
  - by injection Hrun as <-.
  - destruct (timer_step e r) as [r1|] eqn:Hstep; [|done].
    rewrite (IH r1 Hrun). by eapply timer_step_registry.
Qed.

Lemma registry_is_fixed_witness :
  let events := [Elapse 60000; Fire 0; CheckSettles 0 online;
                 ManagerEvent (Settle 0 online)] in
  ∃ r', timer_run events (initialize (boot empty_store)) = Some r'
        ∧ Task.status <$> settled (manager r') = [completed]
        ∧ Source.lastUpdateTime <$> updateSources (manager r') = [None; None; None; None]
        ∧ Source.lastCheckTime <$> updateSources (manager r')
          = [Some 6; None; None; None]
        ∧ fixed_part <$> updateSources (manager r') = fixed_part <$> defaultSources.
Proof.
  intros events.
  destruct (timer_run events (initialize (boot empty_store))) as [r'|] eqn:Hrun;
    [|by vm_compute in Hrun].
  exists r'. split; [done|].
  pose proof (registry_is_fixed events (initialize (boot empty_store)) r' Hrun) as Hfix.
  vm_compute in Hrun. injection Hrun as <-.
  split; [reflexivity|]. split; [reflexivity|]. split; [reflexivity|]. exact Hfix.
Defined.

(** After the start-up the registry holds the shipped sources, whose kinds
    the audit trail accepts. *)
Lemma registry_kinds (database : Store) (events : list TimerEvent) (r : Runtime) :
  timer_run events (initialize (boot database)) = Some r →
  Consistent (manager r)
  ∧ Forall (λ s, update_type_CHECK (Source.type s) = true) (updateSources (manager r)).
Proof.
  intros Hrun. destruct (Consistent_initialize database) as [Hcon Hsrc].
  split; [by eapply Consistent_timer_run|].
  pose proof (registry_is_fixed events _ r Hrun) as Hfix. rewrite Hsrc in Hfix.
  assert (∀ l : list Source.t,
            Source.type <$> l = (λ p, p.1.1.1.1.1.2) <$> (fixed_part <$> l)) as Hty.
  { intros l. by rewrite <- list_fmap_compose. }
  apply (Forall_fmap Source.type (λ t, update_type_CHECK t = true)).
  rewrite Hty, Hfix, <- Hty. repeat constructor.
Qed.

Lemma queueUpdate_sources (source : Source.t) (m : Manager) :
  dim_data_sources (db (queueUpdate source m)) = dim_data_sources (db m).
Proof.
  rewrite queueUpdate_eq. unfold processUpdateQueue.
  repeat case_match; try done. by rewrite while_queue_sources.
Qed.

(** X14.  The part of a check that runs when the network has answered, in
    any state the manager can be in after its start-up.  It throws nothing.
    The stored marker plays no part in it: the lookup of the detector finds
    no row, so the check enqueues one task for the source whenever the
    commit fetched is anything but [null], also when nothing has changed
    since the last update and when a task of this source waits or runs
    already; it enqueues none when the request failed.  Either way it
    writes the time of the check into the row of the source, if the check
    has taken it, and leaves the rest of the table, the registry and the
    settled tasks alone. *)
Theorem check_enqueues_iff_changed (database : Store) (events : list TimerEvent)
  (r : Runtime) (w : World) (i : nat) (source : Source.t) :
  timer_run events (initialize (boot database)) = Some r →
  updateSources (manager r) !! i = Some source →
  let m := manager r in
  let m' := (checkSourceForUpdates_resume w i m).2 in
  (checkSourceForUpdates_resume w i m).1 = Normal ()
  ∧ detectChanges w m source
    = negb (strictly_equal (getCurrentGitHash w source) (Some JsonNull))
  ∧ waiting m' ≡ₚ waiting m ++ (if detectChanges w m source then [source] else [])
  ∧ settled m' = settled m
  ∧ updateSources m' = updateSources m
  ∧ dim_data_sources (db m')
    = match Source.lastCheckTime source with
      | Some time =>
          alter (SourceRow.checked (Some time)) (Source.id source)
            (dim_data_sources (db m))
      | None => dim_data_sources (db m)
      end.
Proof.
  intros Hrun Hsrc m m'.
  destruct (registry_kinds database events r Hrun) as [Hcon Hkinds].
  assert (update_type_CHECK (Source.type source) = true) as Hkind.
  { eapply Forall_forall in Hkinds; [exact Hkinds|]. by eapply list_elem_of_lookup_2. }
  subst m'. change (manager r) with m in Hsrc, Hcon. clearbody m.
  rewrite (checkSourceForUpdates_resume_eq w i m source Hsrc). cbn [fst snd].
  split; [done|]. split.
  { unfold detectChanges. by rewrite getLastKnownHash_null. }
  assert (∀ m1, waiting (stamped source m1) = waiting m1
                ∧ settled (stamped source m1) = settled m1
                ∧ updateSources (stamped source m1) = updateSources m1
                ∧ dim_data_sources (db (stamped source m1))
                  = match Source.lastCheckTime source with
                    | Some time =>
                        alter (SourceRow.checked (Some time)) (Source.id source)
                          (dim_data_sources (db m1))
                    | None => dim_data_sources (db m1)
                    end) as Hstamped.
  { intros m1. unfold stamped. by destruct (Source.lastCheckTime source). }
  destruct (Hstamped (if detectChanges w m source then queueUpdate source m else m))
    as (-> & -> & -> & ->).
  destruct (detectChanges w m source).
  - destruct (queueUpdate_waiting source m Hcon) as [Hw Hs]; [by right|].
    split; [exact Hw|]. split; [exact Hs|].
    split; [apply (step_updateSources (CallQueueUpdate source))|].
    by rewrite queueUpdate_sources.
  - by rewrite app_nil_r.
Qed.

Lemma check_enqueues_iff_changed_witness :
  let events := [Elapse 60000; Fire 2] in
  ∃ r, timer_run events (initialize (boot empty_store)) = Some r
       ∧ Source.id <$> waiting (manager r)
         = ["pvpoke-gamemaster"; "pvpoke-rankings"; "pokemon-resources";
            "dialgadex-data"]
       ∧ Source.id <$> waiting (checkSourceForUpdates_resume payload_down 2 (manager r)).2
         ≡ₚ ["pvpoke-gamemaster"; "pvpoke-rankings"; "pokemon-resources";
             "dialgadex-data"; "pokemon-resources"].
Proof.
  intros events.
  destruct (timer_run events (initialize (boot empty_store))) as [r|] eqn:Hrun;
    [|by vm_compute in Hrun].
  exists r. split; [done|].
  pose proof (λ s H, check_enqueues_iff_changed empty_store events r payload_down 2 s
                       Hrun H) as Hcheck.
  vm_compute in Hrun. injection Hrun as <-.
  split; [reflexivity|].
  destruct (Hcheck _ eq_refl) as (_ & _ & Hw & _).
  apply (fmap_Permutation Source.id) in Hw. vm_compute in Hw. vm_compute. exact Hw.
Defined.

Lemma replaced_lookup (l : list Source.t) (t : gmap string SourceRow.t) :
  NoDup (Source.id <$> l) →
  (∀ s, s ∈ l → replaced l t !! Source.id s = Some (registry_row s))
  ∧ (∀ k, k ∉ Source.id <$> l → replaced l t !! k = t !! k).
Proof.
  unfold replaced.
  induction l as [|s l IH] using rev_ind; intros Hnd.
  { split; [by intros s ?%elem_of_nil|done]. }
  rewrite fmap_app in Hnd. apply NoDup_app in Hnd as (Hnd & Hdis & _).
  destruct (IH Hnd) as [IH1 IH2].
  rewrite foldl_app. cbn [foldl]. split.
  - intros s' [Hs'| ->%list_elem_of_singleton]%elem_of_app.
    + rewrite lookup_insert_ne; [by apply IH1|].
      intros Heq. apply (Hdis (Source.id s')).
      * apply list_elem_of_fmap. by exists s'.
      * rewrite <- Heq. by left.
    + by rewrite lookup_insert_eq.
  - intros k Hk. rewrite fmap_app in Hk. apply not_elem_of_app in Hk as [Hk1 Hk2].
    rewrite lookup_insert_ne; [by apply IH2|].
    intros <-. apply Hk2. by left.
Qed.

(** X15.  [initializeDataSources] with a registry whose identifiers are
    pairwise different.  When the kind of every source is one that the
    CHECK of the table lists, it returns, and afterwards every source of
    the registry has its row in the table of the sources, with its name,
    kind, repository and flag, with its check interval in hours, and with
    no check and no update on record: the times a row had before are gone.
    Rows under other keys, and the audit trail, are as before, and running
    it again changes nothing.  When the kind of a source is not listed, it
    throws. *)
Theorem initializeDataSources_rows (m : Manager) :
  NoDup (Source.id <$> updateSources m) →
  let listed := Forall (λ s, source_type_CHECK (Source.type s) = true)
                       (updateSources m) in
  let m' := (initializeDataSources m).2 in
  (listed →
   (initializeDataSources m).1 = Normal ()
   ∧ (∀ s, s ∈ updateSources m →
        ∃ row, dim_data_sources (db m') !! Source.id s = Some row ∧ registered s row)
   ∧ (∀ k, k ∉ Source.id <$> updateSources m →
        dim_data_sources (db m') !! k = dim_data_sources (db m) !! k)
   ∧ fact_data_updates (db m') = fact_data_updates (db m)
   ∧ initializeDataSources m' = (Normal (), m'))
  ∧ (¬ listed → ∃ message, (initializeDataSources m).1 = Throw message).
Proof.
  intros Hnd listed m'. split.
  2:{ intros Hkinds. eexists. by apply initializeDataSources_from_unlisted. }
  intros Hkinds. subst m'. unfold initializeDataSources.
  rewrite initializeDataSources_from_listed by done. cbn [fst snd].
  destruct (replaced_lookup (updateSources m) (dim_data_sources (db m)) Hnd)
    as [H1 H2].
  cbn [db with_db dim_data_sources with_sources fact_data_updates updateSources].
  split; [done|]. split; [|split; [exact H2|split; [done|]]].
  { intros s Hs. eexists. split; [by apply H1|]. by repeat split. }
  rewrite initializeDataSources_from_listed by done.
  cbn [db with_db dim_data_sources with_sources fact_data_updates updateSources
       fact_pokemon dim_moves].
  set (t1 := replaced (updateSources m) (dim_data_sources (db m))).
  destruct (replaced_lookup (updateSources m) t1 Hnd) as [H3 H4].
  assert (replaced (updateSources m) t1 = t1) as ->; [|done].
  apply map_eq. intros k.
  destruct (decide (k ∈ Source.id <$> updateSources m)) as [Hk|Hk].
  - apply list_elem_of_fmap in Hk as (s & -> & Hs). rewrite H3 by done.
    symmetry. by apply H1.
  - by apply H4.
Qed.

Lemma initializeDataSources_rows_witness :
  let stale := SourceRow.mk "old name" "tiers" "" 0 false (Some 5) (Some 7) in
  let m := constructor (mkStore [] {[ "pvpoke-gamemaster" := stale;
                                      "retired-source" := stale ]} [] []) in
  let m' := (initializeDataSources m).2 in
  NoDup (Source.id <$> updateSources m)
  ∧ Forall (λ s, source_type_CHECK (Source.type s) = true) (updateSources m)
  ∧ (∃ row, dim_data_sources (db m') !! "pvpoke-gamemaster" = Some row
            ∧ registered gamemaster_source row
            ∧ (SourceRow.update_frequency row == 6)%Q)
  ∧ dim_data_sources (db m') !! "retired-source" = Some stale.
Proof.
  intros stale m m'.
  assert (NoDup (Source.id <$> updateSources m)) as Hnd.
  { apply (bool_decide_unpack _). vm_compute. exact I. }
  assert (Forall (λ s, source_type_CHECK (Source.type s) = true) (updateSources m))
    as Hkinds by (repeat constructor).
  destruct (proj1 (initializeDataSources_rows m Hnd) Hkinds) as (_ & H1 & H2 & _).
  split; [exact Hnd|]. split; [exact Hkinds|]. split.
  - destruct (H1 gamemaster_source) as (row & Hrow & Hreg); [by left|].
    exists row. split; [exact Hrow|]. split; [exact Hreg|].
    destruct Hreg as (_ & _ & _ & -> & _). reflexivity.
  - refine (eq_trans (H2 "retired-source" _) eq_refl).
    apply (bool_decide_unpack _). vm_compute. exact I.
Defined.

(** X16.  [forceDataUpdate] of the application.  Before the application is
    initialized it throws and touches nothing.  Afterwards it enqueues one
    task for every active source of the registry, whether or not the source
    has changed, and for no other; the settled tasks stay as they are. *)
Theorem forceDataUpdate_enqueues_active (database : Store)
  (events : list TimerEvent) (r : Runtime) :
  timer_run events (initialize (boot database)) = Some r →
  let m := manager r in
  forceDataUpdate false m = Throw "App not initialized"
  ∧ ∃ m', forceDataUpdate true m = Normal m'
          ∧ waiting m'
            ≡ₚ waiting m ++ filter (λ s, Source.isActive s = true) (updateSources m)
          ∧ settled m' = settled m
          ∧ updateSources m' = updateSources m.
Proof.
  intros Hrun m. split; [done|].
  destruct (registry_kinds database events r Hrun) as [Hcon Hkinds].
  fold m in Hcon, Hkinds.
  clearbody m. eexists. split; [reflexivity|].
  by destruct (enqueue_active (updateSources m) m Hcon Hkinds) as (_ & Hw & Hs & Hsrc).
Qed.

Lemma forceDataUpdate_enqueues_active_witness :
  let events := ManagerEvent <$> (Settle 0 <$> [online; online; online; online]) in
  ∃ r m', timer_run events (initialize (boot empty_store)) = Some r
          ∧ waiting (manager r) = []
          ∧ forceDataUpdate true (manager r) = Normal m'
          ∧ Source.id <$> waiting m'
            ≡ₚ ["pvpoke-gamemaster"; "pvpoke-rankings"; "pokemon-resources";
                "dialgadex-data"].
Proof.
  intros events.
  destruct (timer_run events (initialize (boot empty_store))) as [r|] eqn:Hrun;
    [|by vm_compute in Hrun].
  destruct (forceDataUpdate_enqueues_active empty_store events r Hrun)
    as (_ & m' & Hm' & Hw & _).
  exists r, m'. split; [done|].
  vm_compute in Hrun. injection Hrun as <-.
  split; [reflexivity|]. split; [exact Hm'|].
  apply (fmap_Permutation Source.id) in Hw. exact Hw.
Defined.

(** X17.  Start-up on a store that has pokemon already.  [initialize] writes
    the rows of the sources and arms one timer per shipped source, due a
    minute later, and that is all: no task is enqueued or started, no audit
    row is written, and no loop is active when it resolves. *)
Theorem initialize_skips_load_when_populated (database : Store) :
  fact_pokemon database ≠ [] →
  let r := initialize (boot database) in
  waiting (manager r) = [] ∧ isProcessing (manager r) = false
  ∧ shifted (manager r) = []
  ∧ fact_data_updates (db (manager r)) = fact_data_updates database
  ∧ timers r = [mkTimer 60000 0; mkTimer 60000 1; mkTimer 60000 2; mkTimer 60000 3]
  ∧ checking r = [].
Proof.
  intros Hpop r. destruct (initialize_manager database) as (Hm & Ht & Hc).
  fold r in Hm, Ht, Hc. rewrite Hm, Ht, Hc.
  set (m1 := with_db _ (constructor database)).
  assert (performInitialDataLoad m1 = m1) as ->.
  { unfold performInitialDataLoad. rewrite bool_decide_eq_false_2; [done|].
    change (fact_pokemon (db m1)) with (fact_pokemon database).
    by destruct (fact_pokemon database). }
  done.
Qed.

Lemma initialize_skips_load_when_populated_witness :
  let database := mkStore [] ∅ [(1%Z, "bulbasaur")] [] in
  let r := initialize (boot database) in
  fact_pokemon database ≠ []
  ∧ waiting (manager r) = [] ∧ isProcessing (manager r) = false
  ∧ length (timers r) = 4.
Proof.
  intros database r.
  assert (fact_pokemon database ≠ []) as Hpop by done.
  destruct (initialize_skips_load_when_populated database Hpop)
    as (H1 & H2 & _ & _ & H5 & _).
  split; [exact Hpop|]. split; [exact H1|]. split; [exact H2|].
  fold r in H5. by rewrite H5.
Defined.

(** ** The repository path *)

Lemma strip_prefix_app (p s : string) : strip_prefix p (p +:+ s) = Some s.
Proof.
  induction p as [|c p IH]; [by destruct s|].
  change (String c p +:+ s) with (String c (p +:+ s)).
  cbn [strip_prefix]. by rewrite Ascii.eqb_refl.
Qed.

(** A literal that does not start [a], and is no longer than [a], does not
    start [a] with something appended. *)
Lemma strip_prefix_None_app (p a b : string) :
  strip_prefix p a = None → String.length p ≤ String.length a →
  strip_prefix p (a +:+ b) = None.
Proof.
  revert a. induction p as [|c p IH]; intros [|d a]; try done.
  - cbn [String.length]. lia.
  - change (String d a +:+ b) with (String d (a +:+ b)).
    cbn [strip_prefix String.length].
    destruct (Ascii.eqb c d); [|done]. intros Hnone Hlen. apply IH; [done|lia].
Qed.

Lemma string_length_app (a b : string) :
  String.length (a +:+ b) = String.length a + String.length b.
Proof.
  induction a as [|c a IH]; [done|].
  change (S (String.length (a +:+ b)) = S (String.length a + String.length b)).
  by rewrite IH.
Qed.

Lemma app_assoc_string (a b c : string) : (a +:+ b) +:+ c = a +:+ (b +:+ c).
Proof.
  induction a as [|x a IH]; [done|].
  change (String x ((a +:+ b) +:+ c) = String x (a +:+ (b +:+ c))).
  by rewrite IH.
Qed.

Lemma segment_app (run rest : string) :
  slash_free run = true →
  rest = "" ∨ (∃ rest', rest = String slash rest') →
  segment (run +:+ rest) = (run, rest).
Proof.
  intros Hrun Hrest. induction run as [|c run IH].
  - change ("" +:+ rest) with rest.
    destruct Hrest as [->|[rest' ->]]; [done|]. cbn [segment].
    by rewrite Ascii.eqb_refl.
  - change (String c run +:+ rest) with (String c (run +:+ rest)).
    cbn [segment slash_free] in *.
    apply andb_true_iff in Hrun as [Hc Hrun]. apply negb_true_iff in Hc.
    rewrite Hc, IH; done.
Qed.

Lemma match_here_None (s : string) :
  strip_prefix "github.com/" s = None → match_here s = None.
Proof. unfold match_here. by intros ->. Qed.

Lemma regexp_match_skip (pre rest : string) :
  occurs "github.com/" (pre +:+ "github.com") = false →
  regexp_match (pre +:+ "github.com" +:+ rest)
  = regexp_match ("github.com" +:+ rest).
Proof.
  induction pre as [|c pre IH]; [done|]. intros Hocc.
  change (String c pre +:+ "github.com" +:+ rest)
    with (String c (pre +:+ "github.com" +:+ rest)).
  change (String c pre +:+ "github.com") with (String c (pre +:+ "github.com")) in Hocc.
  cbn [occurs] in Hocc.
  destruct (strip_prefix "github.com/" (String c (pre +:+ "github.com"))) eqn:Hsp;
    [done|].
  cbn [regexp_match]. rewrite match_here_None; [by apply IH|].
  change (String c (pre +:+ "github.com" +:+ rest))
    with (String c pre +:+ ("github.com" +:+ rest)).
  rewrite <- app_assoc_string. apply strip_prefix_None_app; [exact Hsp|].
  change (String c pre +:+ "github.com") with (String c (pre +:+ "github.com")).
  cbn [String.length]. rewrite string_length_app. cbn. lia.
Qed.

Lemma replace_first_absent (pattern s : string) :
  occurs pattern s = false → replace_first pattern s = s.
Proof.
  induction s as [|c s IH]; cbn; destruct (strip_prefix pattern _); try done.
  intros Hocc. by rewrite IH.
Qed.

Lemma replace_first_git (a b : string) :
  occurs ".git" (a +:+ ".gi") = false →
  replace_first ".git" (a +:+ ".git" +:+ b) = a +:+ b.
Proof.
  induction a as [|c a IH]; [done|]. intros Hocc.
  change (String c a +:+ ".git" +:+ b) with (String c (a +:+ ".git" +:+ b)).
  change (String c a +:+ ".gi") with (String c (a +:+ ".gi")) in Hocc.
  cbn [occurs] in Hocc.
  destruct (strip_prefix ".git" (String c (a +:+ ".gi"))) eqn:Hsp; [done|].
  cbn [replace_first].
  assert (strip_prefix ".git" (String c (a +:+ ".git" +:+ b)) = None) as ->.
  { replace (String c (a +:+ ".git" +:+ b))
      with (String c (a +:+ ".gi") +:+ ("t" +:+ b))
      by (change (String c (a +:+ ".gi")) with (String c a +:+ ".gi");
          by rewrite app_assoc_string).
    apply strip_prefix_None_app; [exact Hsp|].
    cbn [String.length]. rewrite string_length_app. cbn. lia. }
  cbn. by rewrite IH.
Qed.

(** X18.  [getRepoPath] on a url whose first [github.com/] is followed by an
    owner, a slash and a repository name, the name ending the url or being
    followed by a slash.  It returns the owner and the name joined by a
    slash, the name without its first [.git]: a name without [.git] is
    returned whole, and of a name that has [.git] the first one goes
    wherever it stands, at the end or inside. *)
Theorem getRepoPath_github (pre owner repo tail : string) :
  occurs "github.com/" (pre +:+ "github.com") = false →
  owner ≠ "" → repo ≠ "" → slash_free owner = true → slash_free repo = true →
  tail = "" ∨ (∃ tail', tail = String slash tail') →
  getRepoPath (pre +:+ "github.com" +:+ "/" +:+ owner +:+ "/" +:+ repo +:+ tail)
  = Some (owner +:+ "/" +:+ replace_first ".git" repo)
  ∧ (occurs ".git" repo = false → replace_first ".git" repo = repo)
  ∧ (∀ a b, repo = a +:+ ".git" +:+ b → occurs ".git" (a +:+ ".gi") = false →
       replace_first ".git" repo = a +:+ b).
Proof.
  intros Hpre Howner Hrepo Hso Hsr Htail.
  split; [|split; [apply replace_first_absent|by intros a b -> ?; apply replace_first_git]].
  unfold getRepoPath. rewrite regexp_match_skip by done.
  assert (match_here ("github.com" +:+ "/" +:+ owner +:+ "/" +:+ repo +:+ tail)
          = Some (owner, repo)) as Hhere.
  { unfold match_here.
    change ("github.com" +:+ "/" +:+ owner +:+ "/" +:+ repo +:+ tail)
      with ("github.com/" +:+ (owner +:+ "/" +:+ repo +:+ tail)).
    rewrite strip_prefix_app.
    rewrite (segment_app owner ("/" +:+ repo +:+ tail)); [|done|right; by eexists].
    destruct owner as [|c owner]; [done|].
    change ("/" +:+ repo +:+ tail) with (String slash (repo +:+ tail)).
    cbv beta iota zeta. rewrite (segment_app repo tail) by done.
    by destruct repo. }
  destruct ("github.com" +:+ "/" +:+ owner +:+ "/" +:+ repo +:+ tail) eqn:Heq;
    [done|].
  cbn [regexp_match]. by rewrite Hhere.
Qed.

Lemma getRepoPath_github_witness :
  getRepoPath "https://github.com/pvpoke/pvpoke.git" = Some "pvpoke/pvpoke"
  ∧ getRepoPath "https://github.com/someone/someone.github.io/tree/main"
    = Some "someone/someonehub.io".
Proof.
  split.
  - destruct (getRepoPath_github "https://" "pvpoke" "pvpoke.git" "")
      as (H1 & _ & H3); [done..|by left|].
    rewrite (H3 "pvpoke" "" eq_refl eq_refl) in H1. exact H1.
  - destruct (getRepoPath_github "https://" "someone" "someone.github.io" "/tree/main")
      as (H1 & _ & H3); [done..|right; by eexists|].
    rewrite (H3 "someone" "hub.io" eq_refl eq_refl) in H1. exact H1.
Defined.

(** X19.  [getRepoPath] returns [null] for every url in which the text
    [github.com/] does not occur. *)
Theorem getRepoPath_not_github (repositoryUrl : string) :
  occurs "github.com/" repositoryUrl = false → getRepoPath repositoryUrl = None.
Proof.
  intros Hocc. unfold getRepoPath.
  assert (regexp_match repositoryUrl = None) as ->; [|done].
  induction repositoryUrl as [|c s IH]; cbn [occurs regexp_match] in *.
  - by vm_compute.
  - destruct (strip_prefix "github.com/" (String c s)) eqn:Hsp; [done|].
    rewrite match_here_None by done. by apply IH.
Qed.

Lemma getRepoPath_not_github_witness :
  getRepoPath "https://gitlab.com/pvpoke/pvpoke.git" = None
  ∧ getRepoPath "git@github.com:pvpoke/pvpoke.git" = None.
Proof.
  split.
  - exact (getRepoPath_not_github "https://gitlab.com/pvpoke/pvpoke.git" eq_refl).
  - exact (getRepoPath_not_github "git@github.com:pvpoke/pvpoke.git" eq_refl).
Defined.

(** ** A line of a CSV file *)

(** Code units that are neither a quote nor a separating comma go to the
    field under construction. *)
Lemma parseCSVLine_plain (body rest : CodeUnits) (values : list CodeUnits)
  (current : CodeUnits) (inQuotes : bool) :
  quote ∉ body → (inQuotes = false → comma ∉ body) →
  parseCSVLine_from (body ++ rest) values current inQuotes
  = parseCSVLine_from rest values (current ++ body) inQuotes.
Proof.
  revert current. induction body as [|c body IH]; intros current Hq Hc.
  { by rewrite app_nil_r. }
  apply not_elem_of_cons in Hq as [Hcq Hq].
  cbn [app parseCSVLine_from]. rewrite bool_decide_eq_false_2 by done.
  assert (bool_decide (c = comma) && negb inQuotes = false) as ->.
  { destruct inQuotes; [by rewrite andb_false_r|].
    rewrite bool_decide_eq_false_2; [done|].
    intros ->. apply (Hc eq_refl). by left. }
  rewrite IH, <- app_assoc; [done|done|].
  intros Hin Hbody. apply (Hc Hin). by right.
Qed.

Lemma parseCSVLine_field (field : bool * CodeUnits) (rest : CodeUnits)
  (values : list CodeUnits) (current : CodeUnits) :
  writable field →
  parseCSVLine_from (written field ++ rest) values current false
  = parseCSVLine_from rest values (current ++ field.2) false.
Proof.
  destruct field as [[] body]; intros [Hq Hc]; cbn [written fst snd] in *.
  - rewrite <- !app_assoc. cbn [app parseCSVLine_from negb].
    rewrite bool_decide_eq_true_2 by done.
    rewrite parseCSVLine_plain by done.
    cbn [app parseCSVLine_from negb]. by rewrite bool_decide_eq_true_2 by done.
  - apply parseCSVLine_plain; [done|]. intros _. by apply Hc.
Qed.

Lemma parseCSVLine_fields (fields : list (bool * CodeUnits))
  (values : list CodeUnits) (current : CodeUnits) :
  fields ≠ [] → Forall writable fields →
  parseCSVLine_from (joined (written <$> fields)) values current false
  = values ++ match fields with
              | [] => []
              | first :: others =>
                  trim (current ++ first.2) :: (trim <$> (snd <$> others))
              end.
Proof.
  revert values current.
  induction fields as [|f fields IH]; intros values current Hne Hall; [done|].
  apply Forall_cons in Hall as [Hf Hall].
  destruct fields as [|g fields].
  - cbn [fmap list_fmap joined].
    rewrite <- (app_nil_r (written f)), parseCSVLine_field by done. done.
  - change (joined (written <$> f :: g :: fields))
      with (written f ++ [comma] ++ joined (written <$> g :: fields)).
    rewrite parseCSVLine_field by done.
    cbn [app parseCSVLine_from negb andb].
    rewrite bool_decide_eq_false_2 by done. rewrite bool_decide_eq_true_2 by done.
    cbn [andb]. rewrite IH by done. by rewrite <- app_assoc.
Qed.

(** X20.  [parseCSVLine] reads back a line that was written from fields,
    each of them bare or between quotes, joined by commas: it returns the
    fields in their order, every one trimmed of white space at both ends,
    also the white space inside quotes.  This holds for every list of at
    least one field in which no field has a quote, and no bare field has a
    comma. *)
Theorem parseCSVLine_reads_back (fields : list (bool * CodeUnits)) :
  fields ≠ [] → Forall writable fields →
  parseCSVLine (joined (written <$> fields)) = trim <$> (snd <$> fields).
Proof.
  intros Hne Hall. unfold parseCSVLine. rewrite parseCSVLine_fields by done.
  by destruct fields.
Qed.

Lemma parseCSVLine_reads_back_witness :
  let fields := [(false, [80; 105; 107; 97]); (true, [32; 49; 44; 50; 32]);
                 (false, []); (true, [51])]%N in
  joined (written <$> fields)
  = [80; 105; 107; 97; 44; 34; 32; 49; 44; 50; 32; 34; 44; 44; 34; 51; 34]%N
  ∧ parseCSVLine (joined (written <$> fields))
    = [[80; 105; 107; 97]; [49; 44; 50]; []; [51]]%N.
Proof.
  intros fields. split; [reflexivity|].
  assert (Forall writable fields) as Hall.
  { unfold fields.
    repeat (apply Forall_cons; split;
            [split; cbn [fst snd];
             [by_evaluation|intros H; first [discriminate H|by_evaluation]]|]).
    constructor. }
  exact (parseCSVLine_reads_back fields ltac:(done) Hall).
Defined.

Lemma elem_of_trimStart (c : N) (s : CodeUnits) : c ∈ trimStart s → c ∈ s.
Proof.
  induction s as [|d s IH]; [done|]. cbn [trimStart].
  destruct (is_space d); [|done]. intros Hc. right. by apply IH.
Qed.

Lemma elem_of_trim (c : N) (s : CodeUnits) : c ∈ trim s → c ∈ s.
Proof.
  unfold trim. rewrite elem_of_reverse. intros Hc%elem_of_trimStart.
  rewrite elem_of_reverse in Hc. by apply elem_of_trimStart.
Qed.

Lemma parseCSVLine_from_values (line : CodeUnits) (values : list CodeUnits)
  (current : CodeUnits) (inQuotes : bool) :
  quote ∉ current → Forall (λ v, quote ∉ v) values →
  let result := parseCSVLine_from line values current inQuotes in
  Forall (λ v, quote ∉ v) result ∧ length values < length result.
Proof.
  revert values current inQuotes.
  induction line as [|c line IH]; intros values current inQuotes Hcur Hvals;
    cbn [parseCSVLine_from].
  - split; [|rewrite length_app; cbn; lia].
    rewrite Forall_app, Forall_singleton. split; [done|].
    intros Hq%elem_of_trim. by apply Hcur.
  - case_bool_decide as Hq; [by apply IH|].
    destruct (bool_decide (c = comma) && negb inQuotes).
    + destruct (IH (values ++ [trim current]) [] inQuotes) as [H1 H2].
      * by intros ?%elem_of_nil.
      * rewrite Forall_app, Forall_singleton. split; [done|].
        intros Hin%elem_of_trim. by apply Hcur.
      * split; [done|]. rewrite length_app in H2. cbn in *. lia.
    + apply IH; [|done]. rewrite elem_of_app, list_elem_of_singleton.
      intros [?|?]; [by apply Hcur|by apply Hq].
Qed.

(** X21.  Whatever the line, [parseCSVLine] returns at least one value, and
    no value it returns has a quote in it: quotes only switch the reading of
    commas on and off, so a doubled quote inside a quoted field is dropped
    like any other. *)
Theorem parseCSVLine_drops_quotes (line : CodeUnits) :
  parseCSVLine line ≠ [] ∧ Forall (λ v, quote ∉ v) (parseCSVLine line).
Proof.
  destruct (parseCSVLine_from_values line [] [] false) as [H1 H2];
    [by intros ?%elem_of_nil|constructor|].
  cbn zeta in H1, H2. split; [|exact H1].
  unfold parseCSVLine. intros Hnil. rewrite Hnil in H2. cbn in H2. lia.
Qed.
